(** * Account mapping, monthly aggregation and projection functions

    A shallow embedding of the PL/pgSQL functions of
    [supabase/migrations]:

    - [20250101000006_account_mapping_function.sql]
      ([fn_map_account_to_category], [fn_map_company_accounts],
      [fn_get_unmapped_accounts], [fn_set_account_mapping]),
    - [20250101000004_monthly_aggregation_functions.sql]
      ([fn_generate_monthly_pl], [fn_generate_monthly_cash_flow]),
    - [20250101000005_projection_function.sql] ([fn_generate_projection]),
    - [20250101000002_seed_categories.sql] (the insert and its
      verification),

    over the tables of [20250101000000_initial_schema.sql], of the three
    analytics views [v_monthly_pl], [v_monthly_cash_flow] and [v_kpis],
    and of the state and the handlers of two components of the
    dashboard, the data table and the donut chart.

    Conventions of the embedding.
    - A table is the list of its rows, in the order a sequential scan
      returns them; a [SELECT] without [ORDER BY] walks that list.
    - [UUID] values are numbers, [TEXT] is [string] (one [ascii] per
      character), [DATE] is a calendar triple, [NUMERIC] is a rational
      and [INTEGER] an integer.  [POWER] is rounded the way PostgreSQL
      rounds the powers the projection takes; [AVG] and the quotients of
      the views are exact, where PostgreSQL rounds a quotient of
      [NUMERIC]s at sixteen significant digits or more.
    - [Mapping], [Aggregation] and [Projection] take what is stored as
      well-typed: no [source_examples] is [NULL], a [row_version] can be
      incremented, a projected amount fits its column.  [Stored] has the
      same functions with the checks of the engine on the nullable array
      of the catalog, on the 32-bit range of [INTEGER] and on the
      precision of [NUMERIC(15,2)]; where the checks pass the two agree
      ([StoredCatalog], [StoredAggregation], [StoredProjection]).
    - [LOWER] folds the letters A-Z; locale-dependent folding of other
      characters is not part of the embedding.
    - A nullable column or parameter has an [option] type, except the
      [row_version] columns, which the schema leaves nullable and every
      statement of the migrations writes as a number, and, outside
      [Stored], [categories.source_examples].
    - [CURRENT_DATE], [NOW()] and the identifier [gen_random_uuid()]
      gives to an inserted row are inputs of the functions.
    - A function is a state transformer over the database that either
      returns a value or raises; the database it is paired with is the one
      reached when it stopped, so a failure "before any mutation" is one
      that is paired with the initial database. *)

From Stdlib Require Import List String Ascii Bool ZArith NArith QArith Lia.
From Stdlib Require Import Qround Qabs Permutation.
Import ListNotations.
Local Open Scope Z_scope.

Set Implicit Arguments.

(** ** Scalar types *)

Definition uuid := N.
Definition text := string.
Definition numeric := Q.
Definition timestamptz := Z.
Bind Scope N_scope with uuid.
Bind Scope string_scope with text.
Bind Scope Q_scope with numeric.

(** *** [TEXT]: [LOWER], [=] and [LIKE] *)

Module Text.

Definition lower_ascii (c : ascii) : ascii :=
  let n := N_of_ascii c in
  if ((65 <=? n) && (n <=? 90))%N then ascii_of_N (n + 32) else c.

Fixpoint LOWER (s : string) : string :=
  match s with
  | EmptyString => EmptyString
  | String c s' => String (lower_ascii c) (LOWER s')
  end.

(** [x IN (v1, ..., vn)] on text. *)
Definition text_in (x : text) (vs : list text) : bool :=
  existsb (String.eqb x) vs.

(** A [LIKE] pattern, read left to right with the default escape
    character: a backslash makes the next character literal, [%] stands
    for any sequence of characters and [_] for any one character. *)
Inductive like_tok : Type :=
| AnySeq
| AnyChar
| Lit (c : ascii).

(** [None]: the pattern ends with the escape character, which PostgreSQL
    reports as an error. *)
Fixpoint like_parse (p : list ascii) : option (list like_tok) :=
  match p with
  | [] => Some []
  | c :: p' =>
      if Ascii.eqb c "\"%char then
        match p' with
        | [] => None
        | c' :: p'' => option_map (cons (Lit c')) (like_parse p'')
        end
      else if Ascii.eqb c "%"%char then option_map (cons AnySeq) (like_parse p')
      else if Ascii.eqb c "_"%char then option_map (cons AnyChar) (like_parse p')
      else option_map (cons (Lit c)) (like_parse p')
  end.

Fixpoint like_run (ts : list like_tok) (s : list ascii) {struct ts} : bool :=
  match ts with
  | [] => match s with [] => true | _ :: _ => false end
  | AnySeq :: ts' =>
      (fix any (u : list ascii) : bool :=
         like_run ts' u || match u with [] => false | _ :: u' => any u' end) s
  | AnyChar :: ts' =>
      match s with [] => false | _ :: s' => like_run ts' s' end
  | Lit c :: ts' =>
      match s with [] => false | x :: s' => Ascii.eqb x c && like_run ts' s' end
  end.

(** [s LIKE p].  The patterns of this program all end in an unescapable
    position (see [wrap_parses]), so the error case does not arise; it
    is mapped to [false]. *)
Definition LIKE (s p : text) : bool :=
  match like_parse (list_ascii_of_string p) with
  | Some ts => like_run ts (list_ascii_of_string s)
  | None => false
  end.

(** ['%' || x || '%'] *)
Definition wrap (x : text) : text := ("%" ++ x ++ "%")%string.

(** The reading the comments of the mapping function give to the two
    [LIKE] tests: [x] occurs in [s] as a run of consecutive characters. *)
Fixpoint prefixb (x s : list ascii) : bool :=
  match x, s with
  | [], _ => true
  | _ :: _, [] => false
  | a :: x', b :: s' => Ascii.eqb b a && prefixb x' s'
  end.

Fixpoint substringb (x s : list ascii) : bool :=
  prefixb x s || match s with [] => false | _ :: s' => substringb x s' end.

Definition contains (s x : text) : bool :=
  substringb (list_ascii_of_string x) (list_ascii_of_string s).

End Text.
Import Text.

(** *** [DATE] and month arithmetic *)

Module Date.

Record date : Type := mkDate { year : Z; month : Z; day : Z }.

Definition ltb (a b : date) : bool :=
  (year a <? year b)
  || ((year a =? year b)
      && ((month a <? month b)
          || ((month a =? month b) && (day a <? day b)))).

Definition eqb (a b : date) : bool :=
  (year a =? year b) && (month a =? month b) && (day a =? day b).

Definition leb (a b : date) : bool := ltb a b || eqb a b.

Definition is_leap (y : Z) : bool :=
  (y mod 4 =? 0) && (negb (y mod 100 =? 0) || (y mod 400 =? 0)).

Definition days_in_month (y m : Z) : Z :=
  if m =? 2 then (if is_leap y then 29 else 28)
  else if (m =? 4) || (m =? 6) || (m =? 9) || (m =? 11) then 30
  else 31.

(** Months since year 0. *)
Definition month_index (d : date) : Z := year d * 12 + (month d - 1).

(** [d + (k || ' months')::INTERVAL]: the month moves by [k], the day of
    the month is kept unless the target month is shorter. *)
Definition add_months (d : date) (k : Z) : date :=
  let i := month_index d + k in
  let y := i / 12 in
  let m := i mod 12 + 1 in
  mkDate y m (Z.min (day d) (days_in_month y m)).

(** [DATE_TRUNC('month', d)] *)
Definition trunc_month (d : date) : date := mkDate (year d) (month d) 1.

End Date.
Import Date.

(** ** Tables *)

Record category : Type := mkCategory {
  cat_id : uuid;
  cat_name : text;
  canonical_type : text;
  source_examples : list text
}.

Record account : Type := mkAccount {
  acc_id : uuid;
  acc_company_id : uuid;
  qbo_account_id : text;
  acc_name : text;
  acc_type : text;
  sub_type : option text;
  mapping_category_id : option uuid
}.

Record raw_transaction : Type := mkTxn {
  txn_id : uuid;
  txn_company_id : uuid;
  txn_date : date;
  amount : numeric;
  txn_account_id : option uuid
}.

(** [monthly_pl.totals_by_account_type]: a JSON object read through the
    keys [revenue], [cogs] and [opex]; a key can be missing. *)
Record pl_totals : Type := mkPlTotals {
  revenue : option numeric;
  cogs : option numeric;
  opex : option numeric
}.

Record cf_totals : Type := mkCfTotals {
  operating : numeric;
  investing : numeric;
  financing : numeric
}.

(** A row of [monthly_pl] or of [monthly_cash_flow]; [T] is the type of
    the totals. *)
Record monthly (T : Type) : Type := mkMonthly {
  m_id : uuid;
  m_company_id : uuid;
  period_start : date;
  period_end : date;
  totals_by_account_type : T;
  row_version : Z;
  generated_at : timestamptz;
  source_run_id : text
}.

Record assumptions : Type := mkAssumptions {
  method : text;
  growth_rate_monthly : numeric;
  growth_rate_annual : numeric;
  base_revenue_avg : numeric;
  base_costs_avg : numeric;
  historical_months_used : Z;
  projection_month_offset : Z;
  a_generated_at : timestamptz
}.

Record projection : Type := mkProjection {
  p_id : uuid;
  p_company_id : uuid;
  snapshot_date : date;
  p_month : date;
  revenue_projection : numeric;
  cost_projection : numeric;
  p_assumptions : assumptions
}.

Record db : Type := mkDb {
  companies : list uuid;
  categories : list category;
  accounts : list account;
  raw_transactions : list raw_transaction;
  monthly_pl : list (monthly pl_totals);
  monthly_cash_flow : list (monthly cf_totals);
  projections_12m : list projection
}.

(** ** The seeded catalog ([20250101000002_seed_categories.sql])

    The six rows of the [INSERT], in its order; the ids stand for the
    ones [gen_random_uuid()] gave them. *)

Definition seed_categories : list category :=
  [ mkCategory 1 "Revenue" "revenue"
      ["Income"; "Sales"; "Service Revenue"; "Product Revenue";
       "Consulting Revenue"; "Subscription Revenue"; "Other Income";
       "Sales of Product Income"; "Service/Fee Income";
       "Unapplied Cash Payment Income"];
    mkCategory 2 "Cost of Goods Sold" "cogs"
      ["COGS"; "Cost of Sales"; "Direct Costs"; "Cost of Goods Sold";
       "Job Expenses"; "Job Materials"; "Subcontractors";
       "Supplies & Materials - COGS"; "Direct Labor";
       "Freight & Delivery - COGS"];
    mkCategory 3 "Operating Expenses" "opex"
      ["Rent"; "Salaries"; "Wages"; "Marketing"; "Advertising"; "Utilities";
       "Office Supplies"; "Insurance"; "Professional Fees";
       "Legal & Professional Fees"; "Accounting"; "Bank Charges";
       "Depreciation"; "Meals & Entertainment"; "Travel"; "Telephone";
       "Internet"; "Software"; "Subscriptions"; "Repairs & Maintenance";
       "Taxes & Licenses"; "Payroll Expenses"; "Employee Benefits";
       "Office Expenses"; "Miscellaneous"];
    mkCategory 4 "Assets" "asset"
      ["Cash"; "Bank"; "Checking"; "Savings"; "Accounts Receivable"; "A/R";
       "Inventory"; "Inventory Asset"; "Prepaid Expenses"; "Fixed Assets";
       "Equipment"; "Furniture & Fixtures"; "Vehicles"; "Buildings"; "Land";
       "Accumulated Depreciation"; "Other Current Assets"; "Other Assets";
       "Undeposited Funds"];
    mkCategory 5 "Liabilities" "liability"
      ["Accounts Payable"; "A/P"; "Credit Card"; "Credit Cards";
       "Loans Payable"; "Notes Payable"; "Line of Credit";
       "Payroll Liabilities"; "Sales Tax Payable"; "Accrued Expenses";
       "Other Current Liabilities"; "Long Term Liabilities";
       "Mortgage Payable"];
    mkCategory 6 "Equity" "equity"
      ["Owner Equity"; "Owners Equity"; "Retained Earnings";
       "Opening Balance Equity"; "Capital Stock"; "Common Stock";
       "Paid-In Capital"; "Distributions"; "Dividends Paid";
       "Partner Equity"; "Member Equity"] ]%string%N.

(** ** Errors and the state transformer *)

(** What a function can raise: one constructor per [RAISE EXCEPTION] of
    the three migrations, and the errors the engine itself reports for
    their statements. *)
Inductive exn : Type :=
| company_id_null            (* 'company_id cannot be NULL' *)
| period_bound_null          (* 'period_start and period_end cannot be NULL' *)
| period_start_after_end     (* 'period_start must be before or equal to period_end' *)
| source_run_id_null_or_empty (* 'source_run_id cannot be NULL or empty' *)
| account_not_found (id : option uuid)   (* 'Account with id % not found' *)
| company_does_not_exist (id : uuid)     (* 'Company with id % does not exist' *)
| foreign_key_violation (tbl : text)     (* insert of a row whose company is not in companies *)
| grouping_error (col : text)            (* column "..." must appear in the GROUP BY clause
                                            or be used in an aggregate function *)
| foreach_expression_null                (* 'FOREACH expression must not be null' *)
| integer_out_of_range                   (* an INTEGER result outside 32 bits *)
| numeric_field_overflow.                (* a value too large for its NUMERIC(15,2) column *)

(** The error kinds of the specification. *)
Inductive error_kind : Type := InvalidArgument | NotFound | EngineError.

Definition kind_of (e : exn) : error_kind :=
  match e with
  | company_id_null | period_bound_null
  | period_start_after_end | source_run_id_null_or_empty => InvalidArgument
  | account_not_found _ | company_does_not_exist _ => NotFound
  | foreign_key_violation _ | grouping_error _
  | foreach_expression_null | integer_out_of_range
  | numeric_field_overflow => EngineError
  end.

Inductive res (A : Type) : Type :=
| Ok (a : A)
| Raise (e : exn).
Arguments Ok {A} a.
Arguments Raise {A} e.

Definition M (A : Type) : Type := db -> res A * db.

Definition ret {A} (a : A) : M A := fun s => (Ok a, s).
Definition raise {A} (e : exn) : M A := fun s => (Raise e, s).
Definition bind {A B} (m : M A) (k : A -> M B) : M B :=
  fun s => match m s with
           | (Ok a, s') => k a s'
           | (Raise e, s') => (Raise e, s')
           end.
Definition get : M db := fun s => (Ok s, s).
Definition put (s' : db) : M unit := fun _ => (Ok tt, s').

Notation "x <- m ;; k" := (bind m (fun x => k))
  (at level 61, m at next level, right associativity).
Notation "m ;;; k" := (bind m (fun _ => k))
  (at level 61, right associativity).

Definition when_raise (b : bool) (e : exn) : M unit :=
  if b then raise e else ret tt.

(** [a = b] between a nullable and a non-null [UUID]: [NULL] equals
    nothing. *)
Definition ref_eqb (a : option uuid) (b : uuid) : bool :=
  match a with
  | Some x => N.eqb x b
  | None => false
  end.

(** ** Account mapping ([20250101000006_account_mapping_function.sql]) *)

Module Mapping.

(** The two variables the loops of [fn_map_account_to_category] update. *)
Record best : Type := mkBest {
  v_best_category_id : option uuid;
  v_best_score : Z
}.

Definition best_init : best := mkBest None 0.

(** Lines 38-46: the [FOREACH] of the exact pass; it leaves at the first
    example that equals the name up to case. *)
Fixpoint exact_foreach (v_account_name : text) (id : uuid)
    (examples : list text) (b : best) : best :=
  match examples with
  | [] => b
  | v_example :: rest =>
      if String.eqb (LOWER v_account_name) (LOWER v_example)
      then mkBest (Some id) 100
      else exact_foreach v_account_name id rest b
  end.

(** Lines 34-49: the loop over the catalog, left as soon as the score is
    100. *)
Fixpoint exact_loop (v_account_name : text) (cats : list category)
    (b : best) : best :=
  match cats with
  | [] => b
  | c :: rest =>
      let b' := exact_foreach v_account_name (cat_id c) (source_examples c) b in
      if v_best_score b' =? 100 then b'
      else exact_loop v_account_name rest b'
  end.

(** Lines 59-70: [v_match_score] over the examples of one category. *)
Fixpoint fuzzy_foreach (v_account_name : text) (examples : list text)
    (v_match_score : Z) : Z :=
  match examples with
  | [] => v_match_score
  | v_example :: rest =>
      let s1 :=
        if LIKE (LOWER v_account_name) (wrap (LOWER v_example))
        then Z.max v_match_score 80 else v_match_score in
      let s2 :=
        if LIKE (LOWER v_example) (wrap (LOWER v_account_name))
        then Z.max s1 70 else s1 in
      fuzzy_foreach v_account_name rest s2
  end.

(** Lines 53-77. *)
Fixpoint fuzzy_loop (v_account_name : text) (cats : list category)
    (b : best) : best :=
  match cats with
  | [] => b
  | c :: rest =>
      let v_match_score := fuzzy_foreach v_account_name (source_examples c) 0 in
      fuzzy_loop v_account_name rest
        (if v_match_score >? v_best_score b
         then mkBest (Some (cat_id c)) v_match_score
         else b)
  end.

(** Lines 83-126: the canonical type the [CASE] selects for an account
    type. *)
Definition fallback_canonical_type (v_account_type : text) : text :=
  if text_in v_account_type ["Income"; "Other Income"]%string
  then "revenue"%string
  else if text_in v_account_type ["Cost of Goods Sold"]%string
  then "cogs"%string
  else if text_in v_account_type ["Expense"; "Other Expense"]%string
  then "opex"%string
  else if text_in v_account_type
       ["Bank"; "Other Current Asset"; "Fixed Asset"; "Other Asset";
        "Accounts Receivable"]%string
  then "asset"%string
  else if text_in v_account_type
       ["Accounts Payable"; "Credit Card"; "Other Current Liability";
        "Long Term Liability"]%string
  then "liability"%string
  else if text_in v_account_type ["Equity"]%string
  then "equity"%string
  else "opex"%string.

(** [SELECT id INTO ... FROM categories WHERE canonical_type = ty LIMIT 1];
    no row leaves the target [NULL]. *)
Definition first_of_type (cats : list category) (ty : text) : option uuid :=
  option_map cat_id (find (fun c => String.eqb (canonical_type c) ty) cats).

(** Lines 33-127: the category chosen for a name and a type. *)
Definition resolve (cats : list category) (v_account_name v_account_type : text)
  : option uuid :=
  let b0 := exact_loop v_account_name cats best_init in
  let b1 := if v_best_score b0 <? 100
            then fuzzy_loop v_account_name cats b0 else b0 in
  if v_best_score b1 <? 50
  then first_of_type cats (fallback_canonical_type v_account_type)
  else v_best_category_id b1.

(** [SELECT ... FROM accounts WHERE id = p_account_id]; a [NULL] id
    equals no row. *)
Definition find_account (accs : list account) (p_account_id : option uuid)
  : option account :=
  find (fun a => ref_eqb p_account_id (acc_id a)) accs.

(** [SET mapping_category_id = v] on one row. *)
Definition with_mapping (a : account) (v : option uuid) : account :=
  mkAccount (acc_id a) (acc_company_id a) (qbo_account_id a)
            (acc_name a) (acc_type a) (sub_type a) v.

(** [UPDATE accounts SET mapping_category_id = v WHERE id = p_account_id] *)
Definition update_mapping (accs : list account) (p_account_id : option uuid)
    (v : option uuid) : list account :=
  map (fun a => if ref_eqb p_account_id (acc_id a)
                then with_mapping a v else a) accs.

Definition set_accounts (s : db) (accs : list account) : db :=
  mkDb (companies s) (categories s) accs (raw_transactions s)
       (monthly_pl s) (monthly_cash_flow s) (projections_12m s).

Definition fn_map_account_to_category (p_account_id : option uuid)
  : M (option uuid) :=
  s <- get ;;
  match find_account (accounts s) p_account_id with
  | None => raise (account_not_found p_account_id)
  | Some a =>
      let v_best_category_id :=
        resolve (categories s) (acc_name a) (acc_type a) in
      put (set_accounts s
             (update_mapping (accounts s) p_account_id v_best_category_id)) ;;;
      ret v_best_category_id
  end.

(** A row of the table [fn_map_company_accounts] returns. *)
Record mapping_row : Type := mkMappingRow {
  r_account_id : uuid;
  r_account_name : text;
  r_category_id : option uuid;
  r_category_name : text;
  r_mapping_method : text
}.

(** Lines 176-187: [RETURN QUERY SELECT ... FROM categories c
    WHERE c.id = v_mapped_category_id]. *)
Definition return_query (cats : list category) (v_account_record : account)
    (v_mapped_category_id : option uuid) : list mapping_row :=
  map (fun c =>
         mkMappingRow (acc_id v_account_record) (acc_name v_account_record)
           v_mapped_category_id (cat_name c)
           (match mapping_category_id v_account_record with
            | Some _ => "already_mapped"%string
            | None => "auto_mapped"%string
            end))
      (filter (fun c => ref_eqb v_mapped_category_id (cat_id c)) cats).

(** Lines 166-188: the loop over the rows the query of line 167 returned
    when the loop was entered. *)
Fixpoint map_loop (recs : list account) : M (list mapping_row) :=
  match recs with
  | [] => ret []
  | v_account_record :: rest =>
      v_mapped_category_id <-
        fn_map_account_to_category (Some (acc_id v_account_record)) ;;
      s <- get ;;
      let out := return_query (categories s) v_account_record
                   v_mapped_category_id in
      more <- map_loop rest ;;
      ret (out ++ more)
  end.

Definition company_accounts (s : db) (p_company_id : option uuid)
  : list account :=
  filter (fun a => ref_eqb p_company_id (acc_company_id a)) (accounts s).

Definition fn_map_company_accounts (p_company_id : option uuid)
  : M (list mapping_row) :=
  s <- get ;;
  map_loop (company_accounts s p_company_id).

End Mapping.

(** ** Monthly aggregation
    ([20250101000004_monthly_aggregation_functions.sql]) *)

Module Aggregation.

(** [COALESCE(SUM(x), 0)] *)
Definition SUM (xs : list numeric) : numeric := fold_right Qplus 0%Q xs.

(** The validated parameters. *)
Record params : Type := mkParams {
  company_id : uuid;
  p_start : date;
  p_end : date;
  run_id : text
}.

(** Lines 28-43 and 139-153: the four checks, in the order of the
    source. *)
Definition validate (p_company_id : option uuid)
    (p_period_start p_period_end : option date)
    (p_source_run_id : option text) : M params :=
  match p_company_id with
  | None => raise company_id_null
  | Some c =>
      match p_period_start, p_period_end with
      | Some ps, Some pe =>
          if Date.ltb pe ps then raise period_start_after_end
          else
            match p_source_run_id with
            | None => raise source_run_id_null_or_empty
            | Some r =>
                if String.eqb r ""%string
                then raise source_run_id_null_or_empty
                else ret (mkParams c ps pe r)
            end
      | _, _ => raise period_bound_null
      end
  end.

(** [rt.company_id = p_company_id AND rt.date >= p_period_start
     AND rt.date <= p_period_end] *)
Definition in_period (p : params) (rt : raw_transaction) : bool :=
  N.eqb (txn_company_id rt) (company_id p)
  && Date.leb (p_start p) (txn_date rt)
  && Date.leb (txn_date rt) (p_end p).

(** [raw_transactions rt JOIN accounts acc ON rt.account_id = acc.id
     JOIN categories cat ON acc.mapping_category_id = cat.id] *)
Definition pl_join (s : db) : list (raw_transaction * account * category) :=
  flat_map (fun rt =>
    flat_map (fun acc =>
      map (fun cat => (rt, acc, cat))
          (filter (fun cat => ref_eqb (mapping_category_id acc) (cat_id cat))
                  (categories s)))
      (filter (fun acc => ref_eqb (txn_account_id rt) (acc_id acc))
              (accounts s)))
    (raw_transactions s).

(** Lines 47-54, 57-64 and 67-74: one of the three sums of
    [fn_generate_monthly_pl]. *)
Definition pl_sum (s : db) (p : params) (ty : text) : numeric :=
  SUM (map (fun j => amount (fst (fst j)))
           (filter (fun j => in_period p (fst (fst j))
                             && String.eqb (canonical_type (snd j)) ty)
                   (pl_join s))).

Definition pl_totals_of (s : db) (p : params) : pl_totals :=
  mkPlTotals (Some (pl_sum s p "revenue"%string))
             (Some (pl_sum s p "cogs"%string))
             (Some (pl_sum s p "opex"%string)).

(** [raw_transactions rt JOIN accounts acc ON rt.account_id = acc.id] *)
Definition cf_join (s : db) : list (raw_transaction * account) :=
  flat_map (fun rt =>
    map (fun acc => (rt, acc))
        (filter (fun acc => ref_eqb (txn_account_id rt) (acc_id acc))
                (accounts s)))
    (raw_transactions s).

(** Lines 157-163, 166-172 and 175-181. *)
Definition cf_sum (s : db) (p : params) (types : list text) : numeric :=
  SUM (map (fun j => amount (fst j))
           (filter (fun j => in_period p (fst j)
                             && text_in (acc_type (snd j)) types)
                   (cf_join s))).

Definition operating_types : list text :=
  ["Income"; "Expense"; "Other Income"; "Other Expense";
   "Cost of Goods Sold"]%string.
Definition investing_types : list text :=
  ["Fixed Asset"; "Other Asset"]%string.
Definition financing_types : list text :=
  ["Long Term Liability"; "Equity"]%string.

Definition cf_totals_of (s : db) (p : params) : cf_totals :=
  mkCfTotals (cf_sum s p operating_types)
             (cf_sum s p investing_types)
             (cf_sum s p financing_types).

Section Upsert.
Variable T : Type.

(** The arbiter of [ON CONFLICT (company_id, period_start)]. *)
Definition same_key (c : uuid) (ps : date) (r : monthly T) : bool :=
  N.eqb (m_company_id r) c && Date.eqb (period_start r) ps.

(** The [DO UPDATE SET] of lines 102-107 and 209-214. *)
Definition do_update (pe : date) (tot : T) (now : timestamptz) (run : text)
    (r : monthly T) : monthly T :=
  mkMonthly (m_id r) (m_company_id r) (period_start r)
            pe tot (row_version r + 1) now run.

(** [INSERT ... ON CONFLICT (company_id, period_start) DO UPDATE ...
     RETURNING id]: the table after the statement and the returned id;
    [None] when the row would be inserted for a company that is not in
    [companies]. *)
Definition upsert (comps : list uuid) (tbl : list (monthly T))
    (new_id : uuid) (p : params) (tot : T) (now : timestamptz)
  : option (list (monthly T) * uuid) :=
  match find (same_key (company_id p) (p_start p)) tbl with
  | Some r0 =>
      Some (map (fun r => if same_key (company_id p) (p_start p) r
                          then do_update (p_end p) tot now (run_id p) r
                          else r) tbl,
            m_id r0)
  | None =>
      if existsb (N.eqb (company_id p)) comps
      then Some (tbl ++ [mkMonthly new_id (company_id p) (p_start p) (p_end p)
                                   tot 1 now (run_id p)],
                 new_id)
      else None
  end.

End Upsert.

Definition set_monthly_pl (s : db) (t : list (monthly pl_totals)) : db :=
  mkDb (companies s) (categories s) (accounts s) (raw_transactions s)
       t (monthly_cash_flow s) (projections_12m s).

Definition set_monthly_cash_flow (s : db) (t : list (monthly cf_totals)) : db :=
  mkDb (companies s) (categories s) (accounts s) (raw_transactions s)
       (monthly_pl s) t (projections_12m s).

Section Env.
(** [NOW()] and the id a new row would get. *)
Variable now : timestamptz.
Variable new_id : uuid.

Definition fn_generate_monthly_pl (p_company_id : option uuid)
    (p_period_start p_period_end : option date)
    (p_source_run_id : option text) : M uuid :=
  p <- validate p_company_id p_period_start p_period_end p_source_run_id ;;
  s <- get ;;
  let v_totals := pl_totals_of s p in
  match upsert (companies s) (monthly_pl s) new_id p v_totals now with
  | None => raise (foreign_key_violation "monthly_pl"%string)
  | Some (t, v_row_id) => put (set_monthly_pl s t) ;;; ret v_row_id
  end.

Definition fn_generate_monthly_cash_flow (p_company_id : option uuid)
    (p_period_start p_period_end : option date)
    (p_source_run_id : option text) : M uuid :=
  p <- validate p_company_id p_period_start p_period_end p_source_run_id ;;
  s <- get ;;
  let v_totals := cf_totals_of s p in
  match upsert (companies s) (monthly_cash_flow s) new_id p v_totals now with
  | None => raise (foreign_key_violation "monthly_cash_flow"%string)
  | Some (t, v_row_id) => put (set_monthly_cash_flow s t) ;;; ret v_row_id
  end.

End Env.

End Aggregation.

(** ** Projection ([20250101000005_projection_function.sql]) *)

Module Projection.

Definition COALESCE0 (x : option numeric) : numeric :=
  match x with
  | Some v => v
  | None => 0%Q
  end.

Definition non_null (xs : list (option numeric)) : list numeric :=
  flat_map (fun x => match x with Some v => [v] | None => [] end) xs.

(** [AVG(x)]: the mean of the non-null inputs, [NULL] when there is
    none. *)
Definition AVG (xs : list (option numeric)) : option numeric :=
  match non_null xs with
  | [] => None
  | v :: vs =>
      Some (Aggregation.SUM (v :: vs) / inject_Z (Z.of_nat (List.length (v :: vs))))%Q
  end.

(** [ROUND(x, d)]: to [d] decimal places, ties away from zero. *)
Definition ROUND (x : numeric) (d : nat) : numeric :=
  let scale := Nat.iter d (Pos.mul 10) 1%positive in
  Qmake (Z.sgn (Qnum x) * Qfloor (Qabs x * inject_Z (Z.pos scale) + (1 # 2))%Q)
        scale.

(** [POWER(b, n)] of a [NUMERIC] and an [INTEGER], which is the power of
    two [NUMERIC]s.  PostgreSQL returns it with sixteen significant
    digits when the base has no more decimals than that: for a result of
    one digit before the point, as every power of 1.02 the function
    takes (exponents 1 to 12) is, that is the power rounded to sixteen
    decimals. *)
Definition POWER (b : numeric) (n : Z) : numeric := ROUND (Qpower b n) 16.

(** The three targets of the [SELECT ... INTO] of lines 46-59. *)
Record history : Type := mkHistory {
  v_avg_revenue : option numeric;
  v_avg_costs : option numeric;
  v_historical_months : Z
}.

(** Lines 55-57: the [WHERE] clause.  A date compared with
    [CURRENT_DATE - INTERVAL '6 months'] is compared at midnight. *)
Definition in_history_window (today : date) (c : uuid)
    (r : monthly pl_totals) : bool :=
  N.eqb (m_company_id r) c
  && Date.leb (add_months today (-6)) (period_start r)
  && Date.ltb (period_start r) today.

(** Lines 47-52: the select list, over the rows it aggregates. *)
Definition aggregates (rows : list (monthly pl_totals)) : history :=
  mkHistory
    (AVG (map (fun r => revenue (totals_by_account_type r)) rows))
    (AVG (map (fun r => Some (COALESCE0 (cogs (totals_by_account_type r))
                              + COALESCE0 (opex (totals_by_account_type r)))%Q)
              rows))
    (Z.of_nat (List.length rows)).

(** A [SELECT] whose select list consists of aggregates and that has no
    [GROUP BY]: its [WHERE] clause, the column its [ORDER BY] names, if
    any, and its [LIMIT]. *)
Record aggregate_select : Type := mkSelect {
  sel_where : monthly pl_totals -> bool;
  sel_order_by : option text;
  sel_limit : positive
}.

(** What PostgreSQL does with such a statement.  Without [GROUP BY] all
    rows that pass [WHERE] form one group and the result is one row, which
    any [LIMIT] of at least 1 keeps.  [ORDER BY] is evaluated on that
    result row like a select-list entry, so it may not name a column of
    the table outside an aggregate: the statement is then rejected when
    it is analysed, before any row is read. *)
Definition run_select (q : aggregate_select) (tbl : list (monthly pl_totals))
  : res history :=
  match sel_order_by q with
  | Some col => Raise (grouping_error col)
  | None => Ok (aggregates (filter (sel_where q) tbl))
  end.

(** Lines 46-59, as written. *)
Definition history_select (today : date) (c : uuid) : aggregate_select :=
  mkSelect (in_history_window today c) (Some "period_start"%string) 6.

Definition v_growth_rate : numeric := 1.02%Q.

Section Env.
(** [CURRENT_DATE], [NOW()], and the id a row inserted at an offset would
    get. *)
Variable today : date.
Variable now : timestamptz.
Variable new_id : Z -> uuid.

(** Line 80: [DATE_TRUNC('month', CURRENT_DATE) +
    (v_month_offset || ' months')::INTERVAL] *)
Definition v_projection_month (v_month_offset : Z) : date :=
  add_months (trunc_month today) v_month_offset.

(** Lines 95-110: the [VALUES] row of one offset. *)
Definition values_row (c : uuid) (avg_revenue avg_costs : numeric)
    (months : Z) (v_month_offset : Z) : projection :=
  mkProjection (new_id v_month_offset) c today
    (v_projection_month v_month_offset)
    (ROUND (avg_revenue * POWER v_growth_rate v_month_offset)%Q 2)
    (ROUND (avg_costs * POWER v_growth_rate v_month_offset)%Q 2)
    (mkAssumptions "moving_average_6m"%string v_growth_rate
       (ROUND (POWER v_growth_rate 12) 4)
       (ROUND avg_revenue 2) (ROUND avg_costs 2)
       months v_month_offset now).

(** The arbiter of [ON CONFLICT (company_id, snapshot_date, month)]. *)
Definition same_key (x r : projection) : bool :=
  N.eqb (p_company_id r) (p_company_id x)
  && Date.eqb (snapshot_date r) (snapshot_date x)
  && Date.eqb (p_month r) (p_month x).

(** Lines 88-116.  The company of the row is in [companies] (line 40). *)
Definition upsert (tbl : list projection) (x : projection) : list projection :=
  if existsb (same_key x) tbl
  then map (fun r => if same_key x r
                     then mkProjection (p_id r) (p_company_id r)
                            (snapshot_date r) (p_month r)
                            (revenue_projection x) (cost_projection x)
                            (p_assumptions x)
                     else r) tbl
  else tbl ++ [x].

Definition set_projections (s : db) (t : list projection) : db :=
  mkDb (companies s) (categories s) (accounts s) (raw_transactions s)
       (monthly_pl s) (monthly_cash_flow s) t.

(** Lines 78-119: the body of the [FOR] loop, over the offsets left. *)
Fixpoint for_loop (c : uuid) (avg_revenue avg_costs : numeric) (months : Z)
    (offsets : list Z) (v_inserted_count : Z) : M Z :=
  match offsets with
  | [] => ret v_inserted_count
  | v_month_offset :: rest =>
      s <- get ;;
      put (set_projections s
             (upsert (projections_12m s)
                (values_row c avg_revenue avg_costs months v_month_offset))) ;;;
      for_loop c avg_revenue avg_costs months rest (v_inserted_count + 1)
  end.

(** [1..12] *)
Definition offsets_1_12 : list Z := map Z.of_nat (seq 1 12).

(** Lines 61-125: what the function does with the three values the
    [SELECT ... INTO] delivered. *)
Definition project (c : uuid) (h : history) : M Z :=
  if v_historical_months h =? 0 then ret 0
  else
    let avg_revenue := COALESCE0 (v_avg_revenue h) in
    let avg_costs := COALESCE0 (v_avg_costs h) in
    for_loop c avg_revenue avg_costs (v_historical_months h) offsets_1_12 0.

Definition fn_generate_projection (p_company_id : option uuid) : M Z :=
  match p_company_id with
  | None => raise company_id_null
  | Some c =>
      s <- get ;;
      when_raise (negb (existsb (N.eqb c) (companies s)))
                 (company_does_not_exist c) ;;;
      match run_select (history_select today c) (monthly_pl s) with
      | Raise e => raise e
      | Ok h => project c h
      end
  end.

End Env.

End Projection.

(** ** The checks of the engine on what is stored

    [Mapping], [Aggregation] and [Projection] read the tables as
    well-typed values: every [source_examples] is an array, a
    [row_version] plus one is a [row_version], a projected amount is a
    [NUMERIC(15,2)].  The schema does not promise the first and the
    types bound the other two; the engine raises where they fail.  This
    module has the same functions with these checks, on the catalog as
    it is stored. *)

Module Stored.
Import Mapping.

(** *** The catalog with its nullable array *)

(** A row of [categories]: [source_examples TEXT[]] has a default and no
    [NOT NULL], so the array can be [NULL], and so can an element of
    it. *)
Record category_row : Type := mkRow {
  row_id : uuid;
  row_name : text;
  row_canonical_type : text;
  row_source_examples : option (list (option text))
}.

(** The non-null elements of an array. *)
Definition elements (xs : list (option text)) : list text :=
  flat_map (fun x => match x with Some v => [v] | None => [] end) xs.

(** A row whose array is not [NULL], as [Mapping] reads it. *)
Definition read_row (r : category_row) : option category :=
  option_map (fun xs => mkCategory (row_id r) (row_name r)
                          (row_canonical_type r) (elements xs))
             (row_source_examples r).

(** The catalog as [Mapping] reads it; [None] when a row has a [NULL]
    array. *)
Fixpoint read (rows : list category_row) : option (list category) :=
  match rows with
  | [] => Some []
  | r :: rest =>
      match read_row r, read rest with
      | Some c, Some cs => Some (c :: cs)
      | _, _ => None
      end
  end.

(** The row a category is stored as. *)
Definition stored (c : category) : category_row :=
  mkRow (cat_id c) (cat_name c) (canonical_type c)
        (Some (map Some (source_examples c))).

(** Lines 38-46 on the elements of an array.  With a [NULL] element the
    comparison is [NULL] and the [IF] is not taken. *)
Fixpoint exact_foreach (v_account_name : text) (id : uuid)
    (examples : list (option text)) (b : best) : best :=
  match examples with
  | [] => b
  | None :: rest => exact_foreach v_account_name id rest b
  | Some v_example :: rest =>
      if String.eqb (LOWER v_account_name) (LOWER v_example)
      then mkBest (Some id) 100
      else exact_foreach v_account_name id rest b
  end.

(** Lines 34-49.  [FOREACH ... IN ARRAY] of a [NULL] array raises. *)
Fixpoint exact_loop (v_account_name : text) (rows : list category_row)
    (b : best) : res best :=
  match rows with
  | [] => Ok b
  | c :: rest =>
      match row_source_examples c with
      | None => Raise foreach_expression_null
      | Some examples =>
          let b' := exact_foreach v_account_name (row_id c) examples b in
          if v_best_score b' =? 100 then Ok b'
          else exact_loop v_account_name rest b'
      end
  end.

(** Lines 59-70; both patterns are [NULL] for a [NULL] element. *)
Fixpoint fuzzy_foreach (v_account_name : text)
    (examples : list (option text)) (v_match_score : Z) : Z :=
  match examples with
  | [] => v_match_score
  | None :: rest => fuzzy_foreach v_account_name rest v_match_score
  | Some v_example :: rest =>
      let s1 :=
        if LIKE (LOWER v_account_name) (wrap (LOWER v_example))
        then Z.max v_match_score 80 else v_match_score in
      let s2 :=
        if LIKE (LOWER v_example) (wrap (LOWER v_account_name))
        then Z.max s1 70 else s1 in
      fuzzy_foreach v_account_name rest s2
  end.

(** Lines 53-77. *)
Fixpoint fuzzy_loop (v_account_name : text) (rows : list category_row)
    (b : best) : res best :=
  match rows with
  | [] => Ok b
  | c :: rest =>
      match row_source_examples c with
      | None => Raise foreach_expression_null
      | Some examples =>
          let v_match_score := fuzzy_foreach v_account_name examples 0 in
          fuzzy_loop v_account_name rest
            (if v_match_score >? v_best_score b
             then mkBest (Some (row_id c)) v_match_score
             else b)
      end
  end.

Definition first_of_type (rows : list category_row) (ty : text)
  : option uuid :=
  option_map row_id
    (find (fun c => String.eqb (row_canonical_type c) ty) rows).

(** Lines 33-127. *)
Definition resolve (rows : list category_row)
    (v_account_name v_account_type : text) : res (option uuid) :=
  match exact_loop v_account_name rows best_init with
  | Raise e => Raise e
  | Ok b0 =>
      match (if v_best_score b0 <? 100
             then fuzzy_loop v_account_name rows b0 else Ok b0) with
      | Raise e => Raise e
      | Ok b1 =>
          Ok (if v_best_score b1 <? 50
              then first_of_type rows
                     (fallback_canonical_type v_account_type)
              else v_best_category_id b1)
      end
  end.

(** The functions of the mapping migration read [categories] and write
    [accounts] only: they take the stored rows of the catalog beside the
    database, whose [categories] they do not look at. *)
Definition fn_map_account_to_category (rows : list category_row)
    (p_account_id : option uuid) : M (option uuid) :=
  s <- get ;;
  match find_account (accounts s) p_account_id with
  | None => raise (account_not_found p_account_id)
  | Some a =>
      match resolve rows (acc_name a) (acc_type a) with
      | Raise e => raise e
      | Ok v_best_category_id =>
          put (set_accounts s
                 (update_mapping (accounts s) p_account_id
                    v_best_category_id)) ;;;
          ret v_best_category_id
      end
  end.

(** Lines 176-187. *)
Definition return_query (rows : list category_row)
    (v_account_record : account) (v_mapped_category_id : option uuid)
  : list mapping_row :=
  map (fun c =>
         mkMappingRow (acc_id v_account_record) (acc_name v_account_record)
           v_mapped_category_id (row_name c)
           (match mapping_category_id v_account_record with
            | Some _ => "already_mapped"%string
            | None => "auto_mapped"%string
            end))
      (filter (fun c => ref_eqb v_mapped_category_id (row_id c)) rows).

(** Lines 166-188. *)
Fixpoint map_loop (rows : list category_row) (recs : list account)
  : M (list mapping_row) :=
  match recs with
  | [] => ret []
  | v_account_record :: rest =>
      v_mapped_category_id <-
        fn_map_account_to_category rows (Some (acc_id v_account_record)) ;;
      let out := return_query rows v_account_record v_mapped_category_id in
      more <- map_loop rows rest ;;
      ret (out ++ more)
  end.

Definition fn_map_company_accounts (rows : list category_row)
    (p_company_id : option uuid) : M (list mapping_row) :=
  s <- get ;;
  map_loop rows (company_accounts s p_company_id).

(** *** [row_version INTEGER] *)

Definition integer_in_range (z : Z) : bool :=
  (-2147483648 <=? z) && (z <=? 2147483647).

Section Upsert.
Variable T : Type.
(** The table of the statement, for the error. *)
Variable table_name : text.

(** [INSERT ... ON CONFLICT (company_id, period_start) DO UPDATE ...
     RETURNING id].  [row_version + 1] is an addition of [INTEGER]s: it
    raises when the sum is not one, and then nothing is written. *)
Definition upsert (comps : list uuid) (tbl : list (monthly T))
    (new_id : uuid) (p : Aggregation.params) (tot : T) (now : timestamptz)
  : res (list (monthly T) * uuid) :=
  match find (Aggregation.same_key (Aggregation.company_id p)
                (Aggregation.p_start p)) tbl with
  | Some r0 =>
      if integer_in_range (row_version r0 + 1)
      then Ok (map (fun r =>
                      if Aggregation.same_key (Aggregation.company_id p)
                           (Aggregation.p_start p) r
                      then Aggregation.do_update (Aggregation.p_end p) tot
                             now (Aggregation.run_id p) r
                      else r) tbl,
               m_id r0)
      else Raise integer_out_of_range
  | None =>
      if existsb (N.eqb (Aggregation.company_id p)) comps
      then Ok (tbl ++ [mkMonthly new_id (Aggregation.company_id p)
                         (Aggregation.p_start p) (Aggregation.p_end p)
                         tot 1 now (Aggregation.run_id p)],
               new_id)
      else Raise (foreign_key_violation table_name)
  end.

End Upsert.

Section AggregationEnv.
Variable now : timestamptz.
Variable new_id : uuid.

Definition fn_generate_monthly_pl (p_company_id : option uuid)
    (p_period_start p_period_end : option date)
    (p_source_run_id : option text) : M uuid :=
  p <- Aggregation.validate p_company_id p_period_start p_period_end
         p_source_run_id ;;
  s <- get ;;
  let v_totals := Aggregation.pl_totals_of s p in
  match upsert "monthly_pl" (companies s) (monthly_pl s) new_id p v_totals
          now with
  | Raise e => raise e
  | Ok (t, v_row_id) => put (Aggregation.set_monthly_pl s t) ;;; ret v_row_id
  end.

Definition fn_generate_monthly_cash_flow (p_company_id : option uuid)
    (p_period_start p_period_end : option date)
    (p_source_run_id : option text) : M uuid :=
  p <- Aggregation.validate p_company_id p_period_start p_period_end
         p_source_run_id ;;
  s <- get ;;
  let v_totals := Aggregation.cf_totals_of s p in
  match upsert "monthly_cash_flow" (companies s) (monthly_cash_flow s)
          new_id p v_totals now with
  | Raise e => raise e
  | Ok (t, v_row_id) =>
      put (Aggregation.set_monthly_cash_flow s t) ;;; ret v_row_id
  end.

End AggregationEnv.

(** *** [revenue_projection] and [cost_projection NUMERIC(15,2)] *)

(** A value with two decimals can be stored in a [NUMERIC(15,2)] column
    when it has at most thirteen digits before the point. *)
Definition fits_numeric_15_2 (x : numeric) : bool :=
  Qle_bool (Qabs x) 9999999999999.99.

Section ProjectionEnv.
Variable today : date.
Variable now : timestamptz.
Variable new_id : Z -> uuid.

(** Lines 78-119.  The two amounts are converted to the type of their
    column before the row is written, and a new row of a company that is
    not in [companies] is refused. *)
Fixpoint for_loop (c : uuid) (avg_revenue avg_costs : numeric) (months : Z)
    (offsets : list Z) (v_inserted_count : Z) : M Z :=
  match offsets with
  | [] => ret v_inserted_count
  | v_month_offset :: rest =>
      let x := Projection.values_row today now new_id c avg_revenue
                 avg_costs months v_month_offset in
      s <- get ;;
      when_raise (negb (fits_numeric_15_2 (revenue_projection x)
                        && fits_numeric_15_2 (cost_projection x)))
                 numeric_field_overflow ;;;
      when_raise (negb (existsb (Projection.same_key x) (projections_12m s))
                  && negb (existsb (N.eqb c) (companies s)))
                 (foreign_key_violation "projections_12m") ;;;
      put (Projection.set_projections s
             (Projection.upsert (projections_12m s) x)) ;;;
      for_loop c avg_revenue avg_costs months rest (v_inserted_count + 1)
  end.

(** Lines 61-125. *)
Definition project (c : uuid) (h : Projection.history) : M Z :=
  if Projection.v_historical_months h =? 0 then ret 0
  else
    let avg_revenue := Projection.COALESCE0 (Projection.v_avg_revenue h) in
    let avg_costs := Projection.COALESCE0 (Projection.v_avg_costs h) in
    for_loop c avg_revenue avg_costs (Projection.v_historical_months h)
      Projection.offsets_1_12 0.

End ProjectionEnv.

End Stored.

(** ** Manual override and unmapped accounts
    ([20250101000006_account_mapping_function.sql], lines 199-252) *)

Module Override.
Import Mapping.

(** What [fn_set_account_mapping] can raise. *)
Inductive override_exn : Type :=
| category_does_not_exist (id : option uuid) (* 'Category with id % does not exist' *)
| raised (e : exn).

(** [EXISTS(SELECT 1 FROM categories WHERE id = p_category_id)] *)
Definition category_exists (cats : list category)
    (p_category_id : option uuid) : bool :=
  existsb (fun c => ref_eqb p_category_id (cat_id c)) cats.

(** [FOUND] after the [UPDATE]: some row had the id. *)
Definition account_found (accs : list account) (p_account_id : option uuid)
  : bool :=
  existsb (fun a => ref_eqb p_account_id (acc_id a)) accs.

(** Lines 226-252.  The database of the result is the one reached when
    the function returned or raised. *)
Definition fn_set_account_mapping (p_account_id p_category_id : option uuid)
    (s : db) : (override_exn + bool) * db :=
  if negb (category_exists (categories s) p_category_id)
  then (inl (category_does_not_exist p_category_id), s)
  else
    let s' := set_accounts s
                (update_mapping (accounts s) p_account_id p_category_id) in
    if negb (account_found (accounts s) p_account_id)
    then (inl (raised (account_not_found p_account_id)), s')
    else (inr true, s').

(** A row of the table [fn_get_unmapped_accounts] returns. *)
Record unmapped_row : Type := mkUnmapped {
  u_account_id : uuid;
  u_account_name : text;
  u_account_type : text;
  u_account_subtype : option text
}.

Definition unmapped_row_of (a : account) : unmapped_row :=
  mkUnmapped (acc_id a) (acc_name a) (acc_type a) (sub_type a).

(** [a.company_id = p_company_id AND a.mapping_category_id IS NULL] *)
Definition is_unmapped (p_company_id : option uuid) (a : account) : bool :=
  ref_eqb p_company_id (acc_company_id a)
  && match mapping_category_id a with
     | None => true
     | Some _ => false
     end.

Section Collation.
(** The order of the collation of [accounts.name]:
    [name_leb x y] when [x] sorts before [y] or with it. *)
Variable name_leb : text -> text -> bool.

Fixpoint insert_by_name (a : account) (l : list account) : list account :=
  match l with
  | [] => [a]
  | b :: l' =>
      if name_leb (acc_name a) (acc_name b)
      then a :: l
      else b :: insert_by_name a l'
  end.

(** [ORDER BY a.name] *)
Definition order_by_name (l : list account) : list account :=
  fold_right insert_by_name [] l.

(** Lines 199-219. *)
Definition fn_get_unmapped_accounts (p_company_id : option uuid) (s : db)
  : list unmapped_row :=
  map unmapped_row_of
      (order_by_name (filter (is_unmapped p_company_id) (accounts s))).

End Collation.

End Override.

(** ** Seeding the catalog ([20250101000002_seed_categories.sql]) *)

Module Seed.

(** Lines 9-133: the rows of the [VALUES] list, in its order: name,
    canonical type and examples. *)
Definition seed_values : list (text * text * list text) :=
  map (fun c => (cat_name c, canonical_type c, source_examples c))
      seed_categories.

Definition value_name (v : text * text * list text) : text := fst (fst v).

(** The arbiter of [ON CONFLICT (name)]: the table has a row of the
    name. *)
Definition has_name (tbl : list category) (n : text) : bool :=
  existsb (fun c => String.eqb (cat_name c) n) tbl.

(** What the verification block raises:
    'Categories seed failed: expected 6 categories, found %'. *)
Inductive seed_exn : Type :=
| seed_failed (category_count : Z).

Definition set_categories (s : db) (t : list category) : db :=
  mkDb (companies s) t (accounts s) (raw_transactions s)
       (monthly_pl s) (monthly_cash_flow s) (projections_12m s).

Section Env.
(** The id [gen_random_uuid()] gives to the row inserted for a name. *)
Variable new_id : text -> uuid.

(** One row of the [INSERT ... ON CONFLICT (name) DO NOTHING]. *)
Definition insert_or_nothing (tbl : list category)
    (v : text * text * list text) : list category :=
  if has_name tbl (value_name v) then tbl
  else tbl ++ [mkCategory (new_id (value_name v)) (value_name v)
                          (snd (fst v)) (snd v)].

(** Lines 9-134. *)
Definition seed_insert (tbl : list category) : list category :=
  fold_left insert_or_nothing seed_values tbl.

(** Lines 141-152: the count it reports, or the exception. *)
Definition verification (tbl : list category) : seed_exn + Z :=
  let category_count := Z.of_nat (List.length tbl) in
  if category_count <? 6 then inl (seed_failed category_count)
  else inr category_count.

(** The migration: the insert, then the verification. *)
Definition seed_migration (s : db) : (seed_exn + Z) * db :=
  let t := seed_insert (categories s) in
  (verification t, set_categories s t).

End Env.

End Seed.

(** ** The analytics views
    ([20250101000000_initial_schema.sql], lines 171-281)

    A view is a function of the database to the rows it shows.  The
    columns read from [totals_by_account_type] are nullable; arithmetic
    on them gives [NULL] when an operand is [NULL]; a division by zero
    is an error of the query, and a quotient is exact, where PostgreSQL
    rounds it.  The rows of [monthly_cash_flow] hold their
    three totals, as the aggregation function writes them.  Rows come in
    the order of the table, and [json_agg] lists in the order of
    [raw_transactions]. *)

Module Views.






(** [x > 0] as a condition: [NULL] does not pass. *)
Definition positive (x : option numeric) : bool :=
  match x with
  | Some v => negb (Qle_bool v 0)
  | None => false
  end.

















End Views.

(** ** The data table of the dashboard
    ([src/components/charts/DonutChart.tsx], lines 75-250: the component
    [DataTable])

    The state of the component and its handlers.  A handler reads the
    state of the render it was created in and asks for the next one.
    Numbers are integers, divided exactly. *)

Module DataTable.

Record Column : Type := mkColumn {
  key : text;
  label : text;
  sortable : option bool          (* [sortable?: boolean] *)
}.

Inductive SortDirection : Type := asc | desc.

(** The three [useState] cells; [None] is [null]. *)
Record state : Type := mkState {
  sortColumn : option text;
  sortDirection : option SortDirection;
  currentPage : Z
}.

(** The state of the first render. *)
Definition initial : state := mkState None None 1.

(** [sortColumn === columnKey] *)
Definition is_column (c : option text) (columnKey : text) : bool :=
  match c with
  | Some k => String.eqb k columnKey
  | None => false
  end.

(** [!column?.sortable] is false: the column exists and its [sortable]
    is [true]. *)
Definition column_sortable (column : option Column) : bool :=
  match column with
  | Some col => match sortable col with
                | Some b => b
                | None => false
                end
  | None => false
  end.

(** [handleSort] *)
Definition handleSort (columns : list Column) (columnKey : text) (st : state)
  : state :=
  let column := find (fun col => String.eqb (key col) columnKey) columns in
  if negb (column_sortable column) then st
  else if is_column (sortColumn st) columnKey
  then match sortDirection st with
       | Some asc => mkState (sortColumn st) (Some desc) (currentPage st)
       | Some desc => mkState None None (currentPage st)
       | None => st
       end
  else mkState (Some columnKey) (Some asc) (currentPage st).

(** [Math.ceil(sortedData.length / pageSize)] *)
Definition totalPages (length : nat) (pageSize : Z) : Z :=
  Qceiling (inject_Z (Z.of_nat length) / inject_Z pageSize).

Definition startIndex (pageSize : Z) (st : state) : Z :=
  (currentPage st - 1) * pageSize.

(** An index of [Array.prototype.slice] brought into [0..len]: a
    negative one counts from the end. *)
Definition relative (len i : Z) : Z :=
  if i <? 0 then Z.max (len + i) 0 else Z.min i len.

(** [l.slice(b, e)] *)
Definition slice {A : Type} (l : list A) (b e : Z) : list A :=
  let len := Z.of_nat (List.length l) in
  let k := relative len b in
  let final := relative len e in
  firstn (Z.to_nat (final - k)) (skipn (Z.to_nat k) l).

(** [sortedData.slice(startIndex, startIndex + pageSize)] *)
Definition paginatedData {A : Type} (sortedData : list A) (pageSize : Z)
    (st : state) : list A :=
  slice sortedData (startIndex pageSize st) (startIndex pageSize st + pageSize).

(** [setCurrentPage((p) => Math.max(1, p - 1))] *)
Definition previous (st : state) : state :=
  mkState (sortColumn st) (sortDirection st) (Z.max 1 (currentPage st - 1)).

(** [setCurrentPage((p) => Math.min(totalPages, p + 1))] *)
Definition next (length : nat) (pageSize : Z) (st : state) : state :=
  mkState (sortColumn st) (sortDirection st)
          (Z.min (totalPages length pageSize) (currentPage st + 1)).

(** What the user can do to the table. *)
Inductive event : Type :=
| HeaderClick (column : Column)
| PreviousClick
| NextClick.

(** The handler of an event.  A header calls [handleSort] when its
    column is sortable (line 183); the two buttons are there when
    [totalPages > 1] (line 224). *)
Definition handle (columns : list Column) (length : nat) (pageSize : Z)
    (st : state) (ev : event) : state :=
  match ev with
  | HeaderClick column =>
      if column_sortable (Some column)
      then handleSort columns (key column) st else st
  | PreviousClick =>
      if 1 <? totalPages length pageSize then previous st else st
  | NextClick =>
      if 1 <? totalPages length pageSize then next length pageSize st else st
  end.

End DataTable.

(** ** The donut chart
    ([src/components/charts/DonutChart.tsx], lines 1-60) *)

Module DonutChart.

(** Line 41: [colors[index % colors.length]]; [None] is [undefined]. *)
Definition fill (colors : list text) (index : nat) : option text :=
  match colors with
  | [] => None
  | _ :: _ => nth_error colors (index mod List.length colors)
  end.

End DonutChart.

(** * Properties *)

Unset Implicit Arguments.

(** ** Validation of the aggregation functions *)

Module AggregationValidation.
Import Aggregation.

(** The argument lists the validation rejects: a missing company id, a
    missing period bound, a period that starts after it ends, a missing
    or empty run id. *)
Definition invalid_arguments (p_company_id : option uuid)
    (p_period_start p_period_end : option date)
    (p_source_run_id : option text) : Prop :=
  p_company_id = None
  \/ p_period_start = None
  \/ p_period_end = None
  \/ (exists a b, p_period_start = Some a /\ p_period_end = Some b
                  /\ Date.ltb b a = true)
  \/ p_source_run_id = None
  \/ p_source_run_id = Some ""%string.

Lemma validate_invalid :
  forall c ps pe r s,
    invalid_arguments c ps pe r ->
    exists e, kind_of e = InvalidArgument /\ validate c ps pe r s = (Raise e, s).
Proof.
  intros c ps pe r s H. unfold validate.
  destruct c as [c|]; [|eexists; split; [|reflexivity]; reflexivity].
  destruct ps as [a|]; [|eexists; split; [|destruct pe; reflexivity]; reflexivity].
  destruct pe as [b|]; [|eexists; split; [|reflexivity]; reflexivity].
  destruct (Date.ltb b a) eqn:Hlt; [eexists; split; [|reflexivity]; reflexivity|].
  destruct r as [r|]; [|eexists; split; [|reflexivity]; reflexivity].
  destruct (String.eqb r "") eqn:Hr; [eexists; split; [|reflexivity]; reflexivity|].
  exfalso.
  destruct H as [H|[H|[H|[H|[H|H]]]]]; try discriminate.
  - destruct H as (a' & b' & Ha & Hb & Hab).
    injection Ha as <-. injection Hb as <-. congruence.
  - injection H as ->. discriminate.
Qed.

(** C8.  Whenever the company id is absent, a period bound is absent, the
    period starts after it ends, or the run id is absent or empty,
    [fn_generate_monthly_pl] and [fn_generate_monthly_cash_flow] raise an
    error of kind [InvalidArgument], and the database they stop in is the
    one they were called in: nothing has been written. *)
Theorem invalid_arguments_rejected_unchanged :
  forall now new_id p_company_id p_period_start p_period_end p_source_run_id s,
    invalid_arguments p_company_id p_period_start p_period_end
                      p_source_run_id ->
    exists e,
      kind_of e = InvalidArgument
      /\ fn_generate_monthly_pl now new_id p_company_id p_period_start
           p_period_end p_source_run_id s = (Raise e, s)
      /\ fn_generate_monthly_cash_flow now new_id p_company_id p_period_start
           p_period_end p_source_run_id s = (Raise e, s).
Proof.
  intros now new_id c ps pe r s H.
  destruct (validate_invalid c ps pe r s H) as (e & Hk & Hv).
  exists e. split; [exact Hk|].
  unfold fn_generate_monthly_pl, fn_generate_monthly_cash_flow, bind.
  rewrite Hv. split; reflexivity.
Qed.

End AggregationValidation.

(** ** The account category resolver *)

Module MappingFacts.
Import Mapping.

(** The name equals one of the examples of the category, up to case. *)
Definition exact_matches (v_account_name : text) (c : category) : bool :=
  existsb (fun ex => String.eqb (LOWER v_account_name) (LOWER ex))
          (source_examples c).

Lemma exact_foreach_spec :
  forall name id exs b,
    exact_foreach name id exs b =
    if existsb (fun ex => String.eqb (LOWER name) (LOWER ex)) exs
    then mkBest (Some id) 100 else b.
Proof.
  intros name id exs b. induction exs as [|ex exs IH]; simpl.
  - reflexivity.
  - destruct (String.eqb (LOWER name) (LOWER ex)); simpl; [reflexivity|exact IH].
Qed.

Lemma exact_loop_spec :
  forall name cats b,
    v_best_score b <> 100 ->
    exact_loop name cats b =
    match find (exact_matches name) cats with
    | Some c => mkBest (Some (cat_id c)) 100
    | None => b
    end.
Proof.
  intros name cats b Hb. induction cats as [|c cats IH]; simpl.
  - reflexivity.
  - rewrite exact_foreach_spec. fold (exact_matches name c).
    destruct (exact_matches name c); simpl.
    + reflexivity.
    + destruct (v_best_score b =? 100) eqn:E.
      * apply Z.eqb_eq in E. contradiction.
      * exact IH.
Qed.

Lemma resolve_exact :
  forall cats name ty c,
    find (exact_matches name) cats = Some c ->
    resolve cats name ty = Some (cat_id c).
Proof.
  intros cats name ty c H. unfold resolve.
  rewrite exact_loop_spec by (simpl; lia).
  rewrite H. reflexivity.
Qed.




(** *** The [UPDATE] of the account *)

Lemma update_mapping_sets :
  forall accs p v a',
    In a' (update_mapping accs (Some p) v) -> acc_id a' = p ->
    mapping_category_id a' = v.
Proof.
  intros accs p v a' Hin Hid. unfold update_mapping in Hin.
  apply in_map_iff in Hin. destruct Hin as (a & Ha & _). subst a'.
  simpl in *. destruct (N.eqb p (acc_id a)) eqn:E.
  - reflexivity.
  - simpl in Hid. apply N.eqb_neq in E. congruence.
Qed.


Lemma find_account_update :
  forall accs p v q,
    find_account (update_mapping accs p v) q =
    option_map (fun a => if ref_eqb p (acc_id a) then with_mapping a v else a)
               (find_account accs q).
Proof.
  intros accs p v q. unfold find_account, update_mapping.
  induction accs as [|a accs IH]; simpl.
  - reflexivity.
  - assert (Hid : acc_id (if ref_eqb p (acc_id a) then with_mapping a v else a)
                  = acc_id a) by (destruct (ref_eqb p (acc_id a)); reflexivity).
    rewrite Hid. destruct (ref_eqb q (acc_id a)); simpl; [reflexivity|exact IH].
Qed.

Lemma find_account_id :
  forall accs p a, find_account accs (Some p) = Some a -> acc_id a = p.
Proof.
  intros accs p a H. unfold find_account in H. apply find_some in H.
  destruct H as [_ H]. simpl in H. apply N.eqb_eq in H. symmetry. exact H.
Qed.

Lemma fn_map_account_to_category_found :
  forall s p a,
    find_account (accounts s) p = Some a ->
    fn_map_account_to_category p s =
    (Ok (resolve (categories s) (acc_name a) (acc_type a)),
     set_accounts s (update_mapping (accounts s) p
                       (resolve (categories s) (acc_name a) (acc_type a)))).
Proof.
  intros s p a H. unfold fn_map_account_to_category, bind, get. simpl.
  rewrite H. reflexivity.
Qed.


(** *** Fallback by account type *)

Definition six_types : list text :=
  ["revenue"; "cogs"; "opex"; "asset"; "liability"; "equity"]%string.

(** The catalog has a category of every canonical type. *)
Definition covers_all_types (cats : list category) : Prop :=
  forall ty, In ty six_types ->
             exists c, In c cats /\ canonical_type c = ty.

Lemma fallback_in_six_types :
  forall t, In (fallback_canonical_type t) six_types.
Proof.
  intro t. unfold fallback_canonical_type, six_types.
  repeat match goal with
         | |- context [if ?b then _ else _] => destruct b
         end; simpl; tauto.
Qed.

Lemma first_of_type_some :
  forall cats ty,
    (exists c, In c cats /\ canonical_type c = ty) ->
    exists c, In c cats /\ canonical_type c = ty
              /\ first_of_type cats ty = Some (cat_id c).
Proof.
  intros cats ty (c0 & Hin & Hty). unfold first_of_type.
  destruct (find (fun c => String.eqb (canonical_type c) ty) cats) as [c|] eqn:E.
  - apply find_some in E. destruct E as [Hc Heq]. apply String.eqb_eq in Heq.
    exists c. auto.
  - exfalso. apply (find_none _ _ E) in Hin. simpl in Hin.
    apply String.eqb_neq in Hin. contradiction.
Qed.

Lemma first_of_type_none :
  forall cats ty,
    (forall c, In c cats -> canonical_type c <> ty) ->
    first_of_type cats ty = None.
Proof.
  intros cats ty H. unfold first_of_type.
  destruct (find (fun c => String.eqb (canonical_type c) ty) cats) as [c|] eqn:E.
  - apply find_some in E. destruct E as [Hc Heq]. apply String.eqb_eq in Heq.
    exfalso. exact (H c Hc Heq).
  - reflexivity.
Qed.

(** The two variables after the exact and the partial pass. *)
Definition after_matching (cats : list category) (v_account_name : text)
  : best :=
  let b0 := exact_loop v_account_name cats best_init in
  if v_best_score b0 <? 100 then fuzzy_loop v_account_name cats b0 else b0.

Lemma resolve_after_matching :
  forall cats name ty,
    resolve cats name ty =
    if v_best_score (after_matching cats name) <? 50
    then first_of_type cats (fallback_canonical_type ty)
    else v_best_category_id (after_matching cats name).
Proof. reflexivity. Qed.

(** A positive score comes with a category of the catalog. *)
Definition chosen (cats : list category) (b : best) : Prop :=
  0 < v_best_score b ->
  exists c, In c cats /\ v_best_category_id b = Some (cat_id c).

Lemma fuzzy_loop_chosen :
  forall name cats cats' b,
    incl cats' cats -> chosen cats b ->
    chosen cats (fuzzy_loop name cats' b).
Proof.
  intros name cats cats'. induction cats' as [|c cats' IH]; intros b Hincl Hb.
  - exact Hb.
  - simpl. apply IH.
    + intros x Hx. apply Hincl. right. exact Hx.
    + destruct (fuzzy_foreach name (source_examples c) 0 >? v_best_score b).
      * intros _. exists c. split; [apply Hincl; left; reflexivity|reflexivity].
      * exact Hb.
Qed.

Lemma exact_loop_chosen :
  forall name cats, chosen cats (exact_loop name cats best_init).
Proof.
  intros name cats. rewrite exact_loop_spec by (simpl; lia).
  destruct (find (exact_matches name) cats) as [c|] eqn:E.
  - intros _. exists c. split; [|reflexivity].
    apply find_some in E. tauto.
  - intros H. simpl in H. lia.
Qed.

Lemma after_matching_chosen :
  forall name cats, chosen cats (after_matching cats name).
Proof.
  intros name cats. unfold after_matching. simpl.
  destruct (v_best_score (exact_loop name cats best_init) <? 100).
  - apply fuzzy_loop_chosen; [apply incl_refl|apply exact_loop_chosen].
  - apply exact_loop_chosen.
Qed.

Lemma resolve_some :
  forall cats name ty,
    covers_all_types cats ->
    exists c, In c cats /\ resolve cats name ty = Some (cat_id c).
Proof.
  intros cats name ty Hcov. rewrite resolve_after_matching.
  destruct (v_best_score (after_matching cats name) <? 50) eqn:E.
  - destruct (first_of_type_some cats (fallback_canonical_type ty)
                (Hcov _ (fallback_in_six_types ty))) as (c & Hc & _ & Hf).
    exists c. auto.
  - apply Z.ltb_ge in E.
    destruct (after_matching_chosen name cats) as (c & Hc & Hid); [lia|].
    exists c. auto.
Qed.

(** The outcomes of [fn_map_account_to_category] for an account that
    exists, on a catalog as [Mapping] reads it: the id of a category of
    the catalog when the catalog has a category of every canonical type;
    [NULL], returned and stored, when the score after the two matching
    passes is below 50 and the catalog has no category of the canonical
    type the fallback selects. *)
Lemma fn_map_account_to_category_outcomes :
  forall s p a,
    find_account (accounts s) (Some p) = Some a ->
    (covers_all_types (categories s) ->
     exists c,
       In c (categories s)
       /\ fn_map_account_to_category (Some p) s
          = (Ok (Some (cat_id c)),
             set_accounts s (update_mapping (accounts s) (Some p)
                               (Some (cat_id c)))))
    /\ (v_best_score (after_matching (categories s) (acc_name a)) < 50 ->
        (forall c, In c (categories s) ->
                   canonical_type c <> fallback_canonical_type (acc_type a)) ->
        exists s',
          fn_map_account_to_category (Some p) s = (Ok None, s')
          /\ s' = set_accounts s (update_mapping (accounts s) (Some p) None)
          /\ find_account (accounts s') (Some p) = Some (with_mapping a None)
          /\ (forall a', In a' (accounts s') -> acc_id a' = p ->
                         mapping_category_id a' = None))
    /\ (categories s = [] ->
        fn_map_account_to_category (Some p) s
        = (Ok None,
           set_accounts s (update_mapping (accounts s) (Some p) None))).
Proof.
  intros s p a Hfind.
  rewrite (fn_map_account_to_category_found _ _ _ Hfind).
  split; [|split].
  - intros Hcov.
    destruct (resolve_some (categories s) (acc_name a) (acc_type a) Hcov)
      as (c & Hc & Hres).
    exists c. split; [exact Hc|]. rewrite Hres. reflexivity.
  - intros Hscore Hnone.
    assert (Hres : resolve (categories s) (acc_name a) (acc_type a) = None).
    { rewrite resolve_after_matching.
      apply Z.ltb_lt in Hscore. rewrite Hscore.
      apply first_of_type_none. exact Hnone. }
    rewrite Hres. eexists. split; [reflexivity|]. split; [reflexivity|].
    simpl. split.
    + rewrite find_account_update. rewrite Hfind. simpl.
      rewrite (find_account_id _ _ _ Hfind). rewrite N.eqb_refl. reflexivity.
    + intros a' Ha' Hid. exact (update_mapping_sets _ _ _ _ Ha' Hid).
  - intros Hempty. rewrite Hempty. reflexivity.
Qed.

(** *** The batch *)

Lemma resolve_in_catalog :
  forall cats name ty i,
    resolve cats name ty = Some i ->
    exists c, In c cats /\ cat_id c = i.
Proof.
  intros cats name ty i. rewrite resolve_after_matching.
  destruct (v_best_score (after_matching cats name) <? 50) eqn:E.
  - unfold first_of_type.
    destruct (find _ cats) as [c|] eqn:F; simpl; intro H; [|discriminate].
    injection H as <-. apply find_some in F. exists c. tauto.
  - apply Z.ltb_ge in E. intro H.
    destruct (after_matching_chosen name cats) as (c & Hc & Hid); [lia|].
    exists c. split; [exact Hc|]. congruence.
Qed.

Lemma find_account_unique :
  forall accs a,
    NoDup (map acc_id accs) -> In a accs ->
    find_account accs (Some (acc_id a)) = Some a.
Proof.
  intros accs a. unfold find_account. simpl.
  induction accs as [|b accs IH]; intros Hnd Hin; [contradiction|].
  simpl in *. inversion Hnd as [|x l Hnotin Hnd']; subst.
  destruct Hin as [<-|Hin].
  - rewrite N.eqb_refl. reflexivity.
  - destruct (N.eqb (acc_id a) (acc_id b)) eqn:E.
    + apply N.eqb_eq in E. exfalso. apply Hnotin. rewrite <- E.
      apply in_map. exact Hin.
    + apply IH; assumption.
Qed.

(** The category an account resolves to. *)
Definition resolved (cats : list category) (a : account) : option uuid :=
  resolve cats (acc_name a) (acc_type a).

Lemma map_loop_spec :
  forall recs s,
    (forall rec, In rec recs ->
       exists a, find_account (accounts s) (Some (acc_id rec)) = Some a
                 /\ acc_name a = acc_name rec /\ acc_type a = acc_type rec) ->
    map_loop recs s =
    (Ok (flat_map (fun rec => return_query (categories s) rec
                                (resolved (categories s) rec)) recs),
     set_accounts s
       (fold_left (fun accs rec =>
                     update_mapping accs (Some (acc_id rec))
                       (resolved (categories s) rec))
                  recs (accounts s))).
Proof.
  induction recs as [|rec recs IH]; intros s Hpre.
  - simpl. unfold ret. destruct s; reflexivity.
  - destruct (Hpre rec (or_introl eq_refl)) as (a & Hfind & Hname & Htype).
    cbn [map_loop]. unfold bind at 1.
    rewrite (fn_map_account_to_category_found _ _ _ Hfind).
    rewrite Hname, Htype. fold (resolved (categories s) rec).
    unfold bind at 1. unfold get at 1. unfold bind at 1.
    rewrite IH.
    + reflexivity.
    + intros rec' Hrec'.
      destruct (Hpre rec' (or_intror Hrec')) as (a' & Hf' & Hn' & Ht').
      simpl. rewrite find_account_update. rewrite Hf'. simpl.
      eexists. split; [reflexivity|].
      destruct (N.eqb (acc_id rec) (acc_id a')); simpl; auto.
Qed.

Lemma fold_update_mapping :
  forall (g : account -> option uuid) recs accs,
    NoDup (map acc_id recs) ->
    fold_left (fun accs rec => update_mapping accs (Some (acc_id rec)) (g rec))
              recs accs =
    map (fun a => match find (fun rec => N.eqb (acc_id rec) (acc_id a)) recs with
                  | Some rec => with_mapping a (g rec)
                  | None => a
                  end) accs.
Proof.
  intros g. induction recs as [|rec recs IH]; intros accs Hnd.
  - simpl. symmetry. apply map_id.
  - inversion Hnd as [|x l Hnotin Hnd']; subst.
    cbn [fold_left]. rewrite IH by exact Hnd'.
    unfold update_mapping. rewrite map_map. apply map_ext. intro a.
    cbn [find ref_eqb].
    destruct (N.eqb (acc_id rec) (acc_id a)) eqn:E.
    + cbn [with_mapping acc_id].
      destruct (find (fun r => N.eqb (acc_id r) (acc_id a)) recs) as [r|] eqn:F.
      * exfalso. apply find_some in F. destruct F as [Hr Hid].
        apply N.eqb_eq in Hid. apply N.eqb_eq in E. apply Hnotin.
        rewrite E, <- Hid. apply in_map. exact Hr.
      * reflexivity.
    + reflexivity.
Qed.

Lemma NoDup_map_filter :
  forall (A B : Type) (f : A -> B) (p : A -> bool) l,
    NoDup (map f l) -> NoDup (map f (filter p l)).
Proof.
  intros A B f p l. induction l as [|x l IH]; intro H; simpl.
  - constructor.
  - inversion H as [|y l' Hnotin Hnd]; subst.
    destruct (p x); simpl.
    + constructor; [|apply IH; exact Hnd].
      intro Hin. apply Hnotin. apply in_map_iff in Hin.
      destruct Hin as (z & Hz & Hzin). apply filter_In in Hzin.
      apply in_map_iff. exists z. tauto.
    + apply IH. exact Hnd.
Qed.

Lemma find_in_company :
  forall accs co a,
    NoDup (map acc_id accs) -> In a accs ->
    find (fun rec => N.eqb (acc_id rec) (acc_id a))
         (filter (fun b => ref_eqb co (acc_company_id b)) accs)
    = if ref_eqb co (acc_company_id a) then Some a else None.
Proof.
  intros accs co a. induction accs as [|b accs IH]; intros Hnd Hin.
  - contradiction.
  - inversion Hnd as [|x l Hnotin Hnd']; subst. simpl in Hin.
    destruct Hin as [<-|Hin].
    + simpl. destruct (ref_eqb co (acc_company_id b)) eqn:E.
      * simpl. rewrite N.eqb_refl. reflexivity.
      * destruct (find _ _) as [r|] eqn:F; [|reflexivity].
        exfalso. apply find_some in F. destruct F as [Hr Hid].
        apply filter_In in Hr. apply N.eqb_eq in Hid. apply Hnotin.
        rewrite <- Hid. apply in_map. tauto.
    + simpl. destruct (ref_eqb co (acc_company_id b)) eqn:E.
      * simpl. destruct (N.eqb (acc_id b) (acc_id a)) eqn:Eid.
        -- exfalso. apply N.eqb_eq in Eid. apply Hnotin. rewrite Eid.
           apply in_map. exact Hin.
        -- apply IH; assumption.
      * apply IH; assumption.
Qed.

(** The accounts after the batch: every account of the company carries
    the category it resolves to. *)
Definition remapped (s : db) (p_company_id : option uuid) : list account :=
  map (fun a => if ref_eqb p_company_id (acc_company_id a)
                then with_mapping a (resolved (categories s) a) else a)
      (accounts s).

Lemma fn_map_company_accounts_spec :
  forall s p_company_id,
    NoDup (map acc_id (accounts s)) ->
    fn_map_company_accounts p_company_id s =
    (Ok (flat_map (fun a => return_query (categories s) a
                              (resolved (categories s) a))
                  (company_accounts s p_company_id)),
     set_accounts s (remapped s p_company_id)).
Proof.
  intros s co Hnd. unfold fn_map_company_accounts, bind, get.
  rewrite map_loop_spec.
  - f_equal. f_equal.
    rewrite fold_update_mapping
      by (apply NoDup_map_filter; exact Hnd).
    unfold remapped. apply map_ext_in. intros a Ha.
    unfold company_accounts. rewrite (find_in_company _ _ _ Hnd Ha).
    destruct (ref_eqb co (acc_company_id a)); reflexivity.
  - intros rec Hrec. exists rec. split; [|auto].
    apply find_account_unique; [exact Hnd|].
    unfold company_accounts in Hrec. apply filter_In in Hrec. tauto.
Qed.

Lemma filter_none :
  forall (A : Type) (p : A -> bool) l,
    (forall x, In x l -> p x = false) -> filter p l = [].
Proof.
  intros A p l. induction l as [|x l IH]; intro H; simpl.
  - reflexivity.
  - rewrite (H x (or_introl eq_refl)). apply IH.
    intros y Hy. apply H. right. exact Hy.
Qed.

Lemma filter_by_id_singleton :
  forall cats c,
    NoDup (map cat_id cats) -> In c cats ->
    filter (fun x => ref_eqb (Some (cat_id c)) (cat_id x)) cats = [c].
Proof.
  intros cats c. induction cats as [|x cats IH]; intros Hnd Hin.
  - contradiction.
  - inversion Hnd as [|y l Hnotin Hnd']; subst. simpl in Hin.
    cbn [filter ref_eqb]. destruct Hin as [<-|Hin].
    + rewrite N.eqb_refl. f_equal. apply filter_none.
      intros z Hz. apply N.eqb_neq. intro E. apply Hnotin. rewrite E.
      apply in_map. exact Hz.
    + destruct (N.eqb (cat_id c) (cat_id x)) eqn:E.
      * exfalso. apply N.eqb_eq in E. apply Hnotin. rewrite <- E.
        apply in_map. exact Hin.
      * apply IH; assumption.
Qed.

Definition is_some {A : Type} (o : option A) : bool :=
  match o with Some _ => true | None => false end.

Lemma return_query_length :
  forall cats a,
    NoDup (map cat_id cats) ->
    List.length (return_query cats a (resolved cats a))
    = if is_some (resolved cats a) then 1%nat else 0%nat.
Proof.
  intros cats a Hnd. unfold return_query. rewrite length_map.
  destruct (resolved cats a) as [i|] eqn:R.
  - destruct (resolve_in_catalog _ _ _ _ R) as (c & Hc & <-).
    rewrite (filter_by_id_singleton _ _ Hnd Hc). reflexivity.
  - rewrite filter_none; [reflexivity|]. intros; reflexivity.
Qed.

Lemma flat_map_length_filter :
  forall (A B : Type) (f : A -> list B) (p : A -> bool) l,
    (forall x, In x l -> List.length (f x) = if p x then 1%nat else 0%nat) ->
    List.length (flat_map f l) = List.length (filter p l).
Proof.
  intros A B f p l. induction l as [|x l IH]; intro H; simpl.
  - reflexivity.
  - rewrite length_app. rewrite (H x (or_introl eq_refl)).
    rewrite IH by (intros y Hy; apply H; right; exact Hy).
    destruct (p x); reflexivity.
Qed.

Lemma filter_length_lt :
  forall (A : Type) (p : A -> bool) l x,
    In x l -> p x = false ->
    (List.length (filter p l) < List.length l)%nat.
Proof.
  intros A p l x. induction l as [|y l IH]; intros Hin Hp.
  - contradiction.
  - simpl. destruct Hin as [->|Hin].
    + rewrite Hp. pose proof (filter_length_le p l). lia.
    + specialize (IH Hin Hp). destruct (p y); simpl; lia.
Qed.

(** The rows of [fn_map_company_accounts] on a catalog as [Mapping]
    reads it, with unique account and category ids: one row for every
    account of the company that resolved to a category, in turn, and none
    for an account that resolved to [NULL], while every account of the
    company carries afterwards the [mapping_category_id] it resolved
    to. *)
Lemma fn_map_company_accounts_partition :
  forall s p_company_id,
    NoDup (map acc_id (accounts s)) ->
    NoDup (map cat_id (categories s)) ->
    exists rows s',
      fn_map_company_accounts p_company_id s = (Ok rows, s')
      /\ (forall r, In r rows ->
            exists a c,
              In a (company_accounts s p_company_id)
              /\ In c (categories s)
              /\ resolved (categories s) a = Some (cat_id c)
              /\ r_account_id r = acc_id a
              /\ r_category_id r = Some (cat_id c)
              /\ r_category_name r = cat_name c)
      /\ (forall a, In a (company_accounts s p_company_id) ->
                    resolved (categories s) a = None ->
                    forall r, In r rows -> r_account_id r <> acc_id a)
      /\ List.length rows
         = List.length (filter (fun a => is_some (resolved (categories s) a))
                               (company_accounts s p_company_id))
      /\ (forall a, In a (company_accounts s p_company_id) ->
                    resolved (categories s) a = None ->
                    (List.length rows
                     < List.length (company_accounts s p_company_id))%nat)
      /\ categories s' = categories s
      /\ (forall a, In a (company_accounts s p_company_id) ->
                    find_account (accounts s') (Some (acc_id a))
                    = Some (with_mapping a (resolved (categories s) a))).
Proof.
  intros s co Hacc Hcat.
  rewrite (fn_map_company_accounts_spec s co Hacc).
  eexists. eexists. split; [reflexivity|].
  assert (Hrows : forall r,
    In r (flat_map (fun a => return_query (categories s) a
                               (resolved (categories s) a))
                   (company_accounts s co)) ->
    exists a c,
      In a (company_accounts s co) /\ In c (categories s)
      /\ resolved (categories s) a = Some (cat_id c)
      /\ r_account_id r = acc_id a
      /\ r_category_id r = Some (cat_id c)
      /\ r_category_name r = cat_name c).
  { intros r Hr. apply in_flat_map in Hr. destruct Hr as (a & Ha & Hr).
    unfold return_query in Hr. apply in_map_iff in Hr.
    destruct Hr as (c & <- & Hc). apply filter_In in Hc.
    destruct Hc as [Hc Hid].
    destruct (resolved (categories s) a) as [i|] eqn:R; [|discriminate].
    simpl in Hid. apply N.eqb_eq in Hid. subst i.
    exists a, c. simpl. rewrite R. repeat split; auto. }
  assert (Hlen :
    List.length (flat_map (fun a => return_query (categories s) a
                                      (resolved (categories s) a))
                          (company_accounts s co))
    = List.length (filter (fun a => is_some (resolved (categories s) a))
                          (company_accounts s co))).
  { apply flat_map_length_filter. intros a _.
    apply return_query_length. exact Hcat. }
  split; [exact Hrows|]. split; [|split; [exact Hlen|split; [|split]]].
  - intros a Ha Hnone r Hr Hid.
    destruct (Hrows r Hr) as (a' & c & Ha' & _ & Hres & Hid' & _).
    assert (a' = a).
    { unfold company_accounts in Ha, Ha'.
      apply filter_In in Ha. apply filter_In in Ha'.
      pose proof (find_account_unique _ _ Hacc (proj1 Ha)) as F.
      pose proof (find_account_unique _ _ Hacc (proj1 Ha')) as F'.
      rewrite <- Hid, Hid' in F. congruence. }
    subst a'. congruence.
  - intros a Ha Hnone. rewrite Hlen.
    apply (filter_length_lt _ _ _ a Ha). rewrite Hnone. reflexivity.
  - reflexivity.
  - intros a Ha. simpl. unfold company_accounts in Ha.
    apply filter_In in Ha. destruct Ha as [Hin Hco].
    unfold remapped.
    assert (G : forall accs,
      find_account
        (map (fun a0 => if ref_eqb co (acc_company_id a0)
                        then with_mapping a0 (resolved (categories s) a0)
                        else a0) accs) (Some (acc_id a))
      = option_map (fun a0 => if ref_eqb co (acc_company_id a0)
                              then with_mapping a0 (resolved (categories s) a0)
                              else a0)
                   (find_account accs (Some (acc_id a)))).
    { intro accs. unfold find_account. induction accs as [|b accs IH]; simpl.
      - reflexivity.
      - assert (Hid : acc_id (if ref_eqb co (acc_company_id b)
                              then with_mapping b (resolved (categories s) b)
                              else b) = acc_id b)
          by (destruct (ref_eqb co (acc_company_id b)); reflexivity).
        rewrite Hid. destruct (N.eqb (acc_id a) (acc_id b)); simpl;
          [reflexivity|exact IH]. }
    rewrite G. rewrite (find_account_unique _ _ Hacc Hin). simpl.
    rewrite Hco. reflexivity.
Qed.

End MappingFacts.

(** ** [LIKE] against containment *)

Module LikeFacts.



Lemma list_ascii_of_string_app :
  forall a b,
    list_ascii_of_string (a ++ b)
    = (list_ascii_of_string a ++ list_ascii_of_string b)%list.
Proof.
  intros a b. induction a as [|c a IH]; simpl.
  - reflexivity.
  - rewrite IH. reflexivity.
Qed.


(** A pattern ['%' || x || '%'] never ends with the escape character. *)
Lemma wrap_parses :
  forall x, like_parse (list_ascii_of_string (wrap x)) <> None.
Proof.
  intro x. unfold wrap. simpl.
  assert (G : forall l, like_parse (l ++ ["%"%char]) <> None
                        /\ like_parse ("\"%char :: l ++ ["%"%char]) <> None).
  { intro l. remember (List.length l) as n eqn:Hn. revert l Hn.
    induction n as [n IH] using lt_wf_ind. intros l Hn.
    destruct l as [|c l].
    - simpl. split; discriminate.
    - assert (Hl : forall l', (List.length l' < n)%nat ->
                like_parse (l' ++ ["%"%char]) <> None
                /\ like_parse ("\"%char :: l' ++ ["%"%char]) <> None).
      { intros l' Hlt. exact (IH _ Hlt l' eq_refl). }
      simpl in Hn.
      assert (H1 : like_parse ((c :: l) ++ ["%"%char]) <> None).
      { cbn [app like_parse].
        destruct (Ascii.eqb c "\"%char).
        - destruct l as [|c' l].
          + simpl. discriminate.
          + cbn [app]. destruct (Hl l) as [H _]; [simpl in Hn; lia|].
            destruct (like_parse (l ++ ["%"%char])); [discriminate|contradiction].
        - destruct (Hl l) as [H _]; [lia|].
          destruct (like_parse (l ++ ["%"%char]));
            [|contradiction].
          destruct (Ascii.eqb c "%"%char); [discriminate|].
          destruct (Ascii.eqb c "_"%char); discriminate. }
      split; [exact H1|].
      cbn [like_parse Ascii.eqb]. simpl Ascii.eqb. cbn [app].
      destruct (Hl l) as [H _]; [lia|].
      destruct (like_parse (l ++ ["%"%char])); [discriminate|contradiction]. }
  rewrite list_ascii_of_string_app. simpl.
  destruct (G (list_ascii_of_string x)) as [H _].
  destruct (like_parse (list_ascii_of_string x ++ ["%"%char]));
    [discriminate|contradiction].
Qed.








End LikeFacts.

(** ** Partial matching and fallback *)

Module FuzzyMatching.
Import Mapping MappingFacts LikeFacts.

(** The resolver as the specification words it for an account without an
    exact match: 80 when the example occurs in the name, 70 when the name
    occurs in the example, both up to case, 0 otherwise. *)
Definition example_score (name ex : text) : Z :=
  if contains (LOWER name) (LOWER ex) then 80
  else if contains (LOWER ex) (LOWER name) then 70
  else 0.

(** The score of a category: the maximum over its examples. *)
Definition category_score (name : text) (c : category) : Z :=
  fold_right Z.max 0 (map (example_score name) (source_examples c)).

(** The best-scoring category, the first one in catalog order among
    equals. *)
Fixpoint best_scoring (name : text) (cats : list category)
  : option category :=
  match cats with
  | [] => None
  | c :: rest =>
      match best_scoring name rest with
      | Some c' =>
          if category_score name c <? category_score name c'
          then Some c' else Some c
      | None => Some c
      end
  end.

(** Below 50 the declared type decides, through the fallback table and
    the first category of the canonical type it gives. *)
Definition spec_resolve (cats : list category) (name ty : text)
  : option uuid :=
  match best_scoring name cats with
  | Some c =>
      if category_score name c <? 50
      then first_of_type cats (fallback_canonical_type ty)
      else Some (cat_id c)
  | None => first_of_type cats (fallback_canonical_type ty)
  end.

(** The fallback table, entry by entry. *)
Lemma fallback_table :
  map fallback_canonical_type
      ["Income"; "Other Income"; "Cost of Goods Sold"; "Expense";
       "Other Expense"; "Bank"; "Other Current Asset"; "Fixed Asset";
       "Other Asset"; "Accounts Receivable"; "Accounts Payable";
       "Credit Card"; "Other Current Liability"; "Long Term Liability";
       "Equity"; "Non-Posting"; ""]%string
  = ["revenue"; "revenue"; "cogs"; "opex"; "opex"; "asset"; "asset";
     "asset"; "asset"; "asset"; "liability"; "liability"; "liability";
     "liability"; "equity"; "opex"; "opex"]%string.
Proof. reflexivity. Qed.






(** C2.  The account named [A_R] of type [Accounts Receivable], on the
    seeded catalog.  No example equals the name, no example occurs in the
    name and the name occurs in no example, so the specification sends
    the account to the fallback, the first [asset] category (id 4).  The
    function compares with [LIKE], where the underscore of the name is a
    wildcard: the name matches the example [Repairs & Maintenance] of the
    Operating Expenses category (and [A/R] of Assets) with score 70, and
    the function returns Operating Expenses (id 3). *)
Theorem like_wildcard_in_account_name :
  find (exact_matches "A_R") seed_categories = None
  /\ map (category_score "A_R") seed_categories = [0; 0; 0; 0; 0; 0]
  /\ spec_resolve seed_categories "A_R" "Accounts Receivable" = Some 4%N
  /\ LIKE (LOWER "Repairs & Maintenance") (wrap (LOWER "A_R")) = true
  /\ contains (LOWER "Repairs & Maintenance") (LOWER "A_R") = false
  /\ after_matching seed_categories "A_R" = mkBest (Some 3%N) 70
  /\ resolve seed_categories "A_R" "Accounts Receivable" = Some 3%N.
Proof. vm_compute. repeat split; reflexivity. Qed.

End FuzzyMatching.

(** ** Monthly totals *)

Module AggregationFacts.
Import Aggregation.

Definition set_raw_transactions (s : db) (t : list raw_transaction) : db :=
  mkDb (companies s) (categories s) (accounts s) t
       (monthly_pl s) (monthly_cash_flow s) (projections_12m s).













Lemma validate_ok :
  forall (c : uuid) (ps pe : date) (run : text) (s : db),
    Date.ltb pe ps = false -> run <> ""%string ->
    validate (Some c) (Some ps) (Some pe) (Some run) s
    = (Ok (mkParams c ps pe run), s).
Proof.
  intros c ps pe run s Hp Hr. unfold validate. rewrite Hp.
  apply String.eqb_neq in Hr. rewrite Hr. reflexivity.
Qed.

Lemma fn_generate_monthly_pl_valid :
  forall (now : timestamptz) (new_id c : uuid) (ps pe : date) (run : text)
         (s : db),
    Date.ltb pe ps = false -> run <> ""%string ->
    fn_generate_monthly_pl now new_id (Some c) (Some ps) (Some pe) (Some run) s
    = match upsert (companies s) (monthly_pl s) new_id
              (mkParams c ps pe run)
              (pl_totals_of s (mkParams c ps pe run)) now with
      | Some (t, v_row_id) => (Ok v_row_id, set_monthly_pl s t)
      | None => (Raise (foreign_key_violation "monthly_pl"), s)
      end.
Proof.
  intros now new_id c ps pe run s Hp Hr.
  unfold fn_generate_monthly_pl, bind. rewrite (validate_ok c ps pe run s Hp Hr).
  unfold get. destruct (upsert _ _ _ _ _ _) as [[t i]|]; reflexivity.
Qed.

Lemma fn_generate_monthly_cash_flow_valid :
  forall (now : timestamptz) (new_id c : uuid) (ps pe : date) (run : text)
         (s : db),
    Date.ltb pe ps = false -> run <> ""%string ->
    fn_generate_monthly_cash_flow now new_id (Some c) (Some ps) (Some pe)
      (Some run) s
    = match upsert (companies s) (monthly_cash_flow s) new_id
              (mkParams c ps pe run)
              (cf_totals_of s (mkParams c ps pe run)) now with
      | Some (t, v_row_id) => (Ok v_row_id, set_monthly_cash_flow s t)
      | None => (Raise (foreign_key_violation "monthly_cash_flow"), s)
      end.
Proof.
  intros now new_id c ps pe run s Hp Hr.
  unfold fn_generate_monthly_cash_flow, bind.
  rewrite (validate_ok c ps pe run s Hp Hr).
  unfold get. destruct (upsert _ _ _ _ _ _) as [[t i]|]; reflexivity.
Qed.

(** *** The upsert *)

Lemma date_eqb_eq : forall a b, Date.eqb a b = true -> a = b.
Proof.
  intros [y1 m1 d1] [y2 m2 d2]. unfold Date.eqb. simpl. intro H.
  apply andb_true_iff in H. destruct H as [H Hd].
  apply andb_true_iff in H. destruct H as [Hy Hm].
  apply Z.eqb_eq in Hy, Hm, Hd. subst. reflexivity.
Qed.

Lemma date_eqb_refl : forall a, Date.eqb a a = true.
Proof.
  intros [y m d]. unfold Date.eqb. simpl. rewrite !Z.eqb_refl. reflexivity.
Qed.

Lemma find_as_filter :
  forall (A : Type) (f : A -> bool) (l : list A),
    find f l = match filter f l with
               | [] => None
               | x :: _ => Some x
               end.
Proof.
  intros A f l. induction l as [|x l IH]; simpl.
  - reflexivity.
  - destruct (f x); [reflexivity|exact IH].
Qed.

Lemma filter_map_same :
  forall (A : Type) (p : A -> bool) (f : A -> A) (l : list A),
    (forall x, p (f x) = p x) ->
    filter p (map f l) = map f (filter p l).
Proof.
  intros A p f l H. induction l as [|x l IH]; simpl.
  - reflexivity.
  - rewrite H. destruct (p x); simpl; rewrite IH; reflexivity.
Qed.

Section UpsertFacts.
Variable T : Type.
Variables (comps : list uuid) (tbl : list (monthly T)).
Variables (new_id : uuid) (p : params) (tot : T) (now : timestamptz).

Let key : monthly T -> bool := same_key (company_id p) (p_start p).

(** The row the key has after the statement: a fresh row with version 1
    when the key had none, the row it had with the four columns replaced
    and the version one higher otherwise. *)
Definition row_after : monthly T :=
  match filter key tbl with
  | [] => mkMonthly new_id (company_id p) (p_start p) (p_end p) tot 1 now
                    (run_id p)
  | r0 :: _ => mkMonthly (m_id r0) (m_company_id r0) (period_start r0)
                         (p_end p) tot (row_version r0 + 1) now (run_id p)
  end.

Lemma upsert_spec :
  existsb (N.eqb (company_id p)) comps = true ->
  (List.length (filter key tbl) <= 1)%nat ->
  exists tbl',
    upsert comps tbl new_id p tot now = Some (tbl', m_id row_after)
    /\ filter key tbl' = [row_after]
    /\ filter (fun r => negb (key r)) tbl'
       = filter (fun r => negb (key r)) tbl
    /\ m_company_id row_after = company_id p
    /\ period_start row_after = p_start p.
Proof.
  intros Hco Huniq. unfold upsert, row_after. fold key.
  rewrite find_as_filter.
  destruct (filter key tbl) as [|r0 rest] eqn:F.
  - rewrite Hco. eexists. split; [reflexivity|].
    rewrite !filter_app, F. cbn [filter].
    unfold key at 1 3. unfold same_key. cbn [m_company_id period_start].
    rewrite N.eqb_refl, date_eqb_refl. cbn [andb negb app].
    rewrite app_nil_r. auto.
  - assert (rest = []) by (destruct rest; [reflexivity|simpl in Huniq; lia]).
    subst rest.
    assert (Hk0 : key r0 = true).
    { assert (In r0 (filter key tbl)) by (rewrite F; left; reflexivity).
      apply filter_In in H. tauto. }
    eexists. split; [reflexivity|].
    assert (Hsame : forall x,
      key (if key x then do_update (p_end p) tot now (run_id p) x else x)
      = key x).
    { intro x. destruct (key x) eqn:E; [|exact E]. exact E. }
    split; [|split; [|split]].
    + rewrite (filter_map_same _ key _ tbl Hsame). rewrite F. cbn [map].
      rewrite Hk0. reflexivity.
    + rewrite (filter_map_same _ (fun r => negb (key r)) _ tbl)
        by (intro x; rewrite Hsame; reflexivity).
      rewrite <- (map_id (filter (fun r => negb (key r)) tbl)) at 2.
      apply map_ext_in. intros x Hx. apply filter_In in Hx.
      destruct Hx as [_ Hx]. apply negb_true_iff in Hx. rewrite Hx.
      reflexivity.
    + cbn [m_company_id]. unfold key, same_key in Hk0.
      apply andb_true_iff in Hk0. destruct Hk0 as [Hc _].
      apply N.eqb_eq in Hc. exact Hc.
    + cbn [period_start]. unfold key, same_key in Hk0.
      apply andb_true_iff in Hk0. destruct Hk0 as [_ Hd].
      apply date_eqb_eq. exact Hd.
Qed.

End UpsertFacts.
Arguments row_after {T} tbl new_id p tot now.

Lemma upsert_twice :
  forall (T : Type) comps (tbl : list (monthly T)) new_id new_id2 p tot
         now now2,
    existsb (N.eqb (company_id p)) comps = true ->
    (List.length (filter (same_key (company_id p) (p_start p)) tbl) <= 1)%nat ->
    let r1 := row_after tbl new_id p tot now in
    exists tbl1 tbl2,
      upsert comps tbl new_id p tot now = Some (tbl1, m_id r1)
      /\ filter (same_key (company_id p) (p_start p)) tbl1 = [r1]
      /\ filter (fun r => negb (same_key (company_id p) (p_start p) r)) tbl1
         = filter (fun r => negb (same_key (company_id p) (p_start p) r)) tbl
      /\ upsert comps tbl1 new_id2 p tot now2 = Some (tbl2, m_id r1)
      /\ filter (same_key (company_id p) (p_start p)) tbl2
         = [mkMonthly (m_id r1) (company_id p) (p_start p) (p_end p) tot
                      (row_version r1 + 1) now2 (run_id p)]
      /\ filter (fun r => negb (same_key (company_id p) (p_start p) r)) tbl2
         = filter (fun r => negb (same_key (company_id p) (p_start p) r)) tbl.
Proof.
  intros T comps tbl new_id new_id2 p tot now now2 Hco Huniq r1.
  destruct (upsert_spec T comps tbl new_id p tot now Hco Huniq)
    as (tbl1 & Hu1 & Hk1 & Ho1 & Hc1 & Hp1).
  fold r1 in Hu1, Hk1, Hc1, Hp1.
  assert (Huniq1 :
    (List.length (filter (same_key (company_id p) (p_start p)) tbl1) <= 1)%nat)
    by (rewrite Hk1; simpl; lia).
  destruct (upsert_spec T comps tbl1 new_id2 p tot now2 Hco Huniq1)
    as (tbl2 & Hu2 & Hk2 & Ho2 & _).
  assert (Hr2 : row_after tbl1 new_id2 p tot now2
                = mkMonthly (m_id r1) (company_id p) (p_start p) (p_end p) tot
                            (row_version r1 + 1) now2 (run_id p)).
  { unfold row_after. rewrite Hk1. rewrite Hc1, Hp1. reflexivity. }
  rewrite Hr2 in Hu2, Hk2. cbn [m_id] in Hu2.
  exists tbl1, tbl2. repeat split; try assumption. congruence.
Qed.

(** *** The totals written *)




(** The transactions of the sign example: 100 on an account mapped to a
    revenue category, -30 on one mapped to a cogs category, -20 on one
    mapped to an opex category, all of company 1 in January 2025. *)
Definition sign_example : db :=
  mkDb [1%N] seed_categories
    [ mkAccount 11 1 "a1" "Sales" "Income" None (Some 1%N);
      mkAccount 12 1 "a2" "Job Materials" "Cost of Goods Sold" None (Some 2%N);
      mkAccount 13 1 "a3" "Rent" "Expense" None (Some 3%N);
      mkAccount 14 1 "a4" "Suspense" "Bank" None None ]
    [ mkTxn 21 1 (mkDate 2025 1 5) 100 (Some 11%N);
      mkTxn 22 1 (mkDate 2025 1 9) (-30) (Some 12%N);
      mkTxn 23 1 (mkDate 2025 1 20) (-20) (Some 13%N);
      mkTxn 24 1 (mkDate 2025 1 21) 7 (Some 14%N);
      mkTxn 25 1 (mkDate 2025 1 22) 9 None ]
    [] [] [].

Definition january : params :=
  mkParams 1 (mkDate 2025 1 1) (mkDate 2025 1 31) "run-1".









End AggregationFacts.

(** ** The projection *)

Module ProjectionFacts.
Import Projection.

Lemma month_index_add_months :
  forall d k, month_index (add_months d k) = month_index d + k.
Proof.
  intros d k. unfold add_months, month_index. cbn [year month].
  pose proof (Z.div_mod (year d * 12 + (month d - 1) + k) 12). lia.
Qed.

Lemma days_in_month_ge_28 : forall y m, 28 <= days_in_month y m.
Proof.
  intros y m. unfold days_in_month.
  destruct (m =? 2); [destruct (is_leap y); lia|].
  destruct ((m =? 4) || (m =? 6) || (m =? 9) || (m =? 11)); lia.
Qed.

(** The target month of an offset is the first day of the month that
    many months after the current one. *)
Lemma v_projection_month_spec :
  forall today m,
    day (v_projection_month today m) = 1
    /\ 1 <= month (v_projection_month today m) <= 12
    /\ month_index (v_projection_month today m) = month_index today + m.
Proof.
  intros today m. unfold v_projection_month. split; [|split].
  - unfold add_months, trunc_month. cbn [day].
    pose proof (days_in_month_ge_28
                  ((month_index (mkDate (year today) (month today) 1) + m) / 12)
                  ((month_index (mkDate (year today) (month today) 1) + m)
                     mod 12 + 1)).
    lia.
  - unfold add_months. cbn [month].
    pose proof (Z.mod_pos_bound (month_index (trunc_month today) + m) 12).
    lia.
  - rewrite month_index_add_months. reflexivity.
Qed.

Section Env.
Variables (today : date) (now : timestamptz) (new_id : Z -> uuid).
Variables (c : uuid) (avg_revenue avg_costs : numeric) (months : Z).

Let row (m : Z) : projection :=
  values_row today now new_id c avg_revenue avg_costs months m.

Lemma for_loop_spec :
  forall offs n s,
    for_loop today now new_id c avg_revenue avg_costs months offs n s
    = (Ok (n + Z.of_nat (List.length offs)),
       set_projections s (fold_left upsert (map row offs) (projections_12m s))).
Proof.
  induction offs as [|m offs IH]; intros n s.
  - simpl. unfold ret. rewrite Z.add_0_r. destruct s; reflexivity.
  - cbn [for_loop]. unfold bind at 1. unfold get at 1.
    unfold bind at 1. unfold put at 1. rewrite IH.
    cbn [List.length map fold_left projections_12m set_projections].
    f_equal. f_equal. lia.
Qed.

Lemma same_key_values :
  forall x r,
    same_key x r = true ->
    p_company_id r = p_company_id x
    /\ snapshot_date r = snapshot_date x
    /\ p_month r = p_month x.
Proof.
  intros x r H. unfold same_key in H.
  apply andb_true_iff in H. destruct H as [H Hm].
  apply andb_true_iff in H. destruct H as [Hc Hs].
  apply N.eqb_eq in Hc. apply AggregationFacts.date_eqb_eq in Hs, Hm. auto.
Qed.

Lemma same_key_refl : forall x, same_key x x = true.
Proof.
  intro x. unfold same_key.
  rewrite N.eqb_refl, !AggregationFacts.date_eqb_refl. reflexivity.
Qed.

(** After the statement the table has a row with the key and the
    projections of the [VALUES] row. *)
Lemma upsert_present :
  forall tbl x,
    exists r, In r (upsert tbl x)
              /\ same_key x r = true
              /\ revenue_projection r = revenue_projection x
              /\ cost_projection r = cost_projection x
              /\ p_assumptions r = p_assumptions x.
Proof.
  intros tbl x. unfold upsert.
  destruct (existsb (same_key x) tbl) eqn:E.
  - apply existsb_exists in E. destruct E as (r0 & Hin & Hk).
    eexists. split.
    + apply in_map_iff. exists r0. split; [reflexivity|exact Hin].
    + rewrite Hk. cbn. split; [exact Hk|auto].
  - exists x. split; [apply in_or_app; right; left; reflexivity|].
    split; [apply same_key_refl|auto].
Qed.

(** A row of another key is left alone. *)
Lemma upsert_keeps :
  forall tbl x r,
    In r tbl -> same_key x r = false -> In r (upsert tbl x).
Proof.
  intros tbl x r Hin Hk. unfold upsert.
  destruct (existsb (same_key x) tbl).
  - apply in_map_iff. exists r. rewrite Hk. auto.
  - apply in_or_app. left. exact Hin.
Qed.

Lemma upsert_others :
  forall (P : projection -> bool) tbl x,
    (forall r, same_key x r = true -> P r = false) ->
    filter P (upsert tbl x) = filter P tbl.
Proof.
  intros P tbl x H. unfold upsert.
  destruct (existsb (same_key x) tbl).
  - induction tbl as [|r tbl IH]; [reflexivity|].
    cbn [map filter]. destruct (same_key x r) eqn:E.
    + rewrite (H r E).
      assert (E' : same_key x (mkProjection (p_id r) (p_company_id r)
                                 (snapshot_date r) (p_month r)
                                 (revenue_projection x) (cost_projection x)
                                 (p_assumptions x)) = true) by exact E.
      rewrite (H _ E'). exact IH.
    + rewrite IH. reflexivity.
  - rewrite filter_app. cbn [filter]. rewrite (H x (same_key_refl x)).
    apply app_nil_r.
Qed.

Lemma row_key_month :
  forall m r,
    same_key (row m) r = true ->
    month_index (p_month r) = month_index today + m.
Proof.
  intros m r H. apply same_key_values in H. destruct H as (_ & _ & H).
  rewrite H. unfold row, values_row. cbn [p_month].
  apply v_projection_month_spec.
Qed.

Lemma fold_upsert_present :
  forall offs tbl m,
    NoDup offs -> In m offs ->
    exists r, In r (fold_left upsert (map row offs) tbl)
              /\ same_key (row m) r = true
              /\ revenue_projection r = revenue_projection (row m)
              /\ cost_projection r = cost_projection (row m)
              /\ p_assumptions r = p_assumptions (row m).
Proof.
  induction offs as [|k offs IH]; intros tbl m Hnd Hin; [contradiction|].
  inversion Hnd as [|x l Hnotin Hnd']; subst. cbn [map fold_left].
  destruct Hin as [->|Hin]; [|apply IH; assumption].
  destruct (upsert_present tbl (row m)) as (r & Hr & Hk & Hv).
  exists r. split; [|split; [exact Hk|exact Hv]].
  clear IH Hnd Hnd'. revert Hr. generalize (upsert tbl (row m)).
  induction offs as [|k offs IH]; intros t Hr; [exact Hr|].
  cbn [map fold_left]. apply IH.
  - intro H. apply Hnotin. right. exact H.
  - apply upsert_keeps; [exact Hr|].
    destruct (same_key (row k) r) eqn:E; [|reflexivity].
    exfalso. apply Hnotin. left.
    apply row_key_month in E. apply row_key_month in Hk. lia.
Qed.

(** A row is one of the targets of the loop. *)
Definition is_target (offs : list Z) (r : projection) : bool :=
  existsb (fun m => same_key (row m) r) offs.

Lemma fold_upsert_others :
  forall offs tbl,
    filter (fun r => negb (is_target offs r))
           (fold_left upsert (map row offs) tbl)
    = filter (fun r => negb (is_target offs r)) tbl.
Proof.
  intros offs.
  assert (G : forall l tbl,
    incl l offs ->
    filter (fun r => negb (is_target offs r))
           (fold_left upsert (map row l) tbl)
    = filter (fun r => negb (is_target offs r)) tbl).
  { induction l as [|k l IH]; intros tbl Hincl; [reflexivity|].
    cbn [map fold_left]. rewrite IH.
    - apply upsert_others. intros r Hk. apply negb_false_iff.
      unfold is_target. apply existsb_exists. exists k.
      split; [apply Hincl; left; reflexivity|exact Hk].
    - intros x Hx. apply Hincl. right. exact Hx. }
  intro tbl. apply G. apply incl_refl.
Qed.

End Env.

Lemma offsets_1_12_spec :
  NoDup offsets_1_12 /\ forall m, In m offsets_1_12 <-> 1 <= m <= 12.
Proof.
  split.
  - unfold offsets_1_12. simpl.
    repeat (constructor; [simpl; intuition discriminate|]). constructor.
  - intro m. unfold offsets_1_12. rewrite in_map_iff. split.
    + intros (n & <- & Hn). apply in_seq in Hn. lia.
    + intro H. exists (Z.to_nat m). split; [lia|]. apply in_seq. lia.
Qed.

(** Lines 61-125 ([project]) on values that fit their columns: what the
    function does with the averages and the count [v_historical_months]
    that a [SELECT ... INTO] delivers.  With a count of 0 it writes
    nothing and returns 0.  Otherwise it returns 12 after twelve upserts into
    [projections_12m], one per offset 1..12: afterwards the table has, for
    every offset [m], a row of the company with the snapshot date and the
    target month [v_projection_month today m], whose revenue and cost
    projections are the averages times [1.02 ^ m] rounded to two
    decimals; rows that are not such a target and the other tables are as
    before.  The target months are first days of a month, the months
    [m] months after the current one: twelve consecutive months after the
    month of the snapshot.  With averages 1000 and 600, offset 3 gives
    1061.21 and 636.72. *)
Lemma project_writes_twelve_months :
  forall (today : date) (now : timestamptz) (new_id : Z -> uuid) (c : uuid)
         (h : history) (s : db),
    let avg_revenue := COALESCE0 (v_avg_revenue h) in
    let avg_costs := COALESCE0 (v_avg_costs h) in
    let rows := map (values_row today now new_id c avg_revenue avg_costs
                       (v_historical_months h)) offsets_1_12 in
    let written := fold_left upsert rows (projections_12m s) in
    let target (r : projection) :=
      existsb (fun m => same_key (values_row today now new_id c avg_revenue
                                    avg_costs (v_historical_months h) m) r)
              offsets_1_12 in
    (v_historical_months h = 0 ->
     project today now new_id c h s = (Ok 0, s))
    /\ (v_historical_months h <> 0 ->
        project today now new_id c h s = (Ok 12, set_projections s written)
        /\ List.length rows = 12%nat
        /\ (forall m, 1 <= m <= 12 ->
              exists r,
                In r written
                /\ p_company_id r = c
                /\ snapshot_date r = today
                /\ p_month r = v_projection_month today m
                /\ revenue_projection r
                   = ROUND (avg_revenue * POWER v_growth_rate m) 2
                /\ cost_projection r
                   = ROUND (avg_costs * POWER v_growth_rate m) 2)
        /\ filter (fun r => negb (target r)) written
           = filter (fun r => negb (target r)) (projections_12m s))
    /\ (forall m, day (v_projection_month today m) = 1
                  /\ 1 <= month (v_projection_month today m) <= 12
                  /\ month_index (v_projection_month today m)
                     = month_index today + m)
    /\ v_growth_rate = 1.02%Q
    /\ ROUND (1000 * POWER v_growth_rate 3) 2 = 1061.21%Q
    /\ ROUND (600 * POWER v_growth_rate 3) 2 = 636.72%Q.
Proof.
  intros today now new_id c h s avg_revenue avg_costs rows written target.
  split; [|split; [|split; [|split; [|split]]]].
  - intro H0. unfold project. rewrite H0. reflexivity.
  - intro Hn. split; [|split; [|split]].
    + unfold project. apply Z.eqb_neq in Hn. rewrite Hn.
      rewrite for_loop_spec. reflexivity.
    + reflexivity.
    + intros m Hm.
      destruct (fold_upsert_present today now new_id c avg_revenue avg_costs
                  (v_historical_months h) offsets_1_12 (projections_12m s) m
                  (proj1 offsets_1_12_spec)
                  (proj2 (proj2 offsets_1_12_spec m) Hm))
        as (r & Hin & Hk & Hrev & Hcost & _).
      apply same_key_values in Hk. destruct Hk as (Hc & Hs & Hmo).
      exists r. split; [exact Hin|]. repeat split; assumption.
    + apply (fold_upsert_others today now new_id c avg_revenue avg_costs
               (v_historical_months h) offsets_1_12 (projections_12m s)).
  - intro m. apply v_projection_month_spec.
  - reflexivity.
  - vm_compute. reflexivity.
  - vm_compute. reflexivity.
Qed.

(** *** The history the averages are taken from *)

(** Whatever the table holds, the statement of lines 46-59 is rejected:
    for every company of [companies] the function raises, and writes
    nothing. *)
Lemma fn_generate_projection_raises :
  forall (today : date) (now : timestamptz) (new_id : Z -> uuid) (c : uuid)
         (s : db),
    existsb (N.eqb c) (companies s) = true ->
    fn_generate_projection today now new_id (Some c) s
    = (Raise (grouping_error "period_start"), s).
Proof.
  intros today now new_id c s Hc.
  unfold fn_generate_projection, bind, get, when_raise.
  rewrite Hc. reflexivity.
Qed.

(** The history as the specification words it: the rows of the company
    whose period starts in the six months before the current month, the
    most recent first, six of them at most. *)
Definition in_spec_window (today : date) (c : uuid)
    (r : monthly pl_totals) : bool :=
  N.eqb (m_company_id r) c
  && Date.leb (add_months (trunc_month today) (-6)) (period_start r)
  && Date.ltb (period_start r) (trunc_month today).

Fixpoint insert_desc (r : monthly pl_totals) (l : list (monthly pl_totals))
  : list (monthly pl_totals) :=
  match l with
  | [] => [r]
  | x :: l' =>
      if Date.ltb (period_start r) (period_start x)
      then x :: insert_desc r l'
      else r :: l
  end.

Definition sort_desc (l : list (monthly pl_totals))
  : list (monthly pl_totals) :=
  fold_right insert_desc [] l.

Definition spec_history_rows (today : date) (c : uuid)
    (tbl : list (monthly pl_totals)) : list (monthly pl_totals) :=
  firstn 6 (sort_desc (filter (in_spec_window today c) tbl)).

(** Companies 1 and 2 on 15 July 2025.  Company 1 has a row for each of
    the months February to July, and a second row in June for a period
    that starts mid-month; company 2 has no row. *)
Definition history_row (i : uuid) (start : date) (rev : numeric)
  : monthly pl_totals :=
  mkMonthly i 1 start (mkDate (year start) (month start) 28)
            (mkPlTotals (Some rev) (Some 300%Q) (Some 200%Q)) 1 0 "run-1".

Definition history_example : db :=
  mkDb [1%N; 2%N] [] [] []
    [ history_row 31 (mkDate 2025 2 1) 1000;
      history_row 32 (mkDate 2025 3 1) 1000;
      history_row 33 (mkDate 2025 4 1) 1000;
      history_row 34 (mkDate 2025 5 1) 1000;
      history_row 35 (mkDate 2025 6 1) 1000;
      history_row 36 (mkDate 2025 6 16) 1000;
      history_row 37 (mkDate 2025 7 1) 8000 ]
    [] [].

Definition mid_july : date := mkDate 2025 7 15.

(** C1.  On [history_example], on 15 July 2025, for company 1.  The
    specification takes the averages from six rows, those of February to
    June: revenue 1000 on average.  The statement of the function names
    the column [period_start] in its [ORDER BY] next to aggregates and is
    rejected by PostgreSQL, so the function raises and no averages are
    computed at all.  Its [WHERE] clause, moreover, bounds the period
    start by the current date and not by the current month, and nothing
    in the statement caps the rows the aggregates read: seven rows pass
    it, the row of July, the current month, among them, and over those
    the select list gives a count of 7 and an average revenue of 2000. *)
Theorem history_window_not_six_complete_months :
  fn_generate_projection mid_july 0 (fun m => Z.to_N (100 + m)) (Some 1%N)
    history_example
  = (Raise (grouping_error "period_start"), history_example)
  /\ map (fun r => period_start r)
         (spec_history_rows mid_july 1 (monthly_pl history_example))
     = [mkDate 2025 6 16; mkDate 2025 6 1; mkDate 2025 5 1; mkDate 2025 4 1;
        mkDate 2025 3 1; mkDate 2025 2 1]
  /\ aggregates (spec_history_rows mid_july 1 (monthly_pl history_example))
     = mkHistory (Some (6000 / 6)%Q) (Some (3000 / 6)%Q) 6
  /\ map (fun r => period_start r)
         (filter (in_history_window mid_july 1) (monthly_pl history_example))
     = [mkDate 2025 2 1; mkDate 2025 3 1; mkDate 2025 4 1; mkDate 2025 5 1;
        mkDate 2025 6 1; mkDate 2025 6 16; mkDate 2025 7 1]
  /\ aggregates (filter (sel_where (history_select mid_july 1))
                        (monthly_pl history_example))
     = mkHistory (Some (14000 / 7)%Q) (Some (3500 / 7)%Q) 7.
Proof. vm_compute. repeat split; reflexivity. Qed.

(** C7.  On [history_example], on 15 July 2025.  Company 1 has history:
    the specification has the function write twelve rows and return 12,
    which is what lines 61-125 do with the averages of that history
    ([project], see [project_twelve_months]).  Company 2 has none: the
    specification has the function return 0, which is what lines 61-125
    do with a count of 0.  For both companies the function raises at the
    statement of lines 46-59 and never gets to line 61: it returns no
    count and [projections_12m] stays as it was. *)
Theorem projection_loop_not_reached :
  let ids := fun m => Z.to_N (100 + m) in
  let h1 :=
    aggregates (spec_history_rows mid_july 1 (monthly_pl history_example)) in
  let h2 :=
    aggregates (spec_history_rows mid_july 2 (monthly_pl history_example)) in
  v_historical_months h1 = 6
  /\ fst (project mid_july 0 ids 1 h1 history_example) = Ok 12
  /\ List.length
       (projections_12m (snd (project mid_july 0 ids 1 h1 history_example)))
     = 12%nat
  /\ fn_generate_projection mid_july 0 ids (Some 1%N) history_example
     = (Raise (grouping_error "period_start"), history_example)
  /\ v_historical_months h2 = 0
  /\ project mid_july 0 ids 2 h2 history_example = (Ok 0, history_example)
  /\ fn_generate_projection mid_july 0 ids (Some 2%N) history_example
     = (Raise (grouping_error "period_start"), history_example)
  /\ projections_12m history_example = [].
Proof. vm_compute. repeat split; reflexivity. Qed.

End ProjectionFacts.

(** ** The catalog as it is stored *)

Module StoredCatalog.
Import Mapping MappingFacts.

(** *** The stored functions on a catalog without [NULL] array *)

Lemma exact_foreach_elements :
  forall name id xs b,
    Stored.exact_foreach name id xs b
    = exact_foreach name id (Stored.elements xs) b.
Proof.
  intros name id xs b. induction xs as [|[x|] xs IH]; cbn.
  - reflexivity.
  - destruct (String.eqb (LOWER name) (LOWER x)); [reflexivity|exact IH].
  - exact IH.
Qed.

Lemma fuzzy_foreach_elements :
  forall name xs v,
    Stored.fuzzy_foreach name xs v
    = fuzzy_foreach name (Stored.elements xs) v.
Proof.
  intros name xs. induction xs as [|[x|] xs IH]; intro v; cbn.
  - reflexivity.
  - apply IH.
  - apply IH.
Qed.

Lemma read_cons :
  forall r rows cats,
    Stored.read (r :: rows) = Some cats ->
    exists xs cs,
      Stored.row_source_examples r = Some xs
      /\ Stored.read rows = Some cs
      /\ cats = mkCategory (Stored.row_id r) (Stored.row_name r)
                  (Stored.row_canonical_type r) (Stored.elements xs) :: cs.
Proof.
  intros r rows cats H. cbn in H. unfold Stored.read_row in H.
  destruct (Stored.row_source_examples r) as [xs|]; [|discriminate].
  cbn in H. destruct (Stored.read rows) as [cs|]; [|discriminate].
  injection H as <-. exists xs, cs. auto.
Qed.

Lemma exact_loop_read :
  forall name rows cats b,
    Stored.read rows = Some cats ->
    Stored.exact_loop name rows b = Ok (exact_loop name cats b).
Proof.
  intros name rows. induction rows as [|r rows IH]; intros cats b H.
  - injection H as <-. reflexivity.
  - destruct (read_cons _ _ _ H) as (xs & cs & Hx & Hr & ->).
    cbn. rewrite Hx. rewrite exact_foreach_elements.
    destruct (v_best_score _ =? 100); [reflexivity|]. apply IH. exact Hr.
Qed.

Lemma fuzzy_loop_read :
  forall name rows cats b,
    Stored.read rows = Some cats ->
    Stored.fuzzy_loop name rows b = Ok (fuzzy_loop name cats b).
Proof.
  intros name rows. induction rows as [|r rows IH]; intros cats b H.
  - injection H as <-. reflexivity.
  - destruct (read_cons _ _ _ H) as (xs & cs & Hx & Hr & ->).
    cbn. rewrite Hx. rewrite fuzzy_foreach_elements. apply IH. exact Hr.
Qed.

Lemma first_of_type_read :
  forall rows cats ty,
    Stored.read rows = Some cats ->
    Stored.first_of_type rows ty = first_of_type cats ty.
Proof.
  intros rows. induction rows as [|r rows IH]; intros cats ty H.
  - injection H as <-. reflexivity.
  - destruct (read_cons _ _ _ H) as (xs & cs & Hx & Hr & ->).
    unfold Stored.first_of_type, first_of_type in *. cbn.
    destruct (String.eqb (Stored.row_canonical_type r) ty); [reflexivity|].
    apply IH. exact Hr.
Qed.

Lemma resolve_read :
  forall rows cats name ty,
    Stored.read rows = Some cats ->
    Stored.resolve rows name ty = Ok (resolve cats name ty).
Proof.
  intros rows cats name ty H. unfold Stored.resolve, resolve.
  rewrite (exact_loop_read name rows cats best_init H).
  destruct (v_best_score (exact_loop name cats best_init) <? 100).
  - rewrite (fuzzy_loop_read name rows cats _ H).
    rewrite (first_of_type_read rows cats _ H). reflexivity.
  - rewrite (first_of_type_read rows cats _ H). reflexivity.
Qed.

Lemma fn_map_account_to_category_read :
  forall rows s p,
    Stored.read rows = Some (categories s) ->
    Stored.fn_map_account_to_category rows p s
    = fn_map_account_to_category p s.
Proof.
  intros rows s p H.
  unfold Stored.fn_map_account_to_category, fn_map_account_to_category,
    bind, get.
  destruct (find_account (accounts s) p) as [a|]; [|reflexivity].
  rewrite (resolve_read rows (categories s) _ _ H). reflexivity.
Qed.

Lemma return_query_read :
  forall rows cats rec v,
    Stored.read rows = Some cats ->
    Stored.return_query rows rec v = return_query cats rec v.
Proof.
  intros rows. induction rows as [|r rows IH]; intros cats rec v H.
  - injection H as <-. reflexivity.
  - destruct (read_cons _ _ _ H) as (xs & cs & Hx & Hr & ->).
    unfold Stored.return_query, return_query in *. cbn.
    destruct (ref_eqb v (Stored.row_id r)); cbn;
      rewrite (IH cs rec v Hr); reflexivity.
Qed.

Lemma map_loop_read :
  forall rows recs s,
    Stored.read rows = Some (categories s) ->
    Stored.map_loop rows recs s = map_loop recs s.
Proof.
  intros rows recs. induction recs as [|rec recs IH]; intros s H.
  - reflexivity.
  - cbn [Stored.map_loop map_loop]. unfold bind at 1 3.
    rewrite (fn_map_account_to_category_read rows s _ H).
    unfold fn_map_account_to_category, bind, get.
    destruct (find_account (accounts s) (Some (acc_id rec))) as [a|];
      [|reflexivity].
    cbn. rewrite (return_query_read rows (categories s) _ _ H).
    unfold bind in IH. rewrite IH; [reflexivity|exact H].
Qed.

Lemma fn_map_company_accounts_read :
  forall rows s co,
    Stored.read rows = Some (categories s) ->
    Stored.fn_map_company_accounts rows co s = fn_map_company_accounts co s.
Proof.
  intros rows s co H.
  unfold Stored.fn_map_company_accounts, fn_map_company_accounts, bind, get.
  apply map_loop_read. exact H.
Qed.

Lemma elements_map_Some :
  forall l, Stored.elements (map Some l) = l.
Proof.
  induction l as [|x l IH]; [reflexivity|]. cbn. f_equal. exact IH.
Qed.

(** A catalog stored and read again. *)
Lemma read_stored :
  forall cats, Stored.read (map Stored.stored cats) = Some cats.
Proof.
  induction cats as [|c cats IH]; [reflexivity|].
  cbn [map Stored.read]. rewrite IH. unfold Stored.read_row. cbn.
  rewrite elements_map_Some. destruct c; reflexivity.
Qed.

(** *** A [NULL] array *)

(** The exact pass reaches the rows after [pre] unless a row of [pre]
    has an example equal to the name. *)
Lemma exact_loop_app :
  forall name pre cs tl b,
    Stored.read pre = Some cs ->
    v_best_score b <> 100 ->
    Stored.exact_loop name (pre ++ tl) b
    = if v_best_score (exact_loop name cs b) =? 100
      then Ok (exact_loop name cs b)
      else Stored.exact_loop name tl (exact_loop name cs b).
Proof.
  intros name pre. induction pre as [|r pre IH]; intros cs tl b H Hb.
  - injection H as <-. cbn. apply Z.eqb_neq in Hb. rewrite Hb. reflexivity.
  - destruct (read_cons _ _ _ H) as (xs & cs' & Hx & Hr & ->).
    cbn. rewrite Hx. rewrite exact_foreach_elements.
    destruct (v_best_score
                (exact_foreach name (Stored.row_id r) (Stored.elements xs) b)
              =? 100) eqn:E.
    + rewrite E. reflexivity.
    + apply IH; [exact Hr|]. apply Z.eqb_neq. exact E.
Qed.

(** A row with a [NULL] array makes the resolver raise when no row
    before it has an example equal to the name; when one has, the
    resolver returns its category and does not read the array. *)
Lemma resolve_null :
  forall name ty pre cs r tl,
    Stored.read pre = Some cs ->
    Stored.row_source_examples r = None ->
    v_best_score (exact_loop name cs best_init) <> 100 ->
    Stored.resolve (pre ++ r :: tl) name ty = Raise foreach_expression_null.
Proof.
  intros name ty pre cs r tl Hpre Hr Hs. unfold Stored.resolve.
  rewrite (exact_loop_app name pre cs (r :: tl) best_init Hpre)
    by (cbn; lia).
  apply Z.eqb_neq in Hs. rewrite Hs. cbn. rewrite Hr. reflexivity.
Qed.

Lemma resolve_exact_before_null :
  forall name ty pre cs tl,
    Stored.read pre = Some cs ->
    v_best_score (exact_loop name cs best_init) = 100 ->
    Stored.resolve (pre ++ tl) name ty
    = Ok (v_best_category_id (exact_loop name cs best_init)).
Proof.
  intros name ty pre cs tl Hpre Hs. unfold Stored.resolve.
  rewrite (exact_loop_app name pre cs tl best_init Hpre) by (cbn; lia).
  rewrite Hs. cbn [Z.eqb Pos.eqb]. rewrite Hs.
  change (100 <? 100) with false. cbn iota. rewrite Hs. reflexivity.
Qed.

(** *** The resolver and the batch on the stored catalog *)

(** C9.  For an account that exists.  On a catalog no row of which has a
    [NULL] array of examples: when the catalog has a category of every
    canonical type, [fn_map_account_to_category] returns the id of a
    category of the catalog, never [NULL]; when the score after the two
    matching passes is below 50 and the catalog has no category of the
    canonical type the fallback selects (in particular when the catalog is
    empty), it raises nothing, returns [NULL] and leaves [NULL] in the
    [mapping_category_id] of the account.  On a catalog with a row whose
    array is [NULL], it raises 'FOREACH expression must not be null' and
    writes nothing when no row before that one has an example equal to
    the name of the account. *)
Theorem resolver_returns_category_or_null :
  forall (s : db) (p : uuid) (a : account),
    find_account (accounts s) (Some p) = Some a ->
    (forall rows,
       Stored.read rows = Some (categories s) ->
       (covers_all_types (categories s) ->
        exists c,
          In c (categories s)
          /\ Stored.fn_map_account_to_category rows (Some p) s
             = (Ok (Some (cat_id c)),
                set_accounts s (update_mapping (accounts s) (Some p)
                                  (Some (cat_id c)))))
       /\ (v_best_score (after_matching (categories s) (acc_name a)) < 50 ->
           (forall c, In c (categories s) ->
                      canonical_type c
                      <> fallback_canonical_type (acc_type a)) ->
           exists s',
             Stored.fn_map_account_to_category rows (Some p) s = (Ok None, s')
             /\ s' = set_accounts s
                       (update_mapping (accounts s) (Some p) None)
             /\ find_account (accounts s') (Some p)
                = Some (with_mapping a None)
             /\ (forall a', In a' (accounts s') -> acc_id a' = p ->
                            mapping_category_id a' = None))
       /\ (rows = [] ->
           Stored.fn_map_account_to_category rows (Some p) s
           = (Ok None,
              set_accounts s (update_mapping (accounts s) (Some p) None))))
    /\ (forall pre cs r tl,
          Stored.read pre = Some cs ->
          Stored.row_source_examples r = None ->
          v_best_score (exact_loop (acc_name a) cs best_init) <> 100 ->
          Stored.fn_map_account_to_category (pre ++ r :: tl) (Some p) s
          = (Raise foreach_expression_null, s)).
Proof.
  intros s p a Hfind. split.
  - intros rows Hread.
    rewrite (fn_map_account_to_category_read rows s (Some p) Hread).
    destruct (fn_map_account_to_category_outcomes s p a Hfind)
      as (H1 & H2 & H3).
    split; [exact H1|]. split; [exact H2|].
    intros ->. apply H3. injection Hread as <-. reflexivity.
  - intros pre cs r tl Hpre Hr Hscore.
    unfold Stored.fn_map_account_to_category, bind, get.
    rewrite Hfind.
    rewrite (resolve_null (acc_name a) (acc_type a) pre cs r tl Hpre Hr
               Hscore).
    reflexivity.
Qed.

(** C10.  On a catalog without [NULL] array, with unique account and
    category ids, [fn_map_company_accounts] returns, for every account of
    the company in turn, one row if the account resolved to a category
    and that category is in [categories], and no row if it resolved to
    [NULL]: the returned table has as many rows as the company has
    accounts that resolved to a category, so fewer rows than accounts as
    soon as one account resolved to [NULL].  Yet every account of the
    company, reported or not, carries afterwards the
    [mapping_category_id] it resolved to. *)
Theorem batch_omits_unresolved_accounts :
  forall (rows : list Stored.category_row) (s : db)
         (p_company_id : option uuid),
    Stored.read rows = Some (categories s) ->
    NoDup (map acc_id (accounts s)) ->
    NoDup (map cat_id (categories s)) ->
    exists out s',
      Stored.fn_map_company_accounts rows p_company_id s = (Ok out, s')
      /\ (forall r, In r out ->
            exists a c,
              In a (company_accounts s p_company_id)
              /\ In c (categories s)
              /\ resolved (categories s) a = Some (cat_id c)
              /\ r_account_id r = acc_id a
              /\ r_category_id r = Some (cat_id c)
              /\ r_category_name r = cat_name c)
      /\ (forall a, In a (company_accounts s p_company_id) ->
                    resolved (categories s) a = None ->
                    forall r, In r out -> r_account_id r <> acc_id a)
      /\ List.length out
         = List.length (filter (fun a => is_some (resolved (categories s) a))
                               (company_accounts s p_company_id))
      /\ (forall a, In a (company_accounts s p_company_id) ->
                    resolved (categories s) a = None ->
                    (List.length out
                     < List.length (company_accounts s p_company_id))%nat)
      /\ categories s' = categories s
      /\ (forall a, In a (company_accounts s p_company_id) ->
                    find_account (accounts s') (Some (acc_id a))
                    = Some (with_mapping a (resolved (categories s) a))).
Proof.
  intros rows s co Hread Hacc Hcat.
  rewrite (fn_map_company_accounts_read rows s co Hread).
  exact (fn_map_company_accounts_partition s co Hacc Hcat).
Qed.

End StoredCatalog.

(** ** The aggregate rows and their version *)

Module StoredAggregation.
Import Aggregation AggregationFacts.

Lemma integer_in_range_spec :
  forall z,
    Stored.integer_in_range z = true <-> -2147483648 <= z <= 2147483647.
Proof.
  intro z. unfold Stored.integer_in_range.
  rewrite andb_true_iff, !Z.leb_le. tauto.
Qed.

Section UpsertChecked.
Variable T : Type.
Variable name : text.
Variables (comps : list uuid) (tbl : list (monthly T)).
Variables (new_id : uuid) (p : params) (tot : T) (now : timestamptz).

Let key : monthly T -> bool := same_key (company_id p) (p_start p).

(** While the version of the row in conflict can be incremented, the
    statement does what [Aggregation.upsert] does. *)
Lemma upsert_in_range :
  (forall r, In r tbl -> key r = true ->
             Stored.integer_in_range (row_version r + 1) = true) ->
  Stored.upsert name comps tbl new_id p tot now
  = match upsert comps tbl new_id p tot now with
    | Some x => Ok x
    | None => Raise (foreign_key_violation name)
    end.
Proof.
  intro H. unfold Stored.upsert, upsert. fold key.
  destruct (find key tbl) as [r0|] eqn:F.
  - apply find_some in F. rewrite (H r0 (proj1 F) (proj2 F)). reflexivity.
  - destruct (existsb (N.eqb (company_id p)) comps); reflexivity.
Qed.

Lemma upsert_out_of_range :
  (List.length (filter key tbl) <= 1)%nat ->
  forall r, In r tbl -> key r = true ->
            Stored.integer_in_range (row_version r + 1) = false ->
            Stored.upsert name comps tbl new_id p tot now
            = Raise integer_out_of_range.
Proof.
  intros Huniq r Hin Hk Hv. unfold Stored.upsert. fold key.
  rewrite find_as_filter.
  assert (Hr : In r (filter key tbl)) by (apply filter_In; auto).
  destruct (filter key tbl) as [|r0 rest]; [contradiction|].
  assert (rest = []) by (destruct rest; [reflexivity|simpl in Huniq; lia]).
  subst rest. destruct Hr as [->|[]]. rewrite Hv. reflexivity.
Qed.

End UpsertChecked.

(** Two statements in a row on a table whose versions are [INTEGER]s. *)
Lemma upsert_versions :
  forall (T : Type) (name : text) comps (tbl : list (monthly T)) new_id
         new_id2 p tot now now2,
    existsb (N.eqb (company_id p)) comps = true ->
    (List.length (filter (same_key (company_id p) (p_start p)) tbl) <= 1)%nat ->
    (forall r, In r tbl -> Stored.integer_in_range (row_version r) = true) ->
    let r1 := row_after tbl new_id p tot now in
    ((forall r, In r tbl -> same_key (company_id p) (p_start p) r = true ->
                row_version r < 2147483647) ->
     exists t1,
       Stored.upsert name comps tbl new_id p tot now = Ok (t1, m_id r1)
       /\ filter (same_key (company_id p) (p_start p)) t1 = [r1]
       /\ filter (fun r => negb (same_key (company_id p) (p_start p) r)) t1
          = filter (fun r => negb (same_key (company_id p) (p_start p) r)) tbl
       /\ (row_version r1 < 2147483647 ->
           exists t2,
             Stored.upsert name comps t1 new_id2 p tot now2
             = Ok (t2, m_id r1)
             /\ filter (same_key (company_id p) (p_start p)) t2
                = [mkMonthly (m_id r1) (company_id p) (p_start p) (p_end p)
                             tot (row_version r1 + 1) now2 (run_id p)]
             /\ filter (fun r => negb (same_key (company_id p) (p_start p) r))
                       t2
                = filter (fun r => negb (same_key (company_id p) (p_start p) r))
                         tbl)
       /\ (row_version r1 = 2147483647 ->
           Stored.upsert name comps t1 new_id2 p tot now2
           = Raise integer_out_of_range))
    /\ (forall r, In r tbl -> same_key (company_id p) (p_start p) r = true ->
                  row_version r = 2147483647 ->
                  Stored.upsert name comps tbl new_id p tot now
                  = Raise integer_out_of_range).
Proof.
  intros T name comps tbl new_id new_id2 p tot now now2 Hco Huniq Hint r1.
  split.
  - intro Hlt.
    destruct (upsert_twice T comps tbl new_id new_id2 p tot now now2 Hco Huniq)
      as (t1 & t2 & Hu1 & Hk1 & Ho1 & Hu2 & Hk2 & Ho2).
    fold r1 in Hu1, Hk1, Hu2, Hk2.
    assert (Hlow : -2147483648 <= row_version r1).
    { unfold r1, row_after.
      destruct (filter (same_key (company_id p) (p_start p)) tbl)
        as [|r0 rest] eqn:F; cbn [row_version]; [lia|].
      assert (Hr0 : In r0 tbl).
      { assert (In r0 (filter (same_key (company_id p) (p_start p)) tbl))
          by (rewrite F; left; reflexivity).
        apply filter_In in H. tauto. }
      apply Hint, integer_in_range_spec in Hr0. lia. }
    assert (Hkey1 : forall r, In r t1 ->
              same_key (company_id p) (p_start p) r = true -> r = r1).
    { intros r Hr Hk.
      assert (In r (filter (same_key (company_id p) (p_start p)) t1))
        by (apply filter_In; auto).
      rewrite Hk1 in H. destruct H as [<-|[]]. reflexivity. }
    exists t1. split; [|split; [exact Hk1|split; [exact Ho1|split]]].
    + rewrite upsert_in_range, Hu1; [reflexivity|].
      intros r Hr Hk. apply integer_in_range_spec.
      pose proof (proj1 (integer_in_range_spec _) (Hint r Hr)).
      pose proof (Hlt r Hr Hk). lia.
    + intro Hlt1. exists t2. split; [|split; [exact Hk2|exact Ho2]].
      rewrite upsert_in_range, Hu2; [reflexivity|].
      intros r Hr Hk. rewrite (Hkey1 r Hr Hk).
      apply integer_in_range_spec. lia.
    + intro Hmax.
      assert (Hin1 : In r1 (filter (same_key (company_id p) (p_start p)) t1))
        by (rewrite Hk1; left; reflexivity).
      apply filter_In in Hin1.
      apply (upsert_out_of_range T name comps t1 new_id2 p tot now2)
        with (r := r1); [rewrite Hk1; simpl; lia|tauto|tauto|].
      rewrite Hmax. reflexivity.
  - intros r Hr Hk Hmax.
    apply (upsert_out_of_range T name comps tbl new_id p tot now Huniq r Hr Hk).
    rewrite Hmax. reflexivity.
Qed.

Lemma fn_generate_monthly_pl_stored :
  forall (now : timestamptz) (new_id c : uuid) (ps pe : date) (run : text)
         (s : db),
    Date.ltb pe ps = false -> run <> ""%string ->
    Stored.fn_generate_monthly_pl now new_id (Some c) (Some ps) (Some pe)
      (Some run) s
    = match Stored.upsert "monthly_pl" (companies s) (monthly_pl s) new_id
              (mkParams c ps pe run)
              (pl_totals_of s (mkParams c ps pe run)) now with
      | Ok (t, v_row_id) => (Ok v_row_id, set_monthly_pl s t)
      | Raise e => (Raise e, s)
      end.
Proof.
  intros now new_id c ps pe run s Hp Hr.
  unfold Stored.fn_generate_monthly_pl, bind.
  rewrite (validate_ok c ps pe run s Hp Hr).
  unfold get. destruct (Stored.upsert _ _ _ _ _ _ _) as [[t i]|e]; reflexivity.
Qed.

Lemma fn_generate_monthly_cash_flow_stored :
  forall (now : timestamptz) (new_id c : uuid) (ps pe : date) (run : text)
         (s : db),
    Date.ltb pe ps = false -> run <> ""%string ->
    Stored.fn_generate_monthly_cash_flow now new_id (Some c) (Some ps)
      (Some pe) (Some run) s
    = match Stored.upsert "monthly_cash_flow" (companies s)
              (monthly_cash_flow s) new_id (mkParams c ps pe run)
              (cf_totals_of s (mkParams c ps pe run)) now with
      | Ok (t, v_row_id) => (Ok v_row_id, set_monthly_cash_flow s t)
      | Raise e => (Raise e, s)
      end.
Proof.
  intros now new_id c ps pe run s Hp Hr.
  unfold Stored.fn_generate_monthly_cash_flow, bind.
  rewrite (validate_ok c ps pe run s Hp Hr).
  unfold get. destruct (Stored.upsert _ _ _ _ _ _ _) as [[t i]|e]; reflexivity.
Qed.

(** C4.  For a company of [companies], a period that does not start after
    it ends and a non-empty run id, on tables that hold at most one row
    for the key (company, period start) and whose versions are
    [INTEGER]s.  While the version of the row of the key is below
    2147483647, the largest [INTEGER], [fn_generate_monthly_pl] returns
    the id of the one row [r1] the key has afterwards in [monthly_pl],
    which is [row_after]: a new row of version 1 when the key had no row,
    and otherwise the row it had, with period end, totals, generation time
    and run id replaced and the version one higher; rows of other keys
    and the other tables are as before.  A second call with the same
    arguments returns the same id and leaves, again, one row for the key,
    with the same totals and the version [row_version r1 + 1], while
    [row_version r1] is below 2147483647.  At the version 2147483647 the
    call raises 'integer out of range' and the database is as before.  The
    same holds of [fn_generate_monthly_cash_flow] on
    [monthly_cash_flow]. *)
Theorem upsert_one_row_per_key :
  forall (now : timestamptz) (new_id : uuid) (now2 : timestamptz)
         (new_id2 : uuid) (c : uuid) (ps pe : date) (run : text) (s : db),
    Date.ltb pe ps = false ->
    run <> ""%string ->
    existsb (N.eqb c) (companies s) = true ->
    (List.length (filter (same_key c ps) (monthly_pl s)) <= 1)%nat ->
    (List.length (filter (same_key c ps) (monthly_cash_flow s)) <= 1)%nat ->
    (forall r, In r (monthly_pl s) ->
               Stored.integer_in_range (row_version r) = true) ->
    (forall r, In r (monthly_cash_flow s) ->
               Stored.integer_in_range (row_version r) = true) ->
    let p := mkParams c ps pe run in
    (let r1 := row_after (monthly_pl s) new_id p (pl_totals_of s p) now in
     ((forall r, In r (monthly_pl s) -> same_key c ps r = true ->
                 row_version r < 2147483647) ->
      exists t1,
        Stored.fn_generate_monthly_pl now new_id (Some c) (Some ps) (Some pe)
          (Some run) s = (Ok (m_id r1), set_monthly_pl s t1)
        /\ filter (same_key c ps) t1 = [r1]
        /\ filter (fun r => negb (same_key c ps r)) t1
           = filter (fun r => negb (same_key c ps r)) (monthly_pl s)
        /\ (row_version r1 < 2147483647 ->
            exists t2,
              Stored.fn_generate_monthly_pl now2 new_id2 (Some c) (Some ps)
                (Some pe) (Some run) (set_monthly_pl s t1)
              = (Ok (m_id r1), set_monthly_pl s t2)
              /\ filter (same_key c ps) t2
                 = [mkMonthly (m_id r1) c ps pe (pl_totals_of s p)
                              (row_version r1 + 1) now2 run]
              /\ filter (fun r => negb (same_key c ps r)) t2
                 = filter (fun r => negb (same_key c ps r)) (monthly_pl s))
        /\ (row_version r1 = 2147483647 ->
            Stored.fn_generate_monthly_pl now2 new_id2 (Some c) (Some ps)
              (Some pe) (Some run) (set_monthly_pl s t1)
            = (Raise integer_out_of_range, set_monthly_pl s t1)))
     /\ (forall r, In r (monthly_pl s) -> same_key c ps r = true ->
                   row_version r = 2147483647 ->
                   Stored.fn_generate_monthly_pl now new_id (Some c) (Some ps)
                     (Some pe) (Some run) s
                   = (Raise integer_out_of_range, s)))
    /\ (let r1 := row_after (monthly_cash_flow s) new_id p (cf_totals_of s p)
                    now in
        ((forall r, In r (monthly_cash_flow s) -> same_key c ps r = true ->
                    row_version r < 2147483647) ->
         exists t1,
           Stored.fn_generate_monthly_cash_flow now new_id (Some c) (Some ps)
             (Some pe) (Some run) s
           = (Ok (m_id r1), set_monthly_cash_flow s t1)
           /\ filter (same_key c ps) t1 = [r1]
           /\ filter (fun r => negb (same_key c ps r)) t1
              = filter (fun r => negb (same_key c ps r)) (monthly_cash_flow s)
           /\ (row_version r1 < 2147483647 ->
               exists t2,
                 Stored.fn_generate_monthly_cash_flow now2 new_id2 (Some c)
                   (Some ps) (Some pe) (Some run) (set_monthly_cash_flow s t1)
                 = (Ok (m_id r1), set_monthly_cash_flow s t2)
                 /\ filter (same_key c ps) t2
                    = [mkMonthly (m_id r1) c ps pe (cf_totals_of s p)
                                 (row_version r1 + 1) now2 run]
                 /\ filter (fun r => negb (same_key c ps r)) t2
                    = filter (fun r => negb (same_key c ps r))
                             (monthly_cash_flow s))
           /\ (row_version r1 = 2147483647 ->
               Stored.fn_generate_monthly_cash_flow now2 new_id2 (Some c)
                 (Some ps) (Some pe) (Some run) (set_monthly_cash_flow s t1)
               = (Raise integer_out_of_range, set_monthly_cash_flow s t1)))
        /\ (forall r, In r (monthly_cash_flow s) -> same_key c ps r = true ->
                      row_version r = 2147483647 ->
                      Stored.fn_generate_monthly_cash_flow now new_id (Some c)
                        (Some ps) (Some pe) (Some run) s
                      = (Raise integer_out_of_range, s))).
Proof.
  intros now new_id now2 new_id2 c ps pe run s Hp Hr Hco Hpl Hcf Hipl Hicf p.
  split.
  - intro r1.
    destruct (upsert_versions pl_totals "monthly_pl" (companies s)
                (monthly_pl s) new_id new_id2 p (pl_totals_of s p) now now2
                Hco Hpl Hipl) as [Hrun Hmax].
    split.
    + intro Hlt. destruct (Hrun Hlt) as (t1 & Hu1 & Hk1 & Ho1 & H2 & H3).
      exists t1.
      rewrite (fn_generate_monthly_pl_stored now new_id c ps pe run s Hp Hr).
      rewrite !(fn_generate_monthly_pl_stored now2 new_id2 c ps pe run _ Hp Hr).
      fold p. cbn [companies monthly_pl set_monthly_pl].
      change (pl_totals_of (set_monthly_pl s t1) p) with (pl_totals_of s p).
      rewrite Hu1. split; [reflexivity|]. split; [exact Hk1|].
      split; [exact Ho1|]. split.
      * intro Hlt1. destruct (H2 Hlt1) as (t2 & Hu2 & Hk2 & Ho2).
        exists t2. rewrite Hu2. repeat split; assumption.
      * intro Hm. rewrite (H3 Hm). reflexivity.
    + intros r Hin Hk Hv.
      rewrite (fn_generate_monthly_pl_stored now new_id c ps pe run s Hp Hr).
      fold p. rewrite (Hmax r Hin Hk Hv). reflexivity.
  - intro r1.
    destruct (upsert_versions cf_totals "monthly_cash_flow" (companies s)
                (monthly_cash_flow s) new_id new_id2 p (cf_totals_of s p) now
                now2 Hco Hcf Hicf) as [Hrun Hmax].
    split.
    + intro Hlt. destruct (Hrun Hlt) as (t1 & Hu1 & Hk1 & Ho1 & H2 & H3).
      exists t1.
      rewrite (fn_generate_monthly_cash_flow_stored now new_id c ps pe run s
                 Hp Hr).
      rewrite !(fn_generate_monthly_cash_flow_stored now2 new_id2 c ps pe run
                  _ Hp Hr).
      fold p. cbn [companies monthly_cash_flow set_monthly_cash_flow].
      change (cf_totals_of (set_monthly_cash_flow s t1) p)
        with (cf_totals_of s p).
      rewrite Hu1. split; [reflexivity|]. split; [exact Hk1|].
      split; [exact Ho1|]. split.
      * intro Hlt1. destruct (H2 Hlt1) as (t2 & Hu2 & Hk2 & Ho2).
        exists t2. rewrite Hu2. repeat split; assumption.
      * intro Hm. rewrite (H3 Hm). reflexivity.
    + intros r Hin Hk Hv.
      rewrite (fn_generate_monthly_cash_flow_stored now new_id c ps pe run s
                 Hp Hr).
      fold p. rewrite (Hmax r Hin Hk Hv). reflexivity.
Qed.

End StoredAggregation.

(** ** The projected amounts and their column *)

Module StoredProjection.
Import Projection ProjectionFacts.

Section Env.
Variables (today : date) (now : timestamptz) (new_id : Z -> uuid).
Variables (c : uuid) (avg_revenue avg_costs : numeric) (months : Z).

Let row (m : Z) : projection :=
  values_row today now new_id c avg_revenue avg_costs months m.

(** The two amounts of the row of an offset can be stored. *)
Definition fits (m : Z) : bool :=
  Stored.fits_numeric_15_2 (revenue_projection (row m))
  && Stored.fits_numeric_15_2 (cost_projection (row m)).

(** While the amounts fit, the loop does what [Projection.for_loop]
    does. *)
Lemma for_loop_fits :
  forall offs n s,
    existsb (N.eqb c) (companies s) = true ->
    forallb fits offs = true ->
    Stored.for_loop today now new_id c avg_revenue avg_costs months offs n s
    = for_loop today now new_id c avg_revenue avg_costs months offs n s.
Proof.
  induction offs as [|m offs IH]; intros n s Hc Hf; [reflexivity|].
  cbn [forallb] in Hf. apply andb_true_iff in Hf. destruct Hf as [Hm Hf].
  unfold fits, row in Hm.
  cbn [Stored.for_loop for_loop]. unfold bind, get, put, when_raise.
  rewrite Hm, Hc. cbn [negb andb]. rewrite andb_false_r.
  unfold ret. apply IH; [exact Hc|exact Hf].
Qed.

(** The loop stops at the first offset whose amounts do not fit. *)
Lemma for_loop_overflow :
  forall offs n s,
    existsb (N.eqb c) (companies s) = true ->
    forallb fits offs = false ->
    fst (Stored.for_loop today now new_id c avg_revenue avg_costs months
           offs n s)
    = Raise numeric_field_overflow.
Proof.
  induction offs as [|m offs IH]; intros n s Hc Hf; [discriminate|].
  cbn [forallb] in Hf.
  cbn [Stored.for_loop]. unfold bind, get, put, when_raise.
  destruct (fits m) eqn:Hm; unfold fits, row in Hm; rewrite Hm.
  - cbn [negb andb] in *. rewrite Hc. rewrite andb_false_r.
    unfold ret. apply IH; [exact Hc|exact Hf].
  - reflexivity.
Qed.

End Env.

(** X20.  Lines 61-125 ([project]): what the function does with the
    averages and the count [v_historical_months] that a [SELECT ... INTO]
    delivers.  With a count of 0 it writes nothing and returns 0.
    Otherwise, for a company of [companies]: when the twenty-four amounts
    fit their [NUMERIC(15,2)] column, it returns 12 after twelve upserts
    into [projections_12m], one per offset 1..12: afterwards the table
    has, for every offset [m], a row of the company with the snapshot date
    and the target month [v_projection_month today m], whose revenue and
    cost projections are the averages times [POWER(1.02, m)], the power
    with sixteen decimals, rounded to two decimals; rows that are not such
    a target and the other tables are as before.  When an amount does not
    fit, it raises 'numeric field overflow'.  The target months are first
    days of a month, the months [m] months after the current one.  With
    averages 1000 and 600, offset 3 gives 1061.21 and 636.72; with the
    average 6999999999933, offset 12 gives 8877692561852.84, where the
    exact power would give 8877692561852.85. *)
Theorem project_twelve_months :
  forall (today : date) (now : timestamptz) (new_id : Z -> uuid) (c : uuid)
         (h : history) (s : db),
    let avg_revenue := COALESCE0 (v_avg_revenue h) in
    let avg_costs := COALESCE0 (v_avg_costs h) in
    let rows := map (values_row today now new_id c avg_revenue avg_costs
                       (v_historical_months h)) offsets_1_12 in
    let written := fold_left upsert rows (projections_12m s) in
    let target (r : projection) :=
      existsb (fun m => same_key (values_row today now new_id c avg_revenue
                                    avg_costs (v_historical_months h) m) r)
              offsets_1_12 in
    let all_fit :=
      forallb (fits today now new_id c avg_revenue avg_costs
                 (v_historical_months h)) offsets_1_12 in
    (v_historical_months h = 0 ->
     Stored.project today now new_id c h s = (Ok 0, s))
    /\ (v_historical_months h <> 0 ->
        existsb (N.eqb c) (companies s) = true ->
        all_fit = true ->
        Stored.project today now new_id c h s
        = (Ok 12, set_projections s written)
        /\ List.length rows = 12%nat
        /\ (forall m, 1 <= m <= 12 ->
              exists r,
                In r written
                /\ p_company_id r = c
                /\ snapshot_date r = today
                /\ p_month r = v_projection_month today m
                /\ revenue_projection r
                   = ROUND (avg_revenue * POWER v_growth_rate m) 2
                /\ cost_projection r
                   = ROUND (avg_costs * POWER v_growth_rate m) 2)
        /\ filter (fun r => negb (target r)) written
           = filter (fun r => negb (target r)) (projections_12m s))
    /\ (v_historical_months h <> 0 ->
        existsb (N.eqb c) (companies s) = true ->
        all_fit = false ->
        fst (Stored.project today now new_id c h s)
        = Raise numeric_field_overflow)
    /\ (forall m, day (v_projection_month today m) = 1
                  /\ 1 <= month (v_projection_month today m) <= 12
                  /\ month_index (v_projection_month today m)
                     = month_index today + m)
    /\ v_growth_rate = 1.02%Q
    /\ POWER v_growth_rate 12 = 1.2682417945625453%Q
    /\ ROUND (1000 * POWER v_growth_rate 3) 2 = 1061.21%Q
    /\ ROUND (600 * POWER v_growth_rate 3) 2 = 636.72%Q
    /\ ROUND (6999999999933 * POWER v_growth_rate 12) 2
       = 8877692561852.84%Q
    /\ ROUND (6999999999933 * Qpower v_growth_rate 12) 2
       = 8877692561852.85%Q
    /\ Stored.fits_numeric_15_2 9999999999999.99 = true
    /\ Stored.fits_numeric_15_2 (-9999999999999.99) = true
    /\ Stored.fits_numeric_15_2 10000000000000 = false.
Proof.
  intros today now new_id c h s avg_revenue avg_costs rows written target
    all_fit.
  destruct (project_writes_twelve_months today now new_id c h s)
    as (H0 & H12 & Hdates & _).
  split; [|split; [|split; [|split]]].
  - intro Hz. unfold Stored.project. rewrite Hz. reflexivity.
  - intros Hn Hc Hfit.
    replace (Stored.project today now new_id c h s)
      with (project today now new_id c h s); [exact (H12 Hn)|].
    unfold Stored.project, project.
    destruct (v_historical_months h =? 0); [reflexivity|].
    symmetry. apply for_loop_fits; assumption.
  - intros Hn Hc Hfit. unfold Stored.project.
    apply Z.eqb_neq in Hn. rewrite Hn.
    apply for_loop_overflow; assumption.
  - exact Hdates.
  - repeat split; vm_compute; reflexivity.
Qed.

End StoredProjection.

(** ** The theorems at concrete inputs *)

Module Instances.
Import Mapping Aggregation.
Import MappingFacts AggregationFacts AggregationValidation.

(** The seeded catalog with four accounts of company 1 and one of
    company 2. *)
Definition books : db :=
  mkDb [1%N; 2%N] seed_categories
    [ mkAccount 11 1 "q-1" "COST OF SALES" "Cost of Goods Sold" None None;
      mkAccount 12 1 "q-2" "Checking - Chase" "Bank" None (Some 3%N);
      mkAccount 13 1 "q-3" "Zzz" "Long Term Liability" None None;
      mkAccount 14 1 "q-4" "Qqq" "Non-Posting" None None;
      mkAccount 15 2 "q-1" "Sales" "Income" None None ]
    [] [] [] [].

Lemma books_account_ids : NoDup (map acc_id (accounts books)).
Proof.
  simpl. repeat (constructor; [simpl; intuition discriminate|]). constructor.
Defined.

Lemma seed_category_ids : NoDup (map cat_id seed_categories).
Proof.
  simpl. repeat (constructor; [simpl; intuition discriminate|]). constructor.
Defined.


Lemma seed_covers_all_types : covers_all_types seed_categories.
Proof.
  intros ty Hty. simpl in Hty.
  destruct Hty as [<-|[<-|[<-|[<-|[<-|[<-|[]]]]]]];
    [ exists (nth 0 seed_categories (mkCategory 0 "" "" []))
    | exists (nth 1 seed_categories (mkCategory 0 "" "" []))
    | exists (nth 2 seed_categories (mkCategory 0 "" "" []))
    | exists (nth 3 seed_categories (mkCategory 0 "" "" []))
    | exists (nth 4 seed_categories (mkCategory 0 "" "" []))
    | exists (nth 5 seed_categories (mkCategory 0 "" "" [])) ];
    (split; [simpl; auto 10|reflexivity]).
Defined.


(** C8 at a period that starts after it ends. *)
Lemma invalid_arguments_rejected_unchanged_witness :
  exists e,
    kind_of e = InvalidArgument
    /\ fn_generate_monthly_pl 5 77 (Some 1%N) (Some (mkDate 2025 2 1))
         (Some (mkDate 2025 1 31)) (Some "run-1"%string) sign_example
       = (Raise e, sign_example)
    /\ fn_generate_monthly_cash_flow 5 77 (Some 1%N) (Some (mkDate 2025 2 1))
         (Some (mkDate 2025 1 31)) (Some "run-1"%string) sign_example
       = (Raise e, sign_example).
Proof.
  apply (invalid_arguments_rejected_unchanged 5 77 (Some 1%N)
           (Some (mkDate 2025 2 1)) (Some (mkDate 2025 1 31))
           (Some "run-1"%string) sign_example).
  unfold invalid_arguments. right. right. right. left.
  exists (mkDate 2025 2 1), (mkDate 2025 1 31).
  split; [reflexivity|]. split; reflexivity.
Defined.


(** The accounts of [books], and one more, on a catalog that has the
    first two seeded categories only. *)
Definition partial_books : db :=
  mkDb [1%N; 2%N] (firstn 2 seed_categories)
    [ mkAccount 11 1 "q-1" "COST OF SALES" "Cost of Goods Sold" None None;
      mkAccount 12 1 "q-2" "Checking - Chase" "Bank" None (Some 1%N);
      mkAccount 13 1 "q-3" "Zzz" "Long Term Liability" None None;
      mkAccount 14 1 "q-4" "Qqq" "Non-Posting" None None;
      mkAccount 16 1 "q-5" "Consulting" "Income" None (Some 2%N);
      mkAccount 15 2 "q-1" "Sales" "Income" None None ]
    [] [] [] [].

(** The seeded catalog after
    [INSERT INTO categories (name, canonical_type, source_examples)
     VALUES ('Uncategorised', 'opex', NULL)]. *)
Definition catalog_with_null_row : list Stored.category_row :=
  (map Stored.stored seed_categories
   ++ [Stored.mkRow 7 "Uncategorised" "opex" None])%list.

(** [sign_example] after a run for January 2025 that left the version
    41. *)
Definition rerun_example : db :=
  set_monthly_pl sign_example
    [mkMonthly 77 1 (mkDate 2025 1 1) (mkDate 2025 1 31)
       (mkPlTotals (Some 100%Q) (Some (-30)%Q) (Some (-20)%Q)) 41 5 "run-1"].

(** The same with the largest version an [INTEGER] column holds. *)
Definition last_version_example : db :=
  set_monthly_pl sign_example
    [mkMonthly 77 1 (mkDate 2025 1 1) (mkDate 2025 1 31)
       (mkPlTotals (Some 100%Q) (Some (-30)%Q) (Some (-20)%Q)) 2147483647 5
       "run-1"].

Lemma partial_books_account_ids : NoDup (map acc_id (accounts partial_books)).
Proof.
  simpl. repeat (constructor; [simpl; intuition discriminate|]). constructor.
Defined.

Lemma partial_books_category_ids :
  NoDup (map cat_id (categories partial_books)).
Proof.
  simpl. repeat (constructor; [simpl; intuition discriminate|]). constructor.
Defined.


(** C9 at the account [Qqq] of type [Non-Posting], which matches no
    example: on the seeded catalog it gets a category; on the catalog of
    [partial_books], which has no category of type opex, [NULL]; on the
    catalog with a [NULL] array the function raises. *)
Lemma resolver_returns_category_or_null_witness :
  (exists c,
     In c seed_categories
     /\ Stored.fn_map_account_to_category (map Stored.stored seed_categories)
          (Some 14%N) books
        = (Ok (Some (cat_id c)),
           set_accounts books
             (update_mapping (accounts books) (Some 14%N) (Some (cat_id c)))))
  /\ (exists s',
        Stored.fn_map_account_to_category
          (map Stored.stored (categories partial_books)) (Some 14%N)
          partial_books
        = (Ok None, s')
        /\ find_account (accounts s') (Some 14%N)
           = Some (mkAccount 14 1 "q-4" "Qqq" "Non-Posting" None None))
  /\ Stored.fn_map_account_to_category catalog_with_null_row (Some 14%N) books
     = (Raise foreach_expression_null, books).
Proof.
  split; [|split].
  - apply (proj1 (StoredCatalog.resolver_returns_category_or_null books 14%N
                    (mkAccount 14 1 "q-4" "Qqq" "Non-Posting" None None)
                    eq_refl)
             (map Stored.stored seed_categories)
             (StoredCatalog.read_stored seed_categories)).
    exact seed_covers_all_types.
  - destruct (StoredCatalog.resolver_returns_category_or_null partial_books
                14%N (mkAccount 14 1 "q-4" "Qqq" "Non-Posting" None None)
                eq_refl) as [H _].
    destruct (H (map Stored.stored (categories partial_books))
                (StoredCatalog.read_stored (categories partial_books)))
      as (_ & Hnull & _).
    destruct Hnull as (s' & Hrun & _ & Hfind & _).
    + vm_compute. reflexivity.
    + intros c Hc. simpl in Hc.
      destruct Hc as [<-|[<-|[]]]; vm_compute; discriminate.
    + exists s'. split; [exact Hrun|exact Hfind].
  - apply (proj2 (StoredCatalog.resolver_returns_category_or_null books 14%N
             (mkAccount 14 1 "q-4" "Qqq" "Non-Posting" None None)
             eq_refl) (map Stored.stored seed_categories) seed_categories
             (Stored.mkRow 7 "Uncategorised" "opex" None) []
             (StoredCatalog.read_stored seed_categories) eq_refl).
    vm_compute. discriminate.
Defined.

(** C9 needs its condition on the arrays.  On a catalog that has a
    category of every canonical type and a row whose array of examples is
    [NULL], the function raises for the account [Qqq], which exists, and
    returns no category. *)
Lemma null_examples_row_raises :
  (forall ty, In ty six_types ->
              exists r, In r catalog_with_null_row
                        /\ Stored.row_canonical_type r = ty)
  /\ find_account (accounts books) (Some 14%N)
     = Some (mkAccount 14 1 "q-4" "Qqq" "Non-Posting" None None)
  /\ Stored.fn_map_account_to_category catalog_with_null_row (Some 14%N) books
     = (Raise foreach_expression_null, books)
  /\ ~ (exists v s',
          Stored.fn_map_account_to_category catalog_with_null_row (Some 14%N)
            books
          = (Ok (Some v), s')).
Proof.
  assert (Hrun :
    Stored.fn_map_account_to_category catalog_with_null_row (Some 14%N) books
    = (Raise foreach_expression_null, books)) by (vm_compute; reflexivity).
  split; [|split; [reflexivity|split; [exact Hrun|]]].
  - intros ty Hty. destruct (seed_covers_all_types ty Hty) as (c & Hc & Hct).
    exists (Stored.stored c). split; [|exact Hct].
    apply in_or_app. left. apply in_map. exact Hc.
  - intros (v & s' & H). rewrite Hrun in H. discriminate.
Qed.

(** C10 on [partial_books]: of the five accounts of company 1 two resolve
    to a category and are reported, three resolve to [NULL] and are not;
    all five carry afterwards what they resolved to. *)
Lemma batch_omits_unresolved_accounts_witness :
  exists s',
    Stored.fn_map_company_accounts
      (map Stored.stored (categories partial_books)) (Some 1%N) partial_books
    = (Ok [mkMappingRow 11 "COST OF SALES" (Some 2%N) "Cost of Goods Sold"
                        "auto_mapped";
           mkMappingRow 16 "Consulting" (Some 1%N) "Revenue"
                        "already_mapped"],
       s')
    /\ List.length (company_accounts partial_books (Some 1%N)) = 5%nat
    /\ map (fun a => (acc_id a, mapping_category_id a)) (accounts s')
       = [(11%N, Some 2%N); (12%N, None); (13%N, None); (14%N, None);
          (16%N, Some 1%N); (15%N, None)]
    /\ (forall a, In a (company_accounts partial_books (Some 1%N)) ->
                  find_account (accounts s') (Some (acc_id a))
                  = Some (with_mapping a
                            (resolved (categories partial_books) a))).
Proof.
  destruct (StoredCatalog.batch_omits_unresolved_accounts
              (map Stored.stored (categories partial_books)) partial_books
              (Some 1%N) (StoredCatalog.read_stored (categories partial_books))
              partial_books_account_ids partial_books_category_ids)
    as (out & s' & Hrun & _ & _ & _ & _ & _ & Hupd).
  exists s'.
  assert (Hc :
    Stored.fn_map_company_accounts
      (map Stored.stored (categories partial_books)) (Some 1%N) partial_books
    = (Ok [mkMappingRow 11 "COST OF SALES" (Some 2%N) "Cost of Goods Sold"
                        "auto_mapped";
           mkMappingRow 16 "Consulting" (Some 1%N) "Revenue"
                        "already_mapped"],
       set_accounts partial_books
         [ mkAccount 11 1 "q-1" "COST OF SALES" "Cost of Goods Sold" None
                     (Some 2%N);
           mkAccount 12 1 "q-2" "Checking - Chase" "Bank" None None;
           mkAccount 13 1 "q-3" "Zzz" "Long Term Liability" None None;
           mkAccount 14 1 "q-4" "Qqq" "Non-Posting" None None;
           mkAccount 16 1 "q-5" "Consulting" "Income" None (Some 1%N);
           mkAccount 15 2 "q-1" "Sales" "Income" None None ]))
    by (vm_compute; reflexivity).
  rewrite Hc in Hrun. injection Hrun as <- <-.
  split; [reflexivity|]. split; [reflexivity|]. split; [reflexivity|].
  exact Hupd.
Defined.

(** C4 on [rerun_example]: the row of January 2025 in [monthly_pl] goes
    from version 41 to 42 and then to 43 under the id it had, while
    [monthly_cash_flow], which is empty, gets a row of version 1 and then
    2 under the id 78; on [last_version_example] the call raises. *)
Lemma upsert_one_row_per_key_witness :
  (exists t1 t2,
     Stored.fn_generate_monthly_pl 6 78 (Some 1%N) (Some (mkDate 2025 1 1))
       (Some (mkDate 2025 1 31)) (Some "run-2"%string) rerun_example
     = (Ok 77%N, set_monthly_pl rerun_example t1)
     /\ filter (same_key 1 (mkDate 2025 1 1)) t1
        = [mkMonthly 77 1 (mkDate 2025 1 1) (mkDate 2025 1 31)
             (mkPlTotals (Some 100%Q) (Some (-30)%Q) (Some (-20)%Q))
             42 6 "run-2"]
     /\ Stored.fn_generate_monthly_pl 7 79 (Some 1%N) (Some (mkDate 2025 1 1))
          (Some (mkDate 2025 1 31)) (Some "run-2"%string)
          (set_monthly_pl rerun_example t1)
        = (Ok 77%N, set_monthly_pl rerun_example t2)
     /\ filter (same_key 1 (mkDate 2025 1 1)) t2
        = [mkMonthly 77 1 (mkDate 2025 1 1) (mkDate 2025 1 31)
             (mkPlTotals (Some 100%Q) (Some (-30)%Q) (Some (-20)%Q))
             43 7 "run-2"])
  /\ (exists t1 t2,
        Stored.fn_generate_monthly_cash_flow 6 78 (Some 1%N)
          (Some (mkDate 2025 1 1)) (Some (mkDate 2025 1 31))
          (Some "run-2"%string) rerun_example
        = (Ok 78%N, set_monthly_cash_flow rerun_example t1)
        /\ filter (same_key 1 (mkDate 2025 1 1)) t1
           = [mkMonthly 78 1 (mkDate 2025 1 1) (mkDate 2025 1 31)
                        (mkCfTotals 50 0 0) 1 6 "run-2"]
        /\ Stored.fn_generate_monthly_cash_flow 7 79 (Some 1%N)
             (Some (mkDate 2025 1 1)) (Some (mkDate 2025 1 31))
             (Some "run-2"%string) (set_monthly_cash_flow rerun_example t1)
           = (Ok 78%N, set_monthly_cash_flow rerun_example t2)
        /\ filter (same_key 1 (mkDate 2025 1 1)) t2
           = [mkMonthly 78 1 (mkDate 2025 1 1) (mkDate 2025 1 31)
                        (mkCfTotals 50 0 0) 2 7 "run-2"])
  /\ Stored.fn_generate_monthly_pl 6 78 (Some 1%N) (Some (mkDate 2025 1 1))
       (Some (mkDate 2025 1 31)) (Some "run-2"%string) last_version_example
     = (Raise integer_out_of_range, last_version_example).
Proof.
  assert (Hne : "run-2"%string <> ""%string) by discriminate.
  assert (Hpl : (List.length (filter (same_key 1 (mkDate 2025 1 1))
                                     (monthly_pl rerun_example)) <= 1)%nat)
    by (simpl; lia).
  assert (Hcf : (List.length (filter (same_key 1 (mkDate 2025 1 1))
                                     (monthly_cash_flow rerun_example))
                 <= 1)%nat)
    by (simpl; lia).
  assert (Hipl : forall r, In r (monthly_pl rerun_example) ->
                           Stored.integer_in_range (row_version r) = true)
    by (intros r [<-|[]]; reflexivity).
  assert (Hicf : forall r, In r (monthly_cash_flow rerun_example) ->
                           Stored.integer_in_range (row_version r) = true)
    by (intros r []).
  destruct (StoredAggregation.upsert_one_row_per_key 6 78 7 79 1%N
              (mkDate 2025 1 1) (mkDate 2025 1 31) "run-2"%string
              rerun_example eq_refl Hne eq_refl Hpl Hcf Hipl Hicf)
    as [[Hp _] [Hc _]].
  split; [|split].
  - destruct Hp as (t1 & H1 & H2 & _ & H3 & _).
    + intros r [<-|[]] _. reflexivity.
    + destruct H3 as (t2 & H3 & H4 & _); [reflexivity|].
      exists t1, t2. split; [exact H1|]. split; [exact H2|].
      split; [exact H3|exact H4].
  - destruct Hc as (t1 & H1 & H2 & _ & H3 & _).
    + intros r [].
    + destruct H3 as (t2 & H3 & H4 & _); [reflexivity|].
      exists t1, t2. split; [exact H1|]. split; [exact H2|].
      split; [exact H3|exact H4].
  - assert (Hpl' : (List.length (filter (same_key 1 (mkDate 2025 1 1))
                                        (monthly_pl last_version_example))
                    <= 1)%nat)
      by (simpl; lia).
    assert (Hipl' : forall r, In r (monthly_pl last_version_example) ->
                              Stored.integer_in_range (row_version r) = true)
      by (intros r [<-|[]]; reflexivity).
    destruct (StoredAggregation.upsert_one_row_per_key 6 78 7 79 1%N
                (mkDate 2025 1 1) (mkDate 2025 1 31) "run-2"%string
                last_version_example eq_refl Hne eq_refl Hpl' Hcf Hipl' Hicf)
      as [[_ Hmax] _].
    apply (Hmax (mkMonthly 77 1 (mkDate 2025 1 1) (mkDate 2025 1 31)
                   (mkPlTotals (Some 100%Q) (Some (-30)%Q) (Some (-20)%Q))
                   2147483647 5 "run-1")).
    + left. reflexivity.
    + reflexivity.
    + reflexivity.
Defined.

(** C4 needs its bound on the version.  The row of the key has the
    version 2147483647: the re-run raises, and no row has the version
    2147483648 afterwards. *)
Lemma rerun_at_largest_version_raises :
  filter (same_key 1 (mkDate 2025 1 1)) (monthly_pl last_version_example)
  = [mkMonthly 77 1 (mkDate 2025 1 1) (mkDate 2025 1 31)
       (mkPlTotals (Some 100%Q) (Some (-30)%Q) (Some (-20)%Q)) 2147483647 5
       "run-1"]
  /\ Stored.integer_in_range 2147483647 = true
  /\ Stored.fn_generate_monthly_pl 6 78 (Some 1%N) (Some (mkDate 2025 1 1))
       (Some (mkDate 2025 1 31)) (Some "run-2"%string) last_version_example
     = (Raise integer_out_of_range, last_version_example)
  /\ ~ (exists id s',
          Stored.fn_generate_monthly_pl 6 78 (Some 1%N)
            (Some (mkDate 2025 1 1)) (Some (mkDate 2025 1 31))
            (Some "run-2"%string) last_version_example
          = (Ok id, s')
          /\ exists r, In r (monthly_pl s')
                       /\ row_version r = 2147483647 + 1).
Proof.
  assert (Hrun :
    Stored.fn_generate_monthly_pl 6 78 (Some 1%N) (Some (mkDate 2025 1 1))
      (Some (mkDate 2025 1 31)) (Some "run-2"%string) last_version_example
    = (Raise integer_out_of_range, last_version_example))
    by (vm_compute; reflexivity).
  split; [reflexivity|]. split; [reflexivity|]. split; [exact Hrun|].
  intros (id & s' & H & _). rewrite Hrun in H. discriminate.
Qed.


End Instances.

(** * Further properties *)

(** ** Override, unmapped accounts and the batch *)

Module OverrideFacts.
Import Mapping MappingFacts Override.

(** *** The override *)

Lemma update_mapping_absent :
  forall accs p v,
    account_found accs p = false -> update_mapping accs p v = accs.
Proof.
  intros accs p v H. unfold update_mapping, account_found in *.
  induction accs as [|a accs IH]; [reflexivity|].
  simpl in *. apply orb_false_iff in H. destruct H as [Ha Hr].
  rewrite Ha, (IH Hr). reflexivity.
Qed.

Lemma set_accounts_same : forall s, set_accounts s (accounts s) = s.
Proof. intros []. reflexivity. Qed.

Lemma category_exists_in :
  forall cats p,
    category_exists cats p = true <->
    exists c, In c cats /\ p = Some (cat_id c).
Proof.
  intros cats p. unfold category_exists. rewrite existsb_exists. split.
  - intros (c & Hc & He). exists c. split; [exact Hc|].
    destruct p as [i|]; [|discriminate]. simpl in He.
    apply N.eqb_eq in He. congruence.
  - intros (c & Hc & ->). exists c. split; [exact Hc|].
    simpl. apply N.eqb_refl.
Qed.

Lemma account_found_find :
  forall accs p,
    account_found accs p = true <-> exists a, find_account accs p = Some a.
Proof.
  intros accs p. unfold account_found, find_account. split.
  - intro H. apply existsb_exists in H. destruct H as (a & Ha & He).
    destruct (find _ accs) as [b|] eqn:F; [exists b; reflexivity|].
    rewrite (find_none _ _ F a Ha) in He. discriminate.
  - intros (a & F). apply find_some in F. apply existsb_exists.
    exists a. exact F.
Qed.

(** X1.  The three outcomes of [fn_set_account_mapping].  A category id that
    is [NULL] or not in the catalog is refused first, whatever the
    account; then an account id that no row has; in both cases the
    database is as before.  Otherwise the function returns [TRUE], every
    row with the account id carries the category, and the other rows and
    tables are as before. *)
Theorem set_account_mapping_outcomes :
  forall (p_account_id p_category_id : option uuid) (s : db),
    let r := fn_set_account_mapping p_account_id p_category_id s in
    (category_exists (categories s) p_category_id = false ->
     r = (inl (category_does_not_exist p_category_id), s))
    /\ (category_exists (categories s) p_category_id = true ->
        find_account (accounts s) p_account_id = None ->
        r = (inl (raised (account_not_found p_account_id)), s))
    /\ (category_exists (categories s) p_category_id = true ->
        forall a, find_account (accounts s) p_account_id = Some a ->
        exists c,
          In c (categories s) /\ p_category_id = Some (cat_id c)
          /\ r = (inr true,
                  set_accounts s (update_mapping (accounts s) p_account_id
                                    (Some (cat_id c))))
          /\ find_account (accounts (snd r)) p_account_id
             = Some (with_mapping a (Some (cat_id c)))
          /\ (forall a', In a' (accounts (snd r)) ->
                         ref_eqb p_account_id (acc_id a') = true ->
                         mapping_category_id a' = Some (cat_id c))
          /\ (forall a', In a' (accounts (snd r)) ->
                         ref_eqb p_account_id (acc_id a') = false ->
                         In a' (accounts s))).
Proof.
  intros p q s r. subst r. unfold fn_set_account_mapping.
  split; [|split].
  - intro H. rewrite H. reflexivity.
  - intros H F. rewrite H. cbn [negb].
    assert (Hf : account_found (accounts s) p = false).
    { destruct (account_found (accounts s) p) eqn:E; [|reflexivity].
      apply account_found_find in E. destruct E as (a & Ha). congruence. }
    rewrite Hf. cbn [negb]. rewrite (update_mapping_absent _ _ _ Hf).
    rewrite set_accounts_same. reflexivity.
  - intros H a F. rewrite H. cbn [negb].
    assert (Hf : account_found (accounts s) p = true)
      by (apply account_found_find; exists a; exact F).
    rewrite Hf. cbn [negb].
    apply category_exists_in in H. destruct H as (c & Hc & ->).
    exists c. split; [exact Hc|]. split; [reflexivity|].
    split; [reflexivity|]. cbn [snd accounts set_accounts].
    split; [|split].
    + rewrite find_account_update, F. cbn [option_map].
      assert (E : ref_eqb p (acc_id a) = true).
      { unfold find_account in F. apply find_some in F. tauto. }
      rewrite E. reflexivity.
    + intros a' Ha' E. unfold update_mapping in Ha'.
      apply in_map_iff in Ha'. destruct Ha' as (b & <- & Hb).
      destruct (ref_eqb p (acc_id b)) eqn:Eb; [reflexivity|].
      congruence.
    + intros a' Ha' E. unfold update_mapping in Ha'.
      apply in_map_iff in Ha'. destruct Ha' as (b & <- & Hb).
      destruct (ref_eqb p (acc_id b)) eqn:Eb; [|exact Hb].
      cbn [with_mapping acc_id] in E. congruence.
Qed.

(** *** The unmapped accounts *)

Section Collation.
Variable name_leb : text -> text -> bool.

Lemma insert_by_name_perm :
  forall a l, Permutation (insert_by_name name_leb a l) (a :: l).
Proof.
  intros a l. induction l as [|b l IH]; simpl.
  - apply Permutation_refl.
  - destruct (name_leb (acc_name a) (acc_name b)).
    + apply Permutation_refl.
    + apply perm_trans with (b :: a :: l).
      * apply perm_skip. exact IH.
      * apply perm_swap.
Qed.

Lemma order_by_name_perm :
  forall l, Permutation (order_by_name name_leb l) l.
Proof.
  induction l as [|a l IH]; simpl.
  - apply perm_nil.
  - apply perm_trans with (a :: order_by_name name_leb l).
    + apply insert_by_name_perm.
    + apply perm_skip. exact IH.
Qed.

Lemma unmapped_perm :
  forall co s,
    Permutation (fn_get_unmapped_accounts name_leb co s)
                (map unmapped_row_of (filter (is_unmapped co) (accounts s))).
Proof.
  intros co s. unfold fn_get_unmapped_accounts.
  apply Permutation_map. apply order_by_name_perm.
Qed.

Lemma in_unmapped :
  forall co s r,
    In r (fn_get_unmapped_accounts name_leb co s) <->
    exists a, In a (accounts s) /\ is_unmapped co a = true
              /\ r = unmapped_row_of a.
Proof.
  intros co s r. split.
  - intro H. apply (Permutation_in _ (unmapped_perm co s)) in H.
    apply in_map_iff in H. destruct H as (a & <- & Ha).
    apply filter_In in Ha. exists a. tauto.
  - intros (a & Ha & Hu & ->).
    apply (Permutation_in _ (Permutation_sym (unmapped_perm co s))).
    apply in_map. apply filter_In. tauto.
Qed.

(** X2.  After a successful override the account is no longer reported as
    unmapped, for any company, and the report of the other accounts is
    as before. *)
Theorem override_leaves_unmapped_report :
  forall (p_account_id p_category_id : option uuid) (s s' : db),
    fn_set_account_mapping p_account_id p_category_id s = (inr true, s') ->
    forall co r,
      In r (fn_get_unmapped_accounts name_leb co s') <->
      In r (fn_get_unmapped_accounts name_leb co s)
      /\ ref_eqb p_account_id (u_account_id r) = false.
Proof.
  intros p q s s' Hrun co r.
  unfold fn_set_account_mapping in Hrun.
  destruct (category_exists (categories s) q) eqn:Hq; [|discriminate].
  cbn [negb] in Hrun.
  destruct (account_found (accounts s) p); [|discriminate].
  cbn [negb] in Hrun. injection Hrun as <-.
  apply category_exists_in in Hq. destruct Hq as (c & _ & ->).
  rewrite !in_unmapped. cbn [accounts set_accounts]. split.
  - intros (a' & Ha' & Hu & ->). unfold update_mapping in Ha'.
    apply in_map_iff in Ha'. destruct Ha' as (a & <- & Ha).
    destruct (ref_eqb p (acc_id a)) eqn:E.
    + unfold is_unmapped in Hu. cbn in Hu.
      rewrite andb_false_r in Hu. discriminate.
    + split; [|exact E]. exists a. auto.
  - intros ((a & Ha & Hu & ->) & E). cbn in E.
    exists a. split; [|auto]. unfold update_mapping.
    apply in_map_iff. exists a. rewrite E. auto.
Qed.

(** The accounts the batch leaves unmapped are the ones it did not
    report, on a catalog as [Mapping] reads it: with unique account and
    category ids, the rows it returns and the rows
    [fn_get_unmapped_accounts] returns afterwards are together as many as
    the company has accounts; an account is unmapped afterwards exactly
    when it resolved to [NULL]; and none is when the catalog has a
    category of every canonical type. *)
Lemma fn_map_company_accounts_then_unmapped :
  forall (s : db) (co : option uuid),
    NoDup (map acc_id (accounts s)) ->
    NoDup (map cat_id (categories s)) ->
    exists rows s',
      fn_map_company_accounts co s = (Ok rows, s')
      /\ (List.length rows
          + List.length (fn_get_unmapped_accounts name_leb co s')
          = List.length (company_accounts s co))%nat
      /\ (forall r,
            In r (fn_get_unmapped_accounts name_leb co s') <->
            exists a, In a (company_accounts s co)
                      /\ resolved (categories s) a = None
                      /\ r = unmapped_row_of a)
      /\ (covers_all_types (categories s) ->
          fn_get_unmapped_accounts name_leb co s' = []).
Proof.
  intros s co Hacc Hcat.
  rewrite (fn_map_company_accounts_spec s co Hacc).
  eexists. eexists. split; [reflexivity|].
  assert (Hin : forall r,
    In r (fn_get_unmapped_accounts name_leb co
            (set_accounts s (remapped s co))) <->
    exists a, In a (company_accounts s co)
              /\ resolved (categories s) a = None
              /\ r = unmapped_row_of a).
  { intro r. rewrite in_unmapped. cbn [accounts set_accounts].
    unfold remapped, company_accounts. split.
    - intros (a' & Ha' & Hu & ->). apply in_map_iff in Ha'.
      destruct Ha' as (a & <- & Ha).
      destruct (ref_eqb co (acc_company_id a)) eqn:E.
      + unfold is_unmapped in Hu. cbn in Hu. rewrite E in Hu. cbn in Hu.
        destruct (resolved (categories s) a) eqn:R; [discriminate|].
        exists a. split; [apply filter_In; auto|]. auto.
      + unfold is_unmapped in Hu. rewrite E in Hu. discriminate.
    - intros (a & Ha & R & ->). apply filter_In in Ha.
      destruct Ha as [Ha E].
      exists (with_mapping a None). split.
      + apply in_map_iff. exists a. rewrite E, R. auto.
      + split; [|reflexivity]. unfold is_unmapped. cbn. rewrite E.
        reflexivity. }
  split; [|split; [exact Hin|]].
  - rewrite (flat_map_length_filter _ _ _
               (fun a => is_some (resolved (categories s) a)))
      by (intros a _; apply return_query_length; exact Hcat).
    rewrite (Permutation_length (unmapped_perm co _)). rewrite length_map.
    cbn [accounts set_accounts]. unfold remapped, company_accounts.
    induction (accounts s) as [|a accs IH]; [reflexivity|].
    cbn [map filter]. unfold is_unmapped at 1.
    destruct (ref_eqb co (acc_company_id a)) eqn:E.
    + cbn [filter with_mapping acc_company_id mapping_category_id].
      rewrite E. cbn [andb].
      destruct (resolved (categories s) a); cbn [is_some List.length];
        [inversion Hacc; subst; specialize (IH H2)
        |inversion Hacc; subst; specialize (IH H2)];
        cbn [List.length]; lia.
    + rewrite E. cbn [andb]. inversion Hacc; subst. exact (IH H2).
  - intro Hcov.
    destruct (fn_get_unmapped_accounts name_leb co
                (set_accounts s (remapped s co))) as [|r l] eqn:E;
      [reflexivity|].
    exfalso.
    destruct (proj1 (Hin r) (or_introl eq_refl)) as (a & _ & R & _).
    destruct (resolve_some (categories s) (acc_name a) (acc_type a) Hcov)
      as (c & _ & Hc).
    unfold resolved in R. congruence.
Qed.

End Collation.

(** *** Re-running the resolver and the batch *)


Lemma update_mapping_ids :
  forall accs p v, map acc_id (update_mapping accs p v) = map acc_id accs.
Proof.
  intros accs p v. unfold update_mapping. rewrite map_map.
  apply map_ext. intro a. destruct (ref_eqb p (acc_id a)); reflexivity.
Qed.












(** *** The foreign key of [accounts.mapping_category_id] *)

(** [mapping_category_id UUID REFERENCES categories(id)]: a mapping that
    is not [NULL] is the id of a category of the catalog. *)
Definition mappings_valid (s : db) : Prop :=
  forall a i,
    In a (accounts s) -> mapping_category_id a = Some i ->
    exists c, In c (categories s) /\ cat_id c = i.

Lemma update_mapping_valid :
  forall s p v,
    mappings_valid s ->
    (forall i, v = Some i -> exists c, In c (categories s) /\ cat_id c = i) ->
    mappings_valid (set_accounts s (update_mapping (accounts s) p v)).
Proof.
  intros s p v Hs Hv a i Ha Hi. cbn [accounts categories set_accounts] in *.
  unfold update_mapping in Ha. apply in_map_iff in Ha.
  destruct Ha as (b & <- & Hb).
  destruct (ref_eqb p (acc_id b)).
  - apply Hv. exact Hi.
  - exact (Hs b i Hb Hi).
Qed.

Lemma fn_map_account_to_category_valid :
  forall p s,
    mappings_valid s ->
    mappings_valid (snd (fn_map_account_to_category p s))
    /\ categories (snd (fn_map_account_to_category p s)) = categories s
    /\ map acc_id (accounts (snd (fn_map_account_to_category p s)))
       = map acc_id (accounts s).
Proof.
  intros p s Hs. unfold fn_map_account_to_category, bind, get.
  destruct (find_account (accounts s) p) as [a|].
  - cbn [put ret snd]. split; [|split].
    + apply update_mapping_valid; [exact Hs|].
      intros i Hi. exact (resolve_in_catalog _ _ _ _ Hi).
    + reflexivity.
    + cbn [accounts set_accounts]. apply update_mapping_ids.
  - cbn [raise snd]. auto.
Qed.

Lemma find_account_in_ids :
  forall accs i,
    In i (map acc_id accs) -> exists a, find_account accs (Some i) = Some a.
Proof.
  intros accs i Hi. apply in_map_iff in Hi. destruct Hi as (a & <- & Ha).
  unfold find_account.
  destruct (find _ accs) as [b|] eqn:F; [exists b; reflexivity|].
  pose proof (find_none _ _ F a Ha) as E. cbn [ref_eqb] in E.
  rewrite N.eqb_refl in E. discriminate.
Qed.

Lemma map_loop_valid :
  forall recs s,
    (forall rec, In rec recs -> In (acc_id rec) (map acc_id (accounts s))) ->
    mappings_valid s ->
    exists rows s',
      map_loop recs s = (Ok rows, s')
      /\ mappings_valid s'
      /\ categories s' = categories s
      /\ map acc_id (accounts s') = map acc_id (accounts s).
Proof.
  induction recs as [|rec recs IH]; intros s Hids Hs.
  - exists [], s. auto.
  - cbn [map_loop]. unfold bind at 1.
    destruct (find_account_in_ids _ _ (Hids rec (or_introl eq_refl)))
      as (a & F).
    destruct (fn_map_account_to_category_valid (Some (acc_id rec)) s Hs)
      as (Hv & Hc & Hi).
    rewrite (fn_map_account_to_category_found s _ a F) in *.
    cbn [snd] in Hv, Hc, Hi.
    unfold bind at 1. unfold get at 1. unfold bind at 1.
    destruct (IH _ (fun r Hr => eq_ind_r (fun l => In (acc_id r) l)
                                  (Hids r (or_intror Hr)) Hi) Hv)
      as (rows & s' & Hrun & Hv' & Hc' & Hi').
    rewrite Hrun. eexists. exists s'. split; [reflexivity|].
    split; [exact Hv'|]. split; congruence.
Qed.

(** X7.  The three functions that write [accounts.mapping_category_id] keep
    the foreign key: on a database where every mapping is the id of a
    category, whatever the arguments and whether the function returns or
    raises, every mapping is the id of a category afterwards. *)
Theorem writers_keep_mappings_valid :
  forall s : db,
    mappings_valid s ->
    (forall p, mappings_valid (snd (fn_map_account_to_category p s)))
    /\ (forall co, mappings_valid (snd (fn_map_company_accounts co s)))
    /\ (forall p q, mappings_valid (snd (fn_set_account_mapping p q s))).
Proof.
  intros s Hs. split; [|split].
  - intro p. apply fn_map_account_to_category_valid. exact Hs.
  - intro co. unfold fn_map_company_accounts, bind, get.
    destruct (map_loop_valid (company_accounts s co) s) as
      (rows & s' & Hrun & Hv & _); [|exact Hs|].
    + intros rec Hrec. apply in_map. unfold company_accounts in Hrec.
      apply filter_In in Hrec. tauto.
    + rewrite Hrun. exact Hv.
  - intros p q. unfold fn_set_account_mapping.
    destruct (category_exists (categories s) q) eqn:Hq; cbn [negb];
      [|exact Hs].
    assert (Hv : mappings_valid
                   (set_accounts s (update_mapping (accounts s) p q))).
    { apply update_mapping_valid; [exact Hs|].
      intros i ->. apply category_exists_in in Hq.
      destruct Hq as (c & Hc & E). exists c. split; [exact Hc|congruence]. }
    destruct (negb (account_found (accounts s) p)); exact Hv.
Qed.

(** On a catalog as [Mapping] reads it the batch returns: the accounts
    its loop visits are rows of [accounts], so the resolver finds each of
    them, whatever the table holds, duplicated ids included.  It leaves
    the catalog and the ids of the accounts as they were. *)
Lemma fn_map_company_accounts_returns :
  forall (co : option uuid) (s : db),
    exists rows s',
      fn_map_company_accounts co s = (Ok rows, s')
      /\ categories s' = categories s
      /\ map acc_id (accounts s') = map acc_id (accounts s)
      /\ companies s' = companies s
      /\ raw_transactions s' = raw_transactions s.
Proof.
  intros co s. unfold fn_map_company_accounts, bind, get.
  assert (G : forall recs s0,
    (forall rec, In rec recs -> In (acc_id rec) (map acc_id (accounts s0))) ->
    exists rows s',
      map_loop recs s0 = (Ok rows, s')
      /\ categories s' = categories s0
      /\ map acc_id (accounts s') = map acc_id (accounts s0)
      /\ companies s' = companies s0
      /\ raw_transactions s' = raw_transactions s0).
  { induction recs as [|rec recs IH]; intros s0 Hids.
    - exists [], s0. auto.
    - cbn [map_loop]. unfold bind at 1.
      destruct (find_account_in_ids _ _ (Hids rec (or_introl eq_refl)))
        as (a & F).
      rewrite (fn_map_account_to_category_found s0 _ a F).
      unfold bind at 1. unfold get at 1. unfold bind at 1.
      destruct (IH (set_accounts s0
                      (update_mapping (accounts s0) (Some (acc_id rec))
                         (resolve (categories s0) (acc_name a) (acc_type a)))))
        as (rows & s' & Hrun & Hc & Hi & Hco & Hrt).
      + intros r Hr. cbn [accounts set_accounts].
        rewrite update_mapping_ids. apply Hids. right. exact Hr.
      + rewrite Hrun. eexists. exists s'. split; [reflexivity|].
        cbn [accounts categories companies raw_transactions set_accounts]
          in Hc, Hi, Hco, Hrt.
        rewrite update_mapping_ids in Hi. auto. }
  apply G. intros rec Hrec. apply in_map. unfold company_accounts in Hrec.
  apply filter_In in Hrec. tauto.
Qed.

End OverrideFacts.

(** ** The scores of the resolver
    ([20250101000006_account_mapping_function.sql], lines 33-127) *)

Module MatchingScores.
Import Mapping MappingFacts.

(** Lines 56-70: the score of one category in the partial pass. *)
Definition partial_score (v_account_name : text) (c : category) : Z :=
  fuzzy_foreach v_account_name (source_examples c) 0.

Definition score_values : list Z := [0; 70; 80].

Lemma fuzzy_foreach_values :
  forall name exs m,
    In m score_values -> In (fuzzy_foreach name exs m) score_values.
Proof.
  intros name exs. induction exs as [|ex exs IH]; intros m Hm.
  - exact Hm.
  - cbn [fuzzy_foreach]. apply IH. unfold score_values in *. simpl in Hm.
    destruct (LIKE (LOWER name) (wrap (LOWER ex)));
      destruct (LIKE (LOWER ex) (wrap (LOWER name)));
      simpl; intuition (subst; auto).
Qed.

Lemma partial_score_values :
  forall name c, In (partial_score name c) score_values.
Proof.
  intros name c. apply fuzzy_foreach_values. left. reflexivity.
Qed.

Lemma fold_max_values :
  forall l m,
    In m score_values -> (forall x, In x l -> In x score_values) ->
    In (fold_left Z.max l m) score_values.
Proof.
  induction l as [|x l IH]; intros m Hm Hl.
  - exact Hm.
  - cbn [fold_left]. apply IH.
    + destruct (Z.max_spec m x) as [[_ ->]|[_ ->]];
        [apply Hl; left; reflexivity|exact Hm].
    + intros y Hy. apply Hl. right. exact Hy.
Qed.

Lemma fuzzy_loop_score :
  forall name cats b,
    v_best_score (fuzzy_loop name cats b)
    = fold_left Z.max (map (partial_score name) cats) (v_best_score b).
Proof.
  intros name cats. induction cats as [|c cats IH]; intro b.
  - reflexivity.
  - cbn [fuzzy_loop map fold_left]. rewrite IH. f_equal.
    fold (partial_score name c).
    destruct (partial_score name c >? v_best_score b) eqn:E.
    + apply Z.gtb_lt in E. cbn [v_best_score]. lia.
    + rewrite Z.gtb_ltb in E. apply Z.ltb_ge in E. lia.
Qed.

(** No category is held with the score 0, and none is missing with a
    positive one. *)
Definition consistent (b : best) : Prop :=
  (v_best_score b = 0 /\ v_best_category_id b = None)
  \/ (0 < v_best_score b /\ v_best_category_id b <> None).

Lemma fuzzy_loop_consistent :
  forall name cats b, consistent b -> consistent (fuzzy_loop name cats b).
Proof.
  intros name cats. induction cats as [|c cats IH]; intros b Hb.
  - exact Hb.
  - cbn [fuzzy_loop]. apply IH.
    destruct (fuzzy_foreach name (source_examples c) 0 >? v_best_score b)
      eqn:E; [|exact Hb].
    apply Z.gtb_lt in E. right. cbn. split; [|discriminate].
    destruct Hb as [[H _]|[H _]]; lia.
Qed.

Lemma find_none_iff :
  forall (A : Type) (f : A -> bool) (l : list A),
    find f l = None <-> forall x, In x l -> f x = false.
Proof.
  intros A f l. split.
  - intros H x Hx. exact (find_none _ _ H x Hx).
  - intro H. destruct (find f l) as [x|] eqn:F; [|reflexivity].
    apply find_some in F. destruct F as [Hx Hf].
    rewrite (H x Hx) in Hf. discriminate.
Qed.

(** X9.  The score after the two passes is 0, 70, 80 or 100.  It is 100
    exactly when an example of some category equals the name up to case;
    otherwise it is the greatest partial score of a category.  So the
    threshold of 50 never refuses a match: the score is below it exactly
    when no category was chosen, and the resolver returns the chosen
    category when there is one and the fallback of the declared type
    when there is none. *)
Theorem matching_scores :
  forall (cats : list category) (name : text),
    let b := after_matching cats name in
    In (v_best_score b) [0; 70; 80; 100]
    /\ (v_best_score b = 100 <->
        exists c, In c cats /\ exact_matches name c = true)
    /\ (v_best_score b <> 100 ->
        v_best_score b = fold_left Z.max (map (partial_score name) cats) 0)
    /\ (v_best_score b < 50 <-> v_best_category_id b = None)
    /\ (forall ty,
          resolve cats name ty
          = match v_best_category_id b with
            | Some i => Some i
            | None => first_of_type cats (fallback_canonical_type ty)
            end).
Proof.
  intros cats name b.
  assert (Hcases :
    (exists c, In c cats /\ exact_matches name c = true
               /\ b = mkBest (Some (cat_id c)) 100)
    \/ ((forall c, In c cats -> exact_matches name c = false)
        /\ b = fuzzy_loop name cats best_init)).
  { subst b. unfold after_matching.
    rewrite exact_loop_spec by (simpl; lia).
    destruct (find (exact_matches name) cats) as [c|] eqn:F.
    - left. apply find_some in F. exists c. tauto.
    - right. split; [apply find_none_iff; exact F|reflexivity]. }
  assert (Hfz : In (v_best_score (fuzzy_loop name cats best_init))
                   score_values).
  { rewrite fuzzy_loop_score. apply fold_max_values.
    - left. reflexivity.
    - intros x Hx. apply in_map_iff in Hx. destruct Hx as (c & <- & _).
      apply partial_score_values. }
  assert (Hco : consistent (fuzzy_loop name cats best_init))
    by (apply fuzzy_loop_consistent; left; split; reflexivity).
  assert (H50 : v_best_score b < 50 <-> v_best_category_id b = None).
  { destruct Hcases as [(c & _ & _ & ->)|[_ ->]].
    - cbn. split; [lia|discriminate].
    - unfold score_values in Hfz. simpl in Hfz.
      destruct Hco as [[H0 Hn]|[Hp Hn]].
      + rewrite H0, Hn. split; [reflexivity|lia].
      + split; [intro; exfalso; lia|intro; contradiction]. }
  split; [|split; [|split; [|split]]].
  - destruct Hcases as [(c & _ & _ & ->)|[_ ->]].
    + simpl. tauto.
    + unfold score_values in Hfz. simpl in *. tauto.
  - destruct Hcases as [(c & Hc & He & ->)|[Hn ->]].
    + split; [intros _; exists c; tauto|reflexivity].
    + split.
      * intro H. unfold score_values in Hfz. simpl in Hfz. exfalso. lia.
      * intros (c & Hc & He). rewrite (Hn c Hc) in He. discriminate.
  - destruct Hcases as [(c & _ & _ & ->)|[_ ->]].
    + cbn. intro H. contradiction.
    + intros _. rewrite fuzzy_loop_score. reflexivity.
  - exact H50.
  - intro ty. rewrite resolve_after_matching. fold b.
    destruct (Z.ltb_spec (v_best_score b) 50) as [Hlt|Hge].
    + rewrite (proj1 H50 Hlt). reflexivity.
    + destruct (v_best_category_id b) as [i|] eqn:E; [reflexivity|].
      exfalso. pose proof (proj2 H50 eq_refl). lia.
Qed.

(** *** The seeded catalog under the resolver *)

Lemma exact_matches_lower :
  forall n1 n2 c,
    LOWER n1 = LOWER n2 -> exact_matches n1 c = exact_matches n2 c.
Proof. intros n1 n2 c H. unfold exact_matches. rewrite H. reflexivity. Qed.

Lemma find_ext :
  forall (A : Type) (f g : A -> bool) (l : list A),
    (forall x, f x = g x) -> find f l = find g l.
Proof.
  intros A f g l H. induction l as [|x l IH]; simpl.
  - reflexivity.
  - rewrite H, IH. reflexivity.
Qed.

(** X10.  Every example of the seeded catalog leads to the category that lists
    it: an account named like an example of a seeded category, in any
    case, resolves to that category, whatever its declared type.  No
    example is shadowed by an equal example of an earlier category. *)
Theorem seeded_examples_resolve_to_their_category :
  forall (c : category) (ex name ty : text),
    In c seed_categories ->
    In ex (source_examples c) ->
    LOWER name = LOWER ex ->
    resolve seed_categories name ty = Some (cat_id c).
Proof.
  intros c ex name ty Hc Hex Hlow. apply resolve_exact.
  rewrite (find_ext _ _ (exact_matches ex) seed_categories
             (fun c' => exact_matches_lower name ex c' Hlow)).
  clear Hlow name ty.
  unfold seed_categories in Hc. cbn [In] in Hc.
  repeat (destruct Hc as [<-|Hc];
          [cbn [source_examples In] in Hex;
           repeat (destruct Hex as [<-|Hex]; [vm_compute; reflexivity|]);
           contradiction|]).
  contradiction.
Qed.

End MatchingScores.

Module SeedFacts.
Import Mapping MappingFacts Seed.

Lemma has_name_app :
  forall t1 t2 n, has_name (t1 ++ t2) n = has_name t1 n || has_name t2 n.
Proof. intros. unfold has_name. apply existsb_app. Qed.

Section Env.
Variable new_id : text -> uuid.

Lemma insert_has :
  forall tbl v, has_name (insert_or_nothing new_id tbl v) (value_name v) = true.
Proof.
  intros tbl v. unfold insert_or_nothing.
  destruct (has_name tbl (value_name v)) eqn:E; [exact E|].
  rewrite has_name_app. unfold has_name at 2. cbn [existsb cat_name].
  rewrite String.eqb_refl. apply orb_true_r.
Qed.

Lemma insert_mono :
  forall tbl v n,
    has_name tbl n = true -> has_name (insert_or_nothing new_id tbl v) n = true.
Proof.
  intros tbl v n H. unfold insert_or_nothing.
  destruct (has_name tbl (value_name v)); [exact H|].
  rewrite has_name_app, H. reflexivity.
Qed.

Lemma fold_mono :
  forall vs tbl n,
    has_name tbl n = true ->
    has_name (fold_left (insert_or_nothing new_id) vs tbl) n = true.
Proof.
  induction vs as [|v vs IH]; intros tbl n H; [exact H|].
  cbn [fold_left]. apply IH. apply insert_mono. exact H.
Qed.

Lemma fold_has :
  forall vs tbl v,
    In v vs ->
    has_name (fold_left (insert_or_nothing new_id) vs tbl) (value_name v)
    = true.
Proof.
  induction vs as [|w vs IH]; intros tbl v Hin; [contradiction|].
  cbn [fold_left]. destruct Hin as [->|Hin].
  - apply fold_mono. apply insert_has.
  - apply IH. exact Hin.
Qed.

Lemma fold_nothing :
  forall vs tbl,
    (forall v, In v vs -> has_name tbl (value_name v) = true) ->
    fold_left (insert_or_nothing new_id) vs tbl = tbl.
Proof.
  induction vs as [|v vs IH]; intros tbl H; [reflexivity|].
  cbn [fold_left]. unfold insert_or_nothing at 2.
  rewrite (H v (or_introl eq_refl)). apply IH.
  intros w Hw. apply H. right. exact Hw.
Qed.

(** The rows the statement adds come last, each from a row of the
    [VALUES] list whose name the table did not have. *)
Lemma fold_added :
  forall vs tbl,
    exists added,
      fold_left (insert_or_nothing new_id) vs tbl = tbl ++ added
      /\ forall c, In c added ->
           has_name tbl (cat_name c) = false
           /\ exists v, In v vs
                        /\ c = mkCategory (new_id (value_name v)) (value_name v)
                                          (snd (fst v)) (snd v).
Proof.
  induction vs as [|v vs IH]; intro tbl.
  - exists []. split; [symmetry; apply app_nil_r|contradiction].
  - cbn [fold_left].
    destruct (IH (insert_or_nothing new_id tbl v)) as (added & Heq & Hadd).
    rewrite Heq. clear Heq. revert Hadd. unfold insert_or_nothing.
    destruct (has_name tbl (value_name v)) eqn:E; intro Hadd.
    + exists added. split; [reflexivity|].
      intros c Hc. destruct (Hadd c Hc) as (Hn & w & Hw & ->).
      split; [exact Hn|]. exists w. split; [right; exact Hw|reflexivity].
    + exists (mkCategory (new_id (value_name v)) (value_name v)
                         (snd (fst v)) (snd v) :: added).
      split; [rewrite <- app_assoc; reflexivity|].
      intros c [<-|Hc].
      * split; [exact E|]. exists v. split; [left|]; reflexivity.
      * destruct (Hadd c Hc) as (Hn & w & Hw & ->).
        rewrite has_name_app in Hn. apply orb_false_iff in Hn.
        split; [tauto|]. exists w. split; [right; exact Hw|reflexivity].
Qed.

End Env.

Lemma has_name_in :
  forall tbl n, has_name tbl n = true -> In n (map cat_name tbl).
Proof.
  intros tbl n H. unfold has_name in H. apply existsb_exists in H.
  destruct H as (c & Hc & E). apply String.eqb_eq in E. subst n.
  apply in_map. exact Hc.
Qed.

Lemma NoDup_map_inj :
  forall (A B : Type) (f : A -> B) (l : list A),
    NoDup (map f l) ->
    forall x y, In x l -> In y l -> f x = f y -> x = y.
Proof.
  intros A B f l. induction l as [|a l IH]; intros Hnd x y Hx Hy E.
  - contradiction.
  - inversion Hnd as [|b l' Hnotin Hnd']; subst.
    destruct Hx as [<-|Hx], Hy as [<-|Hy].
    + reflexivity.
    + exfalso. apply Hnotin. rewrite E. apply in_map. exact Hy.
    + exfalso. apply Hnotin. rewrite <- E. apply in_map. exact Hx.
    + apply IH; assumption.
Qed.

Lemma seed_names_distinct : NoDup (map value_name seed_values).
Proof.
  vm_compute.
  repeat (constructor; [simpl; intuition discriminate|]). constructor.
Qed.

(** X12.  The seed migration on any catalog.  It keeps the rows the catalog
    had, in place and unchanged ([DO NOTHING]), and adds after them rows
    of the [VALUES] list whose names the catalog lacked; afterwards every
    seeded name has a row; the verification finds at least six rows and
    never raises.  Running the insert again adds nothing. *)
Theorem seed_migration_outcome :
  forall (new_id new_id2 : text -> uuid) (s : db),
    let t := seed_insert new_id (categories s) in
    (exists added,
       t = (categories s ++ added)%list
       /\ forall c, In c added ->
            has_name (categories s) (cat_name c) = false
            /\ exists v, In v seed_values
                         /\ c = mkCategory (new_id (value_name v))
                                  (value_name v) (snd (fst v)) (snd v))
    /\ (forall v, In v seed_values -> has_name t (value_name v) = true)
    /\ 6 <= Z.of_nat (List.length t)
    /\ seed_migration new_id s
       = (inr (Z.of_nat (List.length t)), set_categories s t)
    /\ seed_insert new_id2 t = t.
Proof.
  intros new_id new_id2 s t.
  assert (Hall : forall v, In v seed_values -> has_name t (value_name v) = true)
    by (intros v Hv; apply fold_has; exact Hv).
  assert (Hlen : 6 <= Z.of_nat (List.length t)).
  { assert (H : (List.length (map value_name seed_values)
                 <= List.length (map cat_name t))%nat).
    { apply NoDup_incl_length; [apply seed_names_distinct|].
      intros n Hn. apply in_map_iff in Hn. destruct Hn as (v & <- & Hv).
      apply has_name_in. apply Hall. exact Hv. }
    rewrite !length_map in H.
    change (List.length seed_values) with 6%nat in H. lia. }
  split; [apply fold_added|]. split; [exact Hall|]. split; [exact Hlen|].
  split.
  - unfold seed_migration, verification. fold t.
    destruct (Z.ltb_spec (Z.of_nat (List.length t)) 6); [lia|reflexivity].
  - apply fold_nothing. exact Hall.
Qed.

(** Seeding a catalog that has none of the six seeded names gives a
    catalog with a category of every canonical type, on which [resolve]
    is never [NULL]. *)
Lemma seed_insert_covers_all_types :
  forall (new_id : text -> uuid) (cats : list category),
    (forall v, In v seed_values -> has_name cats (value_name v) = false) ->
    covers_all_types (seed_insert new_id cats)
    /\ forall name ty,
         exists c, In c (seed_insert new_id cats)
                   /\ resolve (seed_insert new_id cats) name ty
                      = Some (cat_id c).
Proof.
  intros new_id cats Hno.
  assert (Hrow : forall v, In v seed_values ->
            In (mkCategory (new_id (value_name v)) (value_name v)
                           (snd (fst v)) (snd v))
               (seed_insert new_id cats)).
  { intros v Hv. unfold seed_insert.
    destruct (fold_added new_id seed_values cats) as (added & Heq & Hadd).
    pose proof (fold_has new_id seed_values cats v Hv) as Hh.
    rewrite Heq in *. rewrite has_name_app, (Hno v Hv) in Hh. cbn [orb] in Hh.
    unfold has_name in Hh. apply existsb_exists in Hh.
    destruct Hh as (c & Hc & E). apply String.eqb_eq in E.
    apply in_or_app. right.
    destruct (Hadd c Hc) as (_ & w & Hw & ->). cbn [cat_name] in E.
    assert (w = v)
      by (apply (NoDup_map_inj _ _ value_name seed_values
                   seed_names_distinct w v Hw Hv); exact E).
    subst w. exact Hc. }
  assert (Hcov : covers_all_types (seed_insert new_id cats)).
  { intros ty Hty.
    destruct (Instances.seed_covers_all_types ty Hty) as (c & Hc & Hct).
    exists (mkCategory (new_id (cat_name c)) (cat_name c)
                       (canonical_type c) (source_examples c)).
    split; [|exact Hct].
    apply (Hrow (cat_name c, canonical_type c, source_examples c)).
    unfold seed_values.
    apply (in_map (fun c => (cat_name c, canonical_type c, source_examples c))).
    exact Hc. }
  split; [exact Hcov|].
  intros name ty. apply resolve_some. exact Hcov.
Qed.

End SeedFacts.

(** ** The batch, the report and the seed on the stored catalog *)

Module StoredBatch.
Import Mapping MappingFacts Override Seed.

(** X3.  The accounts the batch leaves unmapped are the ones it did not
    report: on a catalog without [NULL] array, with unique account and
    category ids, the rows it returns and the rows
    [fn_get_unmapped_accounts] returns afterwards are together as many as
    the company has accounts; an account is unmapped afterwards exactly
    when it resolved to [NULL]; and none is when the catalog has a
    category of every canonical type. *)
Theorem batch_then_unmapped :
  forall (name_leb : text -> text -> bool) (rows : list Stored.category_row)
         (s : db) (co : option uuid),
    Stored.read rows = Some (categories s) ->
    NoDup (map acc_id (accounts s)) ->
    NoDup (map cat_id (categories s)) ->
    exists out s',
      Stored.fn_map_company_accounts rows co s = (Ok out, s')
      /\ (List.length out
          + List.length (fn_get_unmapped_accounts name_leb co s')
          = List.length (company_accounts s co))%nat
      /\ (forall r,
            In r (fn_get_unmapped_accounts name_leb co s') <->
            exists a, In a (company_accounts s co)
                      /\ resolved (categories s) a = None
                      /\ r = unmapped_row_of a)
      /\ (covers_all_types (categories s) ->
          fn_get_unmapped_accounts name_leb co s' = []).
Proof.
  intros name_leb rows s co Hread Hacc Hcat.
  rewrite (StoredCatalog.fn_map_company_accounts_read rows s co Hread).
  exact (OverrideFacts.fn_map_company_accounts_then_unmapped name_leb s co
           Hacc Hcat).
Qed.

(** What the resolver does with a name on a catalog whose first [NULL]
    array comes after the rows [pre]. *)
Lemma resolve_before_null :
  forall name ty pre cs r tl,
    Stored.read pre = Some cs ->
    Stored.row_source_examples r = None ->
    Stored.resolve (pre ++ r :: tl) name ty
    = if v_best_score (exact_loop name cs best_init) =? 100
      then Ok (v_best_category_id (exact_loop name cs best_init))
      else Raise foreach_expression_null.
Proof.
  intros name ty pre cs r tl Hpre Hr.
  destruct (Z.eqb_spec (v_best_score (exact_loop name cs best_init)) 100)
    as [E|E].
  - apply (StoredCatalog.resolve_exact_before_null name ty pre cs (r :: tl)
             Hpre E).
  - apply (StoredCatalog.resolve_null name ty pre cs r tl Hpre Hr E).
Qed.

Lemma map_loop_null :
  forall pre cs r tl,
    Stored.read pre = Some cs ->
    Stored.row_source_examples r = None ->
    forall recs s,
      (forall rec, In rec recs -> In (acc_id rec) (map acc_id (accounts s))) ->
      (exists rec a,
         In rec recs
         /\ find_account (accounts s) (Some (acc_id rec)) = Some a
         /\ v_best_score (exact_loop (acc_name a) cs best_init) <> 100) ->
      fst (Stored.map_loop (pre ++ r :: tl) recs s)
      = Raise foreach_expression_null.
Proof.
  intros pre cs r tl Hpre Hr.
  induction recs as [|rec recs IH]; intros s Hids (rec0 & a0 & Hin & Hf & Hs).
  - contradiction.
  - destruct (OverrideFacts.find_account_in_ids _ _
                (Hids rec (or_introl eq_refl))) as (a & F).
    cbn [Stored.map_loop]. unfold bind at 1.
    unfold Stored.fn_map_account_to_category, bind at 1, get. rewrite F.
    rewrite (resolve_before_null (acc_name a) (acc_type a) pre cs r tl Hpre Hr).
    destruct (Z.eqb_spec
                (v_best_score (exact_loop (acc_name a) cs best_init)) 100)
      as [E|E]; [|reflexivity].
    unfold bind, put, ret.
    set (s1 := set_accounts s
                 (update_mapping (accounts s) (Some (acc_id rec))
                    (v_best_category_id
                       (exact_loop (acc_name a) cs best_init)))).
    assert (Hrest : fst (Stored.map_loop (pre ++ r :: tl) recs s1)
                    = Raise foreach_expression_null).
    { apply IH.
      - intros rec' Hrec'. unfold s1. cbn [accounts set_accounts].
        rewrite OverrideFacts.update_mapping_ids. apply Hids. right.
        exact Hrec'.
      - destruct Hin as [<-|Hin]; [congruence|].
        exists rec0.
        exists (if ref_eqb (Some (acc_id rec)) (acc_id a0)
                then with_mapping a0
                       (v_best_category_id
                          (exact_loop (acc_name a) cs best_init))
                else a0).
        split; [exact Hin|]. split.
        + unfold s1. cbn [accounts set_accounts].
          rewrite find_account_update, Hf. reflexivity.
        + destruct (ref_eqb (Some (acc_id rec)) (acc_id a0)); exact Hs. }
    destruct (Stored.map_loop (pre ++ r :: tl) recs s1) as [[more|e] s'];
      cbn [fst] in *; [discriminate|exact Hrest].
Qed.

(** X8.  On a catalog without [NULL] array the batch never raises, for
    any company id and whatever [accounts] holds, duplicated ids
    included: the accounts its loop visits are rows of [accounts], so the
    resolver finds each of them.  It leaves the catalog and the ids of the
    accounts as they were.  On a catalog with a [NULL] array it raises
    'FOREACH expression must not be null' as soon as the company has an
    account whose name equals no example read before that array; for a
    company without accounts it returns no row on any catalog. *)
Theorem batch_never_raises :
  forall (co : option uuid) (s : db),
    (forall rows,
       Stored.read rows = Some (categories s) ->
       exists out s',
         Stored.fn_map_company_accounts rows co s = (Ok out, s')
         /\ categories s' = categories s
         /\ map acc_id (accounts s') = map acc_id (accounts s)
         /\ companies s' = companies s
         /\ raw_transactions s' = raw_transactions s)
    /\ (forall pre cs r tl,
          Stored.read pre = Some cs ->
          Stored.row_source_examples r = None ->
          (exists rec a,
             In rec (company_accounts s co)
             /\ find_account (accounts s) (Some (acc_id rec)) = Some a
             /\ v_best_score (exact_loop (acc_name a) cs best_init) <> 100) ->
          fst (Stored.fn_map_company_accounts (pre ++ r :: tl) co s)
          = Raise foreach_expression_null)
    /\ (forall rows,
          company_accounts s co = [] ->
          Stored.fn_map_company_accounts rows co s = (Ok [], s)).
Proof.
  intros co s. split; [|split].
  - intros rows Hread.
    rewrite (StoredCatalog.fn_map_company_accounts_read rows s co Hread).
    exact (OverrideFacts.fn_map_company_accounts_returns co s).
  - intros pre cs r tl Hpre Hr Hex.
    unfold Stored.fn_map_company_accounts, bind, get.
    apply (map_loop_null pre cs r tl Hpre Hr); [|exact Hex].
    intros rec Hrec. apply in_map. unfold company_accounts in Hrec.
    apply filter_In in Hrec. tauto.
  - intros rows E.
    unfold Stored.fn_map_company_accounts, bind, get. rewrite E.
    reflexivity.
Qed.

(** X13.  Seeding a catalog that has none of the six seeded names gives a
    catalog with a category of every canonical type.  When no row of the
    seeded catalog has a [NULL] array, the resolver returns on it a
    category for every account name and type, never [NULL]. *)
Theorem seeded_catalog_resolves_everything :
  forall (new_id : text -> uuid) (cats : list category)
         (rows : list Stored.category_row),
    (forall v, In v seed_values -> has_name cats (value_name v) = false) ->
    Stored.read rows = Some (seed_insert new_id cats) ->
    covers_all_types (seed_insert new_id cats)
    /\ forall name ty,
         exists c, In c (seed_insert new_id cats)
                   /\ Stored.resolve rows name ty = Ok (Some (cat_id c)).
Proof.
  intros new_id cats rows Hno Hread.
  destruct (SeedFacts.seed_insert_covers_all_types new_id cats Hno)
    as [Hcov Hres].
  split; [exact Hcov|].
  intros name ty. destruct (Hres name ty) as (c & Hc & E).
  exists c. split; [exact Hc|].
  rewrite (StoredCatalog.resolve_read rows _ name ty Hread), E. reflexivity.
Qed.

End StoredBatch.

(** ** The two aggregation functions on any database
    ([20250101000004_monthly_aggregation_functions.sql]) *)

Module AggregationInvariants.
Import Aggregation AggregationFacts.

(** *** The outcomes of a call *)

Lemma validate_state :
  forall pc pps ppe prun s r s',
    validate pc pps ppe prun s = (r, s') ->
    s' = s /\ forall s2, validate pc pps ppe prun s2 = (r, s2).
Proof.
  intros pc pps ppe prun s r s'. unfold validate, raise, ret.
  destruct pc as [c|]; [|intro H; injection H as <- <-; auto].
  destruct pps as [ps|]; [|intro H; injection H as <- <-; auto].
  destruct ppe as [pe|]; [|intro H; injection H as <- <-; auto].
  destruct (Date.ltb pe ps); [intro H; injection H as <- <-; auto|].
  destruct prun as [run|]; [|intro H; injection H as <- <-; auto].
  destruct (String.eqb run ""); intro H; injection H as <- <-; auto.
Qed.

Lemma fn_generate_monthly_pl_cases :
  forall now new_id pc pps ppe prun s,
    (exists e,
       fn_generate_monthly_pl now new_id pc pps ppe prun s = (Raise e, s))
    \/ (exists p t i,
          validate pc pps ppe prun s = (Ok p, s)
          /\ upsert (companies s) (monthly_pl s) new_id p (pl_totals_of s p) now
             = Some (t, i)
          /\ fn_generate_monthly_pl now new_id pc pps ppe prun s
             = (Ok i, set_monthly_pl s t)).
Proof.
  intros now new_id pc pps ppe prun s. unfold fn_generate_monthly_pl, bind.
  destruct (validate pc pps ppe prun s) as [[p|e] s'] eqn:V;
    destruct (validate_state _ _ _ _ _ _ _ V) as [-> _].
  - unfold get.
    destruct (upsert (companies s) (monthly_pl s) new_id p (pl_totals_of s p)
                now) as [[t i]|] eqn:U.
    + right. exists p, t, i. auto.
    + left. eexists. reflexivity.
  - left. eexists. reflexivity.
Qed.

Lemma fn_generate_monthly_cash_flow_cases :
  forall now new_id pc pps ppe prun s,
    (exists e,
       fn_generate_monthly_cash_flow now new_id pc pps ppe prun s
       = (Raise e, s))
    \/ (exists p t i,
          validate pc pps ppe prun s = (Ok p, s)
          /\ upsert (companies s) (monthly_cash_flow s) new_id p
               (cf_totals_of s p) now
             = Some (t, i)
          /\ fn_generate_monthly_cash_flow now new_id pc pps ppe prun s
             = (Ok i, set_monthly_cash_flow s t)).
Proof.
  intros now new_id pc pps ppe prun s.
  unfold fn_generate_monthly_cash_flow, bind.
  destruct (validate pc pps ppe prun s) as [[p|e] s'] eqn:V;
    destruct (validate_state _ _ _ _ _ _ _ V) as [-> _].
  - unfold get.
    destruct (upsert (companies s) (monthly_cash_flow s) new_id p
                (cf_totals_of s p) now) as [[t i]|] eqn:U.
    + right. exists p, t, i. auto.
    + left. eexists. reflexivity.
  - left. eexists. reflexivity.
Qed.

(** The P&L function on a database whose cash-flow table was replaced,
    and the other way round. *)
Lemma fn_generate_monthly_pl_frame :
  forall now new_id pc pps ppe prun s t,
    fn_generate_monthly_pl now new_id pc pps ppe prun
      (set_monthly_cash_flow s t)
    = (fst (fn_generate_monthly_pl now new_id pc pps ppe prun s),
       set_monthly_cash_flow
         (snd (fn_generate_monthly_pl now new_id pc pps ppe prun s)) t).
Proof.
  intros now new_id pc pps ppe prun s t. unfold fn_generate_monthly_pl, bind.
  destruct (validate pc pps ppe prun s) as [[p|e] s'] eqn:V;
    destruct (validate_state _ _ _ _ _ _ _ V) as [-> Vall];
    rewrite Vall; [|reflexivity].
  unfold get. cbn [companies monthly_pl set_monthly_cash_flow].
  change (pl_totals_of (set_monthly_cash_flow s t) p) with (pl_totals_of s p).
  destruct (upsert (companies s) (monthly_pl s) new_id p (pl_totals_of s p)
              now) as [[t' i]|]; reflexivity.
Qed.

Lemma fn_generate_monthly_cash_flow_frame :
  forall now new_id pc pps ppe prun s t,
    fn_generate_monthly_cash_flow now new_id pc pps ppe prun
      (set_monthly_pl s t)
    = (fst (fn_generate_monthly_cash_flow now new_id pc pps ppe prun s),
       set_monthly_pl
         (snd (fn_generate_monthly_cash_flow now new_id pc pps ppe prun s)) t).
Proof.
  intros now new_id pc pps ppe prun s t.
  unfold fn_generate_monthly_cash_flow, bind.
  destruct (validate pc pps ppe prun s) as [[p|e] s'] eqn:V;
    destruct (validate_state _ _ _ _ _ _ _ V) as [-> Vall];
    rewrite Vall; [|reflexivity].
  unfold get. cbn [companies monthly_cash_flow set_monthly_pl].
  change (cf_totals_of (set_monthly_pl s t) p) with (cf_totals_of s p).
  destruct (upsert (companies s) (monthly_cash_flow s) new_id p
              (cf_totals_of s p) now) as [[t' i]|]; reflexivity.
Qed.

Lemma set_monthly_pl_same : forall s, set_monthly_pl s (monthly_pl s) = s.
Proof. intros []. reflexivity. Qed.

Lemma set_monthly_cash_flow_same :
  forall s, set_monthly_cash_flow s (monthly_cash_flow s) = s.
Proof. intros []. reflexivity. Qed.

(** X14.  Each of the two functions writes its own table only, and neither
    reads the table of the other: whatever their arguments, the result of
    one is the same before and after a call of the other, and the two
    calls lead to the same database in either order. *)
Theorem aggregation_calls_commute :
  forall (now1 : timestamptz) (id1 : uuid) (c1 : option uuid)
         (ps1 pe1 : option date) (run1 : option text)
         (now2 : timestamptz) (id2 : uuid) (c2 : option uuid)
         (ps2 pe2 : option date) (run2 : option text) (s : db),
    let pl := fn_generate_monthly_pl now1 id1 c1 ps1 pe1 run1 in
    let cf := fn_generate_monthly_cash_flow now2 id2 c2 ps2 pe2 run2 in
    snd (pl s) = set_monthly_pl s (monthly_pl (snd (pl s)))
    /\ snd (cf s) = set_monthly_cash_flow s (monthly_cash_flow (snd (cf s)))
    /\ fst (cf (snd (pl s))) = fst (cf s)
    /\ fst (pl (snd (cf s))) = fst (pl s)
    /\ snd (cf (snd (pl s))) = snd (pl (snd (cf s))).
Proof.
  intros now1 id1 c1 ps1 pe1 run1 now2 id2 c2 ps2 pe2 run2 s pl cf.
  assert (Hpl : snd (pl s) = set_monthly_pl s (monthly_pl (snd (pl s)))).
  { subst pl.
    destruct (fn_generate_monthly_pl_cases now1 id1 c1 ps1 pe1 run1 s)
      as [(e & ->)|(p & t & i & _ & _ & ->)]; cbn [snd].
    - symmetry. apply set_monthly_pl_same.
    - reflexivity. }
  assert (Hcf : snd (cf s)
                = set_monthly_cash_flow s (monthly_cash_flow (snd (cf s)))).
  { subst cf.
    destruct (fn_generate_monthly_cash_flow_cases now2 id2 c2 ps2 pe2 run2 s)
      as [(e & ->)|(p & t & i & _ & _ & ->)]; cbn [snd].
    - symmetry. apply set_monthly_cash_flow_same.
    - reflexivity. }
  split; [exact Hpl|]. split; [exact Hcf|].
  assert (E1 : cf (snd (pl s))
               = (fst (cf s),
                  set_monthly_pl (snd (cf s)) (monthly_pl (snd (pl s)))))
    by (rewrite Hpl at 1; apply fn_generate_monthly_cash_flow_frame).
  assert (E2 : pl (snd (cf s))
               = (fst (pl s),
                  set_monthly_cash_flow (snd (pl s))
                    (monthly_cash_flow (snd (cf s)))))
    by (rewrite Hcf at 1; apply fn_generate_monthly_pl_frame).
  rewrite E1, E2. cbn [fst snd]. split; [reflexivity|].
  split; [reflexivity|]. rewrite Hpl, Hcf. reflexivity.
Qed.

(** *** The tables the upsert maintains *)

Section Tables.
Variable T : Type.

(** The columns of [UNIQUE(company_id, period_start)]. *)
Definition key_of (r : monthly T) : uuid * date :=
  (m_company_id r, period_start r).

(** What the schema asks of a table of monthly rows: one row per key
    ([UNIQUE(company_id, period_start)]); the company of every row is a
    company ([REFERENCES companies(id)]); and versions count from 1. *)
Definition table_ok (comps : list uuid) (tbl : list (monthly T)) : Prop :=
  NoDup (map key_of tbl)
  /\ (forall r, In r tbl -> existsb (N.eqb (m_company_id r)) comps = true)
  /\ (forall r, In r tbl -> 1 <= row_version r).

Lemma same_key_iff :
  forall c ps (r : monthly T),
    same_key c ps r = true <-> key_of r = (c, ps).
Proof.
  intros c ps r. unfold same_key, key_of. split.
  - intro H. apply andb_true_iff in H. destruct H as [Hc Hd].
    apply N.eqb_eq in Hc. apply date_eqb_eq in Hd. congruence.
  - intro H. injection H as -> ->.
    rewrite N.eqb_refl, date_eqb_refl. reflexivity.
Qed.

(** The statement keeps the rows of the table in place, with their ids
    and keys and with versions that are no lower, and adds at most one
    row, after them. *)
Lemma upsert_table :
  forall comps (tbl : list (monthly T)) new_id p tot now tbl' i,
    upsert comps tbl new_id p tot now = Some (tbl', i) ->
    exists kept added,
      tbl' = (kept ++ added)%list
      /\ map (fun r => m_id r) kept = map (fun r => m_id r) tbl
      /\ map key_of kept = map key_of tbl
      /\ Forall2 (fun r r' => row_version r <= row_version r') tbl kept
      /\ (List.length added <= 1)%nat
      /\ (forall r, In r added ->
            key_of r = (company_id p, p_start p)
            /\ ~ In (key_of r) (map key_of tbl)
            /\ existsb (N.eqb (m_company_id r)) comps = true
            /\ row_version r = 1).
Proof.
  intros comps tbl new_id p tot now tbl' i. unfold upsert.
  destruct (find (same_key (company_id p) (p_start p)) tbl) as [r0|] eqn:F.
  - intro H. injection H as <- <-.
    eexists. exists []. split; [symmetry; apply app_nil_r|].
    split; [|split; [|split; [|split; [simpl; lia|contradiction]]]].
    + rewrite map_map. apply map_ext. intro r.
      destruct (same_key _ _ r); reflexivity.
    + rewrite map_map. apply map_ext. intro r.
      destruct (same_key _ _ r); reflexivity.
    + clear F. induction tbl as [|r tbl IH]; cbn [map]; constructor.
      * destruct (same_key _ _ r); cbn [do_update row_version]; lia.
      * exact IH.
  - destruct (existsb (N.eqb (company_id p)) comps) eqn:Hco; [|discriminate].
    intro H. injection H as <- <-.
    exists tbl. eexists. split; [reflexivity|].
    split; [reflexivity|]. split; [reflexivity|].
    split; [|split; [simpl; lia|]].
    + clear F. induction tbl; constructor; [lia|assumption].
    + intros r [<-|[]]. cbn [key_of m_company_id period_start row_version].
      split; [reflexivity|]. split; [|auto].
      intro Hin. apply in_map_iff in Hin. destruct Hin as (r & Hk & Hr).
      apply (proj2 (same_key_iff (company_id p) (p_start p) r)) in Hk.
      rewrite (find_none _ _ F r Hr) in Hk. discriminate.
Qed.

Lemma upsert_table_ok :
  forall comps (tbl : list (monthly T)) new_id p tot now tbl' i,
    table_ok comps tbl ->
    upsert comps tbl new_id p tot now = Some (tbl', i) ->
    table_ok comps tbl'.
Proof.
  intros comps tbl new_id p tot now tbl' i (Hnd & Hfk & Hv) U.
  pose proof U as U'. unfold upsert in U'.
  destruct (find (same_key (company_id p) (p_start p)) tbl) as [r0|] eqn:F.
  - injection U' as <- <-. split; [|split].
    + rewrite map_map.
      rewrite (map_ext _ key_of); [exact Hnd|].
      intro r. destruct (same_key _ _ r); reflexivity.
    + intros r Hr. apply in_map_iff in Hr. destruct Hr as (r1 & <- & Hr1).
      destruct (same_key _ _ r1); [cbn [do_update m_company_id]|];
        apply Hfk; exact Hr1.
    + intros r Hr. apply in_map_iff in Hr. destruct Hr as (r1 & <- & Hr1).
      pose proof (Hv r1 Hr1).
      destruct (same_key _ _ r1); [cbn [do_update row_version]|]; lia.
  - destruct (existsb (N.eqb (company_id p)) comps) eqn:Hco; [|discriminate].
    injection U' as <- <-. split; [|split].
    + rewrite map_app. cbn [map key_of m_company_id period_start].
      apply NoDup_app;
        [exact Hnd|constructor; [intros []|constructor]|].
      intros k Hk [<-|[]]. apply in_map_iff in Hk.
      destruct Hk as (r & Hk & Hr).
      apply (proj2 (same_key_iff (company_id p) (p_start p) r)) in Hk.
      rewrite (find_none _ _ F r Hr) in Hk. discriminate.
    + intros r Hr. apply in_app_or in Hr. destruct Hr as [Hr|[<-|[]]];
        [apply Hfk; exact Hr|exact Hco].
    + intros r Hr. apply in_app_or in Hr. destruct Hr as [Hr|[<-|[]]];
        [apply Hv; exact Hr|cbn; lia].
Qed.

End Tables.
Arguments key_of {T} r.
Arguments table_ok {T} comps tbl.

(** The shape of a table after a call, relative to the table before. *)
Definition grown {T : Type} (tbl tbl' : list (monthly T)) : Prop :=
  exists kept added,
    tbl' = (kept ++ added)%list
    /\ map (fun r => m_id r) kept = map (fun r => m_id r) tbl
    /\ map key_of kept = map key_of tbl
    /\ Forall2 (fun r r' => row_version r <= row_version r') tbl kept
    /\ (List.length added <= 1)%nat.

Lemma grown_refl : forall (T : Type) (tbl : list (monthly T)), grown tbl tbl.
Proof.
  intros T tbl. exists tbl, []. split; [symmetry; apply app_nil_r|].
  split; [reflexivity|]. split; [reflexivity|].
  split; [|simpl; lia]. induction tbl; constructor; [lia|assumption].
Qed.

Lemma upsert_grown :
  forall (T : Type) comps (tbl : list (monthly T)) new_id p tot now tbl' i,
    upsert comps tbl new_id p tot now = Some (tbl', i) -> grown tbl tbl'.
Proof.
  intros T comps tbl new_id p tot now tbl' i U.
  destruct (upsert_table T comps tbl new_id p tot now tbl' i U)
    as (kept & added & H1 & H2 & H3 & H4 & H5 & _).
  exists kept, added. auto.
Qed.

(** X15.  The two functions keep what the schema asks of their tables,
    whatever the arguments and whether they return or raise: keys stay
    unique, every row belongs to a company, versions are at least 1.  They
    never delete or re-key a row or change its id, never lower a version,
    and add at most one row per call. *)
Theorem aggregation_keeps_tables_well_formed :
  forall (now : timestamptz) (new_id : uuid) (pc : option uuid)
         (pps ppe : option date) (prun : option text) (s : db),
    table_ok (companies s) (monthly_pl s) ->
    table_ok (companies s) (monthly_cash_flow s) ->
    let s1 := snd (fn_generate_monthly_pl now new_id pc pps ppe prun s) in
    let s2 :=
      snd (fn_generate_monthly_cash_flow now new_id pc pps ppe prun s) in
    (table_ok (companies s1) (monthly_pl s1)
     /\ table_ok (companies s1) (monthly_cash_flow s1)
     /\ grown (monthly_pl s) (monthly_pl s1))
    /\ (table_ok (companies s2) (monthly_pl s2)
        /\ table_ok (companies s2) (monthly_cash_flow s2)
        /\ grown (monthly_cash_flow s) (monthly_cash_flow s2)).
Proof.
  intros now new_id pc pps ppe prun s Hpl Hcf s1 s2. split.
  - subst s1.
    destruct (fn_generate_monthly_pl_cases now new_id pc pps ppe prun s)
      as [(e & ->)|(p & t & i & _ & U & ->)]; cbn [snd].
    + split; [exact Hpl|]. split; [exact Hcf|apply grown_refl].
    + cbn [companies monthly_pl monthly_cash_flow set_monthly_pl].
      split; [exact (upsert_table_ok _ _ _ _ _ _ _ _ _ Hpl U)|].
      split; [exact Hcf|exact (upsert_grown _ _ _ _ _ _ _ _ _ U)].
  - subst s2.
    destruct (fn_generate_monthly_cash_flow_cases now new_id pc pps ppe prun s)
      as [(e & ->)|(p & t & i & _ & U & ->)]; cbn [snd].
    + split; [exact Hpl|]. split; [exact Hcf|apply grown_refl].
    + cbn [companies monthly_pl monthly_cash_flow set_monthly_cash_flow].
      split; [exact Hpl|].
      split; [exact (upsert_table_ok _ _ _ _ _ _ _ _ _ Hcf U)|].
      exact (upsert_grown _ _ _ _ _ _ _ _ _ U).
Qed.

(** X16.  For a company that is not in [companies], on tables whose rows all
    belong to companies, valid arguments are refused by the foreign key
    of the new row: both functions raise and leave the database as it
    was. *)
Theorem aggregation_unknown_company :
  forall (now : timestamptz) (new_id c : uuid) (ps pe : date) (run : text)
         (s : db),
    (forall r, In r (monthly_pl s) ->
               existsb (N.eqb (m_company_id r)) (companies s) = true) ->
    (forall r, In r (monthly_cash_flow s) ->
               existsb (N.eqb (m_company_id r)) (companies s) = true) ->
    Date.ltb pe ps = false ->
    run <> ""%string ->
    existsb (N.eqb c) (companies s) = false ->
    fn_generate_monthly_pl now new_id (Some c) (Some ps) (Some pe) (Some run) s
    = (Raise (foreign_key_violation "monthly_pl"), s)
    /\ fn_generate_monthly_cash_flow now new_id (Some c) (Some ps) (Some pe)
         (Some run) s
       = (Raise (foreign_key_violation "monthly_cash_flow"), s)
    /\ kind_of (foreign_key_violation "monthly_pl") = EngineError.
Proof.
  intros now new_id c ps pe run s Hpl Hcf Hp Hr Hco.
  assert (G : forall (T : Type) (tbl : list (monthly T)) tot,
    (forall r, In r tbl ->
               existsb (N.eqb (m_company_id r)) (companies s) = true) ->
    upsert (companies s) tbl new_id (mkParams c ps pe run) tot now = None).
  { intros T tbl tot Hfk. unfold upsert. cbn [company_id p_start].
    destruct (find (same_key c ps) tbl) as [r0|] eqn:F.
    - exfalso. apply find_some in F. destruct F as [Hin Hk].
      unfold same_key in Hk. apply andb_true_iff in Hk.
      destruct Hk as [Hk _]. apply N.eqb_eq in Hk.
      pose proof (Hfk r0 Hin) as E. rewrite Hk, Hco in E. discriminate.
    - rewrite Hco. reflexivity. }
  rewrite (fn_generate_monthly_pl_valid now new_id c ps pe run s Hp Hr).
  rewrite (fn_generate_monthly_cash_flow_valid now new_id c ps pe run s Hp Hr).
  rewrite (G _ _ _ Hpl), (G _ _ _ Hcf). auto.
Qed.

(** *** The transactions the totals read *)

Lemma filter_flat_map_fst :
  forall (A B : Type) (g : A -> list B) (key : B -> A) (f : A -> bool)
         (q : B -> bool) (l : list A),
    (forall a b, In b (g a) -> key b = a) ->
    filter (fun b => f (key b) && q b) (flat_map g l)
    = filter q (flat_map g (filter f l)).
Proof.
  intros A B g key f q l Hk. induction l as [|a l IH]; [reflexivity|].
  cbn [flat_map filter]. rewrite filter_app, IH.
  destruct (f a) eqn:E.
  - cbn [flat_map]. rewrite filter_app. f_equal.
    apply filter_ext_in. intros b Hb. rewrite (Hk a b Hb), E. reflexivity.
  - rewrite (MappingFacts.filter_none _ _ (g a)); [reflexivity|].
    intros b Hb. rewrite (Hk a b Hb), E. reflexivity.
Qed.

Definition set_txns (s : db) (t : list raw_transaction) : db :=
  mkDb (companies s) (categories s) (accounts s) t
       (monthly_pl s) (monthly_cash_flow s) (projections_12m s).

Lemma pl_sum_in_period :
  forall s p ty,
    pl_sum s p ty
    = SUM (map (fun j => amount (fst (fst j)))
               (filter (fun j => String.eqb (canonical_type (snd j)) ty)
                       (pl_join (set_txns s (filter (in_period p)
                                               (raw_transactions s)))))).
Proof.
  intros s p ty. unfold pl_sum, pl_join.
  cbn [raw_transactions accounts categories set_txns].
  rewrite (filter_flat_map_fst _ _ _ (fun j => fst (fst j)) (in_period p)).
  - reflexivity.
  - intros rt j Hj. apply in_flat_map in Hj. destruct Hj as (acc & _ & Hj).
    apply in_map_iff in Hj. destruct Hj as (cat & <- & _). reflexivity.
Qed.

Lemma cf_sum_in_period :
  forall s p types,
    cf_sum s p types
    = SUM (map (fun j => amount (fst j))
               (filter (fun j => text_in (acc_type (snd j)) types)
                       (cf_join (set_txns s (filter (in_period p)
                                               (raw_transactions s)))))).
Proof.
  intros s p types. unfold cf_sum, cf_join.
  cbn [raw_transactions accounts set_txns].
  rewrite (filter_flat_map_fst _ _ _ (fun j => fst j) (in_period p)).
  - reflexivity.
  - intros rt j Hj. apply in_map_iff in Hj. destruct Hj as (acc & <- & _).
    reflexivity.
Qed.

(** X17.  The totals of a call depend on the transactions of the company dated
    in the period and on nothing else of [raw_transactions]: two
    databases with the same accounts and catalog that agree on those
    transactions get the same P&L and cash-flow totals.  When there is no
    such transaction every total is 0, not [NULL]. *)
Theorem totals_read_period_transactions_only :
  forall (s1 s2 : db) (p : params),
    accounts s1 = accounts s2 ->
    categories s1 = categories s2 ->
    filter (in_period p) (raw_transactions s1)
    = filter (in_period p) (raw_transactions s2) ->
    pl_totals_of s1 p = pl_totals_of s2 p
    /\ cf_totals_of s1 p = cf_totals_of s2 p
    /\ (filter (in_period p) (raw_transactions s1) = [] ->
        pl_totals_of s1 p = mkPlTotals (Some 0%Q) (Some 0%Q) (Some 0%Q)
        /\ cf_totals_of s1 p = mkCfTotals 0%Q 0%Q 0%Q).
Proof.
  intros s1 s2 p Ha Hc Ht.
  assert (Hpl : forall ty, pl_sum s1 p ty = pl_sum s2 p ty).
  { intro ty. rewrite !pl_sum_in_period. unfold pl_join.
    cbn [raw_transactions accounts categories set_txns].
    rewrite Ha, Hc, Ht. reflexivity. }
  assert (Hcf : forall types, cf_sum s1 p types = cf_sum s2 p types).
  { intro types. rewrite !cf_sum_in_period. unfold cf_join.
    cbn [raw_transactions accounts set_txns]. rewrite Ha, Ht. reflexivity. }
  split; [|split].
  - unfold pl_totals_of. rewrite !Hpl. reflexivity.
  - unfold cf_totals_of. rewrite !Hcf. reflexivity.
  - intro Hnone. split.
    + unfold pl_totals_of. rewrite !pl_sum_in_period, Hnone. reflexivity.
    + unfold cf_totals_of. rewrite !cf_sum_in_period, Hnone. reflexivity.
Qed.


End AggregationInvariants.

(** ** The projection function on any database
    ([20250101000005_projection_function.sql]) *)

Module ProjectionOutcomes.
Import Projection ProjectionFacts.

(** X19.  [fn_generate_projection] returns for no argument and no database.  A
    [NULL] company and a company that is not in [companies] are refused
    by its own checks; for every other company the statement of lines
    46-59 is rejected.  In each case nothing is written. *)
Theorem projection_never_returns :
  forall (today : date) (now : timestamptz) (new_id : Z -> uuid)
         (p_company_id : option uuid) (s : db),
    exists e,
      fn_generate_projection today now new_id p_company_id s = (Raise e, s)
      /\ (p_company_id = None -> e = company_id_null)
      /\ (forall c, p_company_id = Some c ->
            existsb (N.eqb c) (companies s) = false ->
            e = company_does_not_exist c)
      /\ (forall c, p_company_id = Some c ->
            existsb (N.eqb c) (companies s) = true ->
            e = grouping_error "period_start")
      /\ (kind_of e = InvalidArgument <-> p_company_id = None).
Proof.
  intros today now new_id [c|] s.
  - unfold fn_generate_projection, bind, get, when_raise.
    destruct (existsb (N.eqb c) (companies s)) eqn:E; cbn [negb].
    + eexists. split; [reflexivity|].
      split; [discriminate|].
      split; [intros c' H H'; injection H as <-; congruence|].
      split; [reflexivity|]. cbn. split; discriminate.
    + eexists. split; [reflexivity|].
      split; [discriminate|].
      split; [intros c' H _; injection H as <-; reflexivity|].
      split; [intros c' H H'; injection H as <-; congruence|].
      cbn. split; discriminate.
  - eexists. split; [reflexivity|]. split; [reflexivity|].
    split; [discriminate|]. split; [discriminate|]. cbn. tauto.
Qed.

(** *** Running lines 61-125 again on the same day *)







Section Env.
Variables (today : date) (now : timestamptz) (new_id : Z -> uuid).
Variables (c : uuid) (avg_revenue avg_costs : numeric) (months : Z).

Let row (m : Z) : projection :=
  values_row today now new_id c avg_revenue avg_costs months m.




End Env.


End ProjectionOutcomes.

Module ViewFacts.
Import Aggregation AggregationFacts AggregationInvariants Views.

















End ViewFacts.

Module DataTableFacts.
Import DataTable.

(** *** Sorting *)

(** The two cells of the sort are set together, and the sort column is
    a sortable column of the table. *)
Definition sort_ok (columns : list Column) (st : state) : Prop :=
  (sortColumn st = None <-> sortDirection st = None)
  /\ forall k, sortColumn st = Some k ->
       column_sortable
         (find (fun col => String.eqb (key col) k) columns) = true.

Lemma handleSort_ok :
  forall columns k st,
    sort_ok columns st ->
    sort_ok columns (handleSort columns k st)
    /\ currentPage (handleSort columns k st) = currentPage st.
Proof.
  intros columns k st [Hiff Hcol]. unfold handleSort.
  destruct (column_sortable (find (fun col => String.eqb (key col) k) columns))
    eqn:S; cbn [negb]; [|split; [split; assumption|reflexivity]].
  destruct (is_column (sortColumn st) k) eqn:E.
  - destruct (sortDirection st) as [[|]|] eqn:D.
    + split; [|reflexivity]. split; cbn.
      * split; [|discriminate]. intro H. apply Hiff in H. discriminate.
      * exact Hcol.
    + split; [|reflexivity]. split; cbn; [tauto|discriminate].
    + split; [|reflexivity]. unfold sort_ok. rewrite D. split; assumption.
  - split; [|reflexivity]. split; cbn.
    + split; discriminate.
    + intros k' H. injection H as <-. exact S.
Qed.

(** X25.  Clicking the header of a sortable column cycles through ascending,
    descending and unsorted: from the unsorted state the third click
    restores it.  A click on another sortable column starts over with
    ascending, and a click on a column that is not sortable, or is not a
    column of the table, changes nothing.  No click changes the page. *)
Theorem sort_click_cycle :
  forall (columns : list Column) (k : text) (p : Z),
    column_sortable (find (fun col => String.eqb (key col) k) columns) = true ->
    handleSort columns k (mkState None None p) = mkState (Some k) (Some asc) p
    /\ handleSort columns k (mkState (Some k) (Some asc) p)
       = mkState (Some k) (Some desc) p
    /\ handleSort columns k (mkState (Some k) (Some desc) p)
       = mkState None None p
    /\ (forall k' d, k' <> k ->
          handleSort columns k (mkState (Some k') d p)
          = mkState (Some k) (Some asc) p)
    /\ (forall k' st,
          column_sortable
            (find (fun col => String.eqb (key col) k') columns) = false ->
          handleSort columns k' st = st).
Proof.
  intros columns k p S. unfold handleSort. rewrite S. cbn [negb].
  cbn [is_column sortColumn sortDirection currentPage].
  rewrite String.eqb_refl.
  split; [reflexivity|]. split; [reflexivity|]. split; [reflexivity|].
  split.
  - intros k' d Hne. apply String.eqb_neq in Hne. rewrite Hne. reflexivity.
  - intros k' st S'. rewrite S'. reflexivity.
Qed.

(** *** Pages *)

Lemma totalPages_div :
  forall len pageSize,
    totalPages len pageSize = - ((- Z.of_nat len) / pageSize).
Proof.
  intros len pageSize. unfold totalPages, Qceiling. f_equal.
  rewrite Zdiv_Qdiv. apply Qfloor_comp.
  rewrite inject_Z_opp. unfold Qdiv. ring.
Qed.

Lemma totalPages_bounds :
  forall len pageSize,
    0 < pageSize ->
    (totalPages len pageSize - 1) * pageSize < Z.of_nat len
    /\ Z.of_nat len <= totalPages len pageSize * pageSize.
Proof.
  intros len pageSize Hp. rewrite totalPages_div.
  pose proof (Z.div_mod (- Z.of_nat len) pageSize).
  pose proof (Z.mod_pos_bound (- Z.of_nat len) pageSize Hp). nia.
Qed.

Lemma firstn_min_length :
  forall (A : Type) (k : nat) (l : list A),
    firstn (Nat.min k (List.length l)) l = firstn k l.
Proof.
  intros A k l. destruct (Nat.le_ge_cases k (List.length l)) as [H|H].
  - rewrite Nat.min_l by exact H. reflexivity.
  - rewrite Nat.min_r by exact H. rewrite firstn_all.
    symmetry. apply firstn_all2. exact H.
Qed.

(** The page of index [i], counted from 0. *)
Lemma page_rows :
  forall (A : Type) (rows : list A) (pageSize : Z) (st : state) (i : nat),
    0 < pageSize ->
    currentPage st = Z.of_nat i + 1 ->
    paginatedData rows pageSize st
    = firstn (Z.to_nat pageSize) (skipn (i * Z.to_nat pageSize) rows).
Proof.
  intros A rows pageSize st i Hp Hc.
  unfold paginatedData, slice, startIndex, relative. rewrite Hc.
  replace (Z.of_nat i + 1 - 1) with (Z.of_nat i) by lia.
  set (len := List.length rows).
  assert (H0 : 0 <= Z.of_nat i * pageSize) by nia.
  destruct (Z.ltb_spec (Z.of_nat i * pageSize) 0) as [Hlt|_]; [lia|].
  destruct (Z.ltb_spec (Z.of_nat i * pageSize + pageSize) 0) as [Hlt|_];
    [lia|].
  assert (Hk : (i * Z.to_nat pageSize)%nat = Z.to_nat (Z.of_nat i * pageSize))
    by (rewrite Z2Nat.inj_mul by lia; rewrite Nat2Z.id; reflexivity).
  destruct (Z.le_gt_cases (Z.of_nat i * pageSize) (Z.of_nat len)) as [Hin|Hout].
  - rewrite (Z.min_l (Z.of_nat i * pageSize)) by exact Hin.
    rewrite <- Hk. rewrite <- (firstn_min_length _ (Z.to_nat pageSize)).
    rewrite length_skipn. fold len. f_equal. lia.
  - rewrite (Z.min_r (Z.of_nat i * pageSize)) by lia.
    rewrite Nat2Z.id. unfold len. rewrite skipn_all.
    rewrite skipn_all2 by (fold len; lia).
    rewrite !firstn_nil. reflexivity.
Qed.

Lemma chunks_concat :
  forall (A : Type) (k m : nat) (rows : list A),
    (List.length rows <= m * k)%nat ->
    List.concat (map (fun i => firstn k (skipn (i * k) rows)) (seq 0 m)) = rows.
Proof.
  intros A k m. induction m as [|m IH]; intros rows Hlen.
  - destruct rows; [reflexivity|simpl in Hlen; lia].
  - cbn [seq map List.concat]. rewrite <- seq_shift, map_map.
    cbn [Nat.mul skipn].
    rewrite (map_ext _ (fun i => firstn k (skipn (i * k) (skipn k rows)))).
    + rewrite IH by (rewrite length_skipn; lia). apply firstn_skipn.
    + intro i. rewrite skipn_skipn. f_equal. f_equal. lia.
Qed.

Lemma page_length :
  forall (A : Type) (rows : list A) (pageSize : Z) (st : state),
    0 < pageSize ->
    1 <= currentPage st ->
    Z.of_nat (List.length (paginatedData rows pageSize st))
    = Z.max 0 (Z.min pageSize
                 (Z.of_nat (List.length rows)
                  - (currentPage st - 1) * pageSize)).
Proof.
  intros A rows pageSize st Hp Hst.
  rewrite (page_rows A rows pageSize st (Z.to_nat (currentPage st - 1)) Hp)
    by lia.
  rewrite length_firstn, length_skipn.
  assert ((currentPage st - 1) * pageSize
          = Z.of_nat (Z.to_nat (currentPage st - 1) * Z.to_nat pageSize))
    by (rewrite Nat2Z.inj_mul, !Z2Nat.id by lia; reflexivity).
  lia.
Qed.

(** The page a state shows. *)
Definition on_page (p : Z) : state := mkState None None p.

(** X26.  For a positive page size the pages 1 to [totalPages] cut the rows
    into consecutive pieces: put end to end they give the rows back; a
    page has at most [pageSize] rows and every page before the last has
    exactly that many; and, from page 1 on, a page is empty exactly when
    it lies beyond [totalPages]. *)
Theorem pages_partition_rows :
  forall (A : Type) (sortedData : list A) (pageSize : Z),
    0 < pageSize ->
    let n := totalPages (List.length sortedData) pageSize in
    List.concat (map (fun p => paginatedData sortedData pageSize (on_page p))
                (map Z.of_nat (seq 1 (Z.to_nat n))))
    = sortedData
    /\ (forall st, 1 <= currentPage st ->
          Z.of_nat (List.length (paginatedData sortedData pageSize st))
          <= pageSize)
    /\ (forall st, 1 <= currentPage st < n ->
          Z.of_nat (List.length (paginatedData sortedData pageSize st))
          = pageSize)
    /\ (forall st, 1 <= currentPage st ->
          (paginatedData sortedData pageSize st = [] <-> n < currentPage st)).
Proof.
  intros A rows pageSize Hp n.
  destruct (totalPages_bounds (List.length rows) pageSize Hp) as [Hlo Hhi].
  fold n in Hlo, Hhi.
  assert (Hn : 0 <= n) by nia.
  assert (Hlen : forall st, 1 <= currentPage st ->
            Z.of_nat (List.length (paginatedData rows pageSize st))
            = Z.max 0 (Z.min pageSize
                         (Z.of_nat (List.length rows)
                          - (currentPage st - 1) * pageSize)))
    by (intros st Hst; apply page_length; assumption).
  split; [|split; [|split]].
  - rewrite <- seq_shift, !map_map.
    rewrite (map_ext _ (fun i => firstn (Z.to_nat pageSize)
                                   (skipn (i * Z.to_nat pageSize) rows))).
    + apply chunks_concat.
      assert (Z.of_nat (Z.to_nat n * Z.to_nat pageSize) = n * pageSize)
        by (rewrite Nat2Z.inj_mul, !Z2Nat.id by lia; reflexivity).
      lia.
    + intro i. apply page_rows; [exact Hp|]. cbn [on_page currentPage]. lia.
  - intros st Hst. rewrite (Hlen st Hst). lia.
  - intros st Hst. rewrite (Hlen st) by lia. nia.
  - intros st Hst. rewrite <- length_zero_iff_nil.
    assert (H : Z.of_nat (List.length (paginatedData rows pageSize st)) = 0
                <-> n < currentPage st)
      by (rewrite (Hlen st Hst); split; intro; nia).
    split; intro H'; [apply H; lia|apply H in H'; lia].
Qed.

(** What holds of the state after every click: the sort is well formed
    and the current page is a page of the table, the first one when the
    table has no page. *)
Definition state_ok (columns : list Column) (length : nat) (pageSize : Z)
    (st : state) : Prop :=
  sort_ok columns st
  /\ (if totalPages length pageSize =? 0 then currentPage st = 1
      else 1 <= currentPage st <= totalPages length pageSize).

Lemma totalPages_nonneg :
  forall len pageSize, 0 < pageSize -> 0 <= totalPages len pageSize.
Proof.
  intros len pageSize Hp.
  destruct (totalPages_bounds len pageSize Hp) as [Hlo Hhi]. nia.
Qed.

(** X27.  Whatever the user clicks, starting from the first render of a table
    with a positive page size: the sort column and the sort direction
    are set or unset together and the sort column is a sortable column.
    When the table has a row, the current page stays between 1 and
    [totalPages] and the page shown has a row.  When the table has none,
    [totalPages] is 0, the current page stays 1 and the page shown is
    empty. *)
Theorem clicks_keep_table_ok :
  forall (A : Type) (columns : list Column) (data sortedData : list A)
         (pageSize : Z) (events : list event),
    0 < pageSize ->
    List.length sortedData = List.length data ->
    let st := fold_left (handle columns (List.length data) pageSize)
                        events initial in
    state_ok columns (List.length data) pageSize st
    /\ sort_ok columns st
    /\ (data <> [] ->
        1 <= currentPage st <= totalPages (List.length data) pageSize
        /\ paginatedData sortedData pageSize st <> [])
    /\ (data = [] ->
        totalPages (List.length data) pageSize = 0
        /\ currentPage st = 1
        /\ paginatedData sortedData pageSize st = []).
Proof.
  intros A columns data sortedData pageSize events Hp Hlen st.
  pose proof (totalPages_nonneg (List.length data) pageSize Hp) as Hnn.
  assert (Hok : state_ok columns (List.length data) pageSize st).
  { subst st.
    assert (H0 : state_ok columns (List.length data) pageSize initial).
    { split; [split; [tauto|discriminate]|].
      destruct (Z.eqb_spec (totalPages (List.length data) pageSize) 0);
        cbn; lia. }
    revert H0. generalize initial. induction events as [|ev events IH];
      intros st0 H0; [exact H0|].
    cbn [fold_left]. apply IH. destruct H0 as [Hs Hc].
    destruct ev as [column| |]; cbn [handle].
    - destruct (column_sortable (Some column)); [|split; assumption].
      destruct (handleSort_ok columns (key column) st0 Hs) as [Hs' Hc'].
      split; [exact Hs'|]. rewrite Hc'. exact Hc.
    - destruct (Z.ltb_spec 1 (totalPages (List.length data) pageSize));
        [|split; assumption].
      split; [exact Hs|]. cbn [previous currentPage].
      destruct (Z.eqb_spec (totalPages (List.length data) pageSize) 0); lia.
    - destruct (Z.ltb_spec 1 (totalPages (List.length data) pageSize));
        [|split; assumption].
      split; [exact Hs|]. cbn [next currentPage].
      destruct (Z.eqb_spec (totalPages (List.length data) pageSize) 0); lia. }
  split; [exact Hok|]. destruct Hok as [Hs Hc]. split; [exact Hs|].
  destruct (totalPages_bounds (List.length data) pageSize Hp) as [Hlo Hhi].
  split.
  - intro Hne.
    assert (0 < Z.of_nat (List.length data))
      by (destruct data; [contradiction|cbn [List.length]; lia]).
    assert (Hone : 1 <= totalPages (List.length data) pageSize) by nia.
    destruct (Z.eqb_spec (totalPages (List.length data) pageSize) 0);
      [lia|].
    split; [exact Hc|]. intro Hempty.
    pose proof (page_length A sortedData pageSize st Hp (proj1 Hc)) as Hpl.
    rewrite Hempty, Hlen in Hpl. cbn [List.length Z.of_nat] in Hpl. nia.
  - intro Hnil. subst data. cbn [List.length Z.of_nat] in *.
    assert (Hz : totalPages 0 pageSize = 0) by nia.
    rewrite Hz in Hc. cbn in Hc.
    split; [exact Hz|]. split; [exact Hc|].
    destruct sortedData; [|discriminate].
    unfold paginatedData, slice. rewrite skipn_nil. apply firstn_nil.
Qed.

End DataTableFacts.

Module DonutChartFacts.
Import DonutChart.

(** X28.  With at least one color every cell of the chart gets a color of the
    list, the cells up to the number of colors get the colors in order,
    and the colors repeat from there on; without colors no cell gets
    one. *)
Theorem donut_colors_cycle :
  forall (colors : list text) (index : nat),
    (colors <> [] ->
     exists c, fill colors index = Some c /\ In c colors)
    /\ ((index < List.length colors)%nat ->
        fill colors index = nth_error colors index)
    /\ fill colors (index + List.length colors) = fill colors index
    /\ (colors = [] -> fill colors index = None).
Proof.
  intros colors index. destruct colors as [|c0 colors].
  - split; [intro H; contradiction|]. split; [simpl; lia|].
    split; reflexivity.
  - assert (Hfill : forall i,
              fill (c0 :: colors) i
              = nth_error (c0 :: colors)
                          (i mod List.length (c0 :: colors)))
      by reflexivity.
    rewrite !Hfill. clear Hfill.
    assert (Hl : List.length (c0 :: colors) <> 0%nat) by (simpl; lia).
    revert Hl. generalize (c0 :: colors). intros l Hl.
    split; [|split; [|split]].
    + intros _.
      destruct (nth_error l (index mod List.length l)) as [c|] eqn:E.
      * exists c. split; [reflexivity|]. exact (nth_error_In _ _ E).
      * apply nth_error_None in E.
        pose proof (Nat.mod_upper_bound index (List.length l) Hl). lia.
    + intro H. rewrite Nat.mod_small by exact H. reflexivity.
    + f_equal.
      replace (index + List.length l)%nat
        with (index + 1 * List.length l)%nat by lia.
      apply Nat.Div0.mod_add.
    + intros ->. simpl in Hl. contradiction.
Qed.

End DonutChartFacts.

(** * Further theorems at concrete inputs *)

Module MoreInstances.
Import Mapping Aggregation Projection Override.
Import MappingFacts AggregationFacts ProjectionFacts Instances.

(** The collation of the examples: code points, byte by byte. *)
Definition by_code_point : text -> text -> bool := String.leb.

(** X2 at a concrete input.  The override of account 13 of [books] by the
    category Liabilities: account 14 is reported as unmapped afterwards
    exactly as it was before. *)
Lemma override_leaves_unmapped_report_witness :
  fn_set_account_mapping (Some 13%N) (Some 5%N) books
  = (inr true,
     set_accounts books
       (update_mapping (accounts books) (Some 13%N) (Some 5%N)))
  /\ (In (Override.mkUnmapped 14 "Qqq" "Non-Posting" None)
         (Override.fn_get_unmapped_accounts by_code_point (Some 1%N)
            (set_accounts books
               (update_mapping (accounts books) (Some 13%N) (Some 5%N))))
      <-> In (Override.mkUnmapped 14 "Qqq" "Non-Posting" None)
             (Override.fn_get_unmapped_accounts by_code_point (Some 1%N)
                books)
          /\ ref_eqb (Some 13%N) 14 = false).
Proof.
  split; [reflexivity|].
  apply (OverrideFacts.override_leaves_unmapped_report by_code_point
           (Some 13%N) (Some 5%N) books _ eq_refl (Some 1%N)
           (Override.mkUnmapped 14 "Qqq" "Non-Posting" None)).
Defined.




Lemma books_mappings_valid : OverrideFacts.mappings_valid books.
Proof.
  intros a i Ha Hi. simpl in Ha.
  destruct Ha as [<-|[<-|[<-|[<-|[<-|[]]]]]]; try discriminate Hi.
  injection Hi as <-.
  exists (nth 2 seed_categories (mkCategory 0 "" "" [])).
  split; [simpl; auto|reflexivity].
Defined.

(** X7 at a concrete input.  The foreign key on [books] after each of the
    three writers. *)
Lemma writers_keep_mappings_valid_witness :
  OverrideFacts.mappings_valid
    (snd (fn_map_account_to_category (Some 14%N) books))
  /\ OverrideFacts.mappings_valid
       (snd (fn_map_company_accounts (Some 1%N) books))
  /\ OverrideFacts.mappings_valid
       (snd (Override.fn_set_account_mapping (Some 13%N) (Some 5%N) books)).
Proof.
  destruct (OverrideFacts.writers_keep_mappings_valid books
              books_mappings_valid) as (H1 & H2 & H3).
  split; [apply H1|]. split; [apply H2|apply H3].
Defined.

(** X10 at a concrete input.  [COST OF SALES] is the example [Cost of Sales]
    of the second seeded category. *)
Lemma seeded_examples_resolve_to_their_category_witness :
  resolve seed_categories "COST OF SALES" "Bank" = Some 2%N.
Proof.
  apply (MatchingScores.seeded_examples_resolve_to_their_category
           (nth 1 seed_categories (mkCategory 0 "" "" []))
           "Cost of Sales" "COST OF SALES" "Bank").
  - simpl. auto.
  - simpl. auto.
  - reflexivity.
Defined.


(** The ids of the seeded catalog, by name. *)
Definition seed_id (n : text) : uuid :=
  match find (fun c => String.eqb (cat_name c) n) seed_categories with
  | Some c => cat_id c
  | None => 0%N
  end.

Lemma history_example_pl_ok :
  AggregationInvariants.table_ok (companies history_example)
    (monthly_pl history_example).
Proof.
  split; [|split].
  - vm_compute.
    repeat (constructor; [cbv; intuition congruence|]). constructor.
  - intros r Hr. simpl in Hr.
    repeat (destruct Hr as [<-|Hr]; [reflexivity|]). contradiction.
  - intros r Hr. simpl in Hr.
    repeat (destruct Hr as [<-|Hr]; [simpl; lia|]). contradiction.
Defined.

Lemma history_example_cf_ok :
  AggregationInvariants.table_ok (companies history_example)
    (monthly_cash_flow history_example).
Proof.
  split; [constructor|]. split; intros r [].
Defined.

(** X15 at a concrete input.  A call for June 2025 on [history_example],
    which has a row for that month: the table stays well formed and keeps
    its seven rows. *)
Lemma aggregation_keeps_tables_well_formed_witness :
  AggregationInvariants.table_ok
    (companies history_example)
    (monthly_pl
       (snd (fn_generate_monthly_pl 5 77 (Some 1%N) (Some (mkDate 2025 6 1))
               (Some (mkDate 2025 6 30)) (Some "run-2"%string)
               history_example)))
  /\ AggregationInvariants.grown
       (monthly_pl history_example)
       (monthly_pl
          (snd (fn_generate_monthly_pl 5 77 (Some 1%N)
                  (Some (mkDate 2025 6 1)) (Some (mkDate 2025 6 30))
                  (Some "run-2"%string) history_example)))
  /\ List.length
       (monthly_pl
          (snd (fn_generate_monthly_pl 5 77 (Some 1%N)
                  (Some (mkDate 2025 6 1)) (Some (mkDate 2025 6 30))
                  (Some "run-2"%string) history_example)))
     = 7%nat.
Proof.
  destruct (AggregationInvariants.aggregation_keeps_tables_well_formed
              5 77 (Some 1%N) (Some (mkDate 2025 6 1))
              (Some (mkDate 2025 6 30)) (Some "run-2"%string) history_example
              history_example_pl_ok history_example_cf_ok)
    as [(H1 & _ & H3) _].
  split; [exact H1|]. split; [exact H3|reflexivity].
Defined.

(** X16 at a concrete input.  Company 9 is not a company of [sign_example]. *)
Lemma aggregation_unknown_company_witness :
  fn_generate_monthly_pl 5 77 (Some 9%N) (Some (mkDate 2025 1 1))
    (Some (mkDate 2025 1 31)) (Some "run-1"%string) sign_example
  = (Raise (foreign_key_violation "monthly_pl"), sign_example)
  /\ fn_generate_monthly_cash_flow 5 77 (Some 9%N) (Some (mkDate 2025 1 1))
       (Some (mkDate 2025 1 31)) (Some "run-1"%string) sign_example
     = (Raise (foreign_key_violation "monthly_cash_flow"), sign_example).
Proof.
  assert (Hne : "run-1"%string <> ""%string) by discriminate.
  destruct (AggregationInvariants.aggregation_unknown_company 5 77 9%N
              (mkDate 2025 1 1) (mkDate 2025 1 31) "run-1"%string sign_example
              (fun r (H : In r []) => match H with end)
              (fun r (H : In r []) => match H with end)
              eq_refl Hne eq_refl) as (H1 & H2 & _).
  split; assumption.
Defined.

(** [sign_example] with one more transaction, dated in February. *)
Definition sign_example_february : db :=
  set_raw_transactions sign_example
    (raw_transactions sign_example
     ++ [mkTxn 26 1 (mkDate 2025 2 3) 50 (Some 11%N)]).

(** X17 at a concrete input.  The February transaction does not change the
    totals of January. *)
Lemma totals_read_period_transactions_only_witness :
  pl_totals_of sign_example january
  = pl_totals_of sign_example_february january
  /\ cf_totals_of sign_example january
     = cf_totals_of sign_example_february january.
Proof.
  destruct (AggregationInvariants.totals_read_period_transactions_only
              sign_example sign_example_february january
              eq_refl eq_refl eq_refl) as (H1 & H2 & _).
  split; assumption.
Defined.







(** The columns of the table of the overview page
    ([src/app/OverviewClient.tsx], lines 34-39). *)
Definition tableColumns : list DataTable.Column :=
  [ DataTable.mkColumn "date" "Date" (Some true);
    DataTable.mkColumn "description" "Description" (Some false);
    DataTable.mkColumn "amount" "Amount" (Some true);
    DataTable.mkColumn "category" "Category" (Some true) ].

(** X25 at a concrete input. *)
Lemma sort_click_cycle_witness :
  DataTable.handleSort tableColumns "amount" (DataTable.mkState None None 1)
  = DataTable.mkState (Some "amount"%string) (Some DataTable.asc) 1
  /\ DataTable.handleSort tableColumns "amount"
       (DataTable.mkState (Some "amount"%string) (Some DataTable.asc) 1)
     = DataTable.mkState (Some "amount"%string) (Some DataTable.desc) 1
  /\ DataTable.handleSort tableColumns "amount"
       (DataTable.mkState (Some "amount"%string) (Some DataTable.desc) 1)
     = DataTable.mkState None None 1
  /\ DataTable.handleSort tableColumns "description" DataTable.initial
     = DataTable.initial.
Proof.
  destruct (DataTableFacts.sort_click_cycle tableColumns "amount" 1 eq_refl)
    as (H1 & H2 & H3 & _ & H5).
  split; [exact H1|]. split; [exact H2|]. split; [exact H3|].
  apply H5. reflexivity.
Defined.

(** X26 at a concrete input.  Twenty-three rows on pages of ten. *)
Lemma pages_partition_rows_witness :
  DataTable.totalPages 23 10 = 3
  /\ List.concat
       (map (fun p => DataTable.paginatedData (seq 0 23) 10
                        (DataTableFacts.on_page p))
            [1; 2; 3])
     = seq 0 23.
Proof.
  split; [reflexivity|].
  apply (DataTableFacts.pages_partition_rows nat (seq 0 23) 10 eq_refl).
Defined.

(** X27 at concrete inputs.  Three times Next, a sort by amount and once
    Previous on twenty-three rows: page 2 of 3.  The same clicks on a
    table without rows: no page, and the current page stays 1. *)
Lemma clicks_keep_table_ok_witness :
  let st :=
    fold_left (DataTable.handle tableColumns 23 10)
      [DataTable.NextClick; DataTable.NextClick; DataTable.NextClick;
       DataTable.HeaderClick (DataTable.mkColumn "amount" "Amount" (Some true));
       DataTable.PreviousClick]
      DataTable.initial in
  let st0 :=
    fold_left (DataTable.handle tableColumns 0 10)
      [DataTable.NextClick;
       DataTable.HeaderClick (DataTable.mkColumn "amount" "Amount" (Some true));
       DataTable.PreviousClick]
      DataTable.initial in
  (DataTableFacts.sort_ok tableColumns st
   /\ 1 <= DataTable.currentPage st <= DataTable.totalPages 23 10
   /\ DataTable.totalPages 23 10 = 3
   /\ DataTable.paginatedData (rev (seq 0 23)) 10 st <> []
   /\ st = DataTable.mkState (Some "amount"%string) (Some DataTable.asc) 2)
  /\ (DataTable.totalPages 0 10 = 0
      /\ DataTable.currentPage st0 = 1
      /\ DataTable.paginatedData (@nil nat) 10 st0 = []).
Proof.
  intros st st0. split.
  - destruct (DataTableFacts.clicks_keep_table_ok nat tableColumns (seq 0 23)
                (rev (seq 0 23)) 10
                [DataTable.NextClick; DataTable.NextClick;
                 DataTable.NextClick;
                 DataTable.HeaderClick
                   (DataTable.mkColumn "amount" "Amount" (Some true));
                 DataTable.PreviousClick]
                eq_refl eq_refl) as (_ & Hs & Hfull & _).
    destruct Hfull as [Hc Hrows]; [discriminate|].
    split; [exact Hs|]. split; [exact Hc|]. split; [reflexivity|].
    split; [exact Hrows|reflexivity].
  - destruct (DataTableFacts.clicks_keep_table_ok nat tableColumns [] [] 10
                [DataTable.NextClick;
                 DataTable.HeaderClick
                   (DataTable.mkColumn "amount" "Amount" (Some true));
                 DataTable.PreviousClick]
                eq_refl eq_refl) as (_ & _ & _ & Hnone).
    exact (Hnone eq_refl).
Defined.

(** X3 at concrete inputs.  On [partial_books] the batch for company 1
    reports two accounts and leaves three unmapped, which the report
    lists by name; on [books], whose catalog has every canonical type, it
    reports the four accounts of the company and leaves none. *)
Lemma batch_then_unmapped_witness :
  (exists out s',
     Stored.fn_map_company_accounts
       (map Stored.stored (categories partial_books)) (Some 1%N) partial_books
     = (Ok out, s')
     /\ List.length out = 2%nat
     /\ Override.fn_get_unmapped_accounts by_code_point (Some 1%N) s'
        = [mkUnmapped 12 "Checking - Chase" "Bank" None;
           mkUnmapped 14 "Qqq" "Non-Posting" None;
           mkUnmapped 13 "Zzz" "Long Term Liability" None])
  /\ (exists out s',
        Stored.fn_map_company_accounts (map Stored.stored (categories books))
          (Some 1%N) books
        = (Ok out, s')
        /\ List.length out = 4%nat
        /\ Override.fn_get_unmapped_accounts by_code_point (Some 1%N) s' = []).
Proof.
  split.
  - destruct (StoredBatch.batch_then_unmapped by_code_point
                (map Stored.stored (categories partial_books)) partial_books
                (Some 1%N)
                (StoredCatalog.read_stored (categories partial_books))
                partial_books_account_ids partial_books_category_ids)
      as (out & s' & Hrun & _).
    exists out, s'. split; [exact Hrun|].
    assert (Hc :
      Stored.fn_map_company_accounts
        (map Stored.stored (categories partial_books)) (Some 1%N)
        partial_books
      = (Ok [mkMappingRow 11 "COST OF SALES" (Some 2%N) "Cost of Goods Sold"
                          "auto_mapped";
             mkMappingRow 16 "Consulting" (Some 1%N) "Revenue"
                          "already_mapped"],
         set_accounts partial_books
           [ mkAccount 11 1 "q-1" "COST OF SALES" "Cost of Goods Sold" None
                       (Some 2%N);
             mkAccount 12 1 "q-2" "Checking - Chase" "Bank" None None;
             mkAccount 13 1 "q-3" "Zzz" "Long Term Liability" None None;
             mkAccount 14 1 "q-4" "Qqq" "Non-Posting" None None;
             mkAccount 16 1 "q-5" "Consulting" "Income" None (Some 1%N);
             mkAccount 15 2 "q-1" "Sales" "Income" None None ]))
      by (vm_compute; reflexivity).
    rewrite Hc in Hrun. injection Hrun as <- <-.
    split; [reflexivity|]. vm_compute. reflexivity.
  - destruct (StoredBatch.batch_then_unmapped by_code_point
                (map Stored.stored (categories books)) books (Some 1%N)
                (StoredCatalog.read_stored (categories books))
                books_account_ids seed_category_ids)
      as (out & s' & Hrun & Hlen & _ & Hcov).
    exists out, s'. split; [exact Hrun|].
    rewrite (Hcov seed_covers_all_types) in Hlen |- *.
    split; [|reflexivity].
    change (List.length (company_accounts books (Some 1%N))) with 4%nat
      in Hlen.
    simpl in Hlen. lia.
Defined.

(** X8 at concrete inputs: the batch for company 1 returns on
    [partial_books]; on the catalog with a [NULL] array it raises for
    company 1 of [books], whose account [Checking - Chase] equals no
    example, and returns no row for company 3, which has no account. *)
Lemma batch_never_raises_witness :
  (exists out s',
     Stored.fn_map_company_accounts
       (map Stored.stored (categories partial_books)) (Some 1%N) partial_books
     = (Ok out, s')
     /\ map acc_id (accounts s') = [11%N; 12%N; 13%N; 14%N; 16%N; 15%N])
  /\ fst (Stored.fn_map_company_accounts catalog_with_null_row (Some 1%N)
            books)
     = Raise foreach_expression_null
  /\ Stored.fn_map_company_accounts catalog_with_null_row (Some 3%N) books
     = (Ok [], books).
Proof.
  split; [|split].
  - destruct (proj1 (StoredBatch.batch_never_raises (Some 1%N) partial_books)
                (map Stored.stored (categories partial_books))
                (StoredCatalog.read_stored (categories partial_books)))
      as (out & s' & Hrun & _ & Hids & _).
    exists out, s'. split; [exact Hrun|exact Hids].
  - apply (proj1 (proj2 (StoredBatch.batch_never_raises (Some 1%N) books))
             (map Stored.stored seed_categories) seed_categories
             (Stored.mkRow 7 "Uncategorised" "opex" None) []
             (StoredCatalog.read_stored seed_categories) eq_refl).
    exists (mkAccount 12 1 "q-2" "Checking - Chase" "Bank" None (Some 3%N)),
           (mkAccount 12 1 "q-2" "Checking - Chase" "Bank" None (Some 3%N)).
    split; [simpl; auto|]. split; [reflexivity|].
    vm_compute. discriminate.
  - apply (proj2 (proj2 (StoredBatch.batch_never_raises (Some 3%N) books))).
    reflexivity.
Defined.

(** A catalog that has one category, of a name the seed does not use. *)
Definition payroll_catalog : list category :=
  [mkCategory 9 "Payroll" "opex" ["Salaries"; "Wages"]%string].

(** X13 at a concrete input.  Seeding [payroll_catalog] puts the six
    seeded categories after the one it had: [Wages] then resolves to the
    category it had, [Zzz] of type [Equity] to the seeded one. *)
Lemma seeded_catalog_resolves_everything_witness :
  Seed.seed_insert seed_id payroll_catalog
  = (payroll_catalog ++ seed_categories)%list
  /\ covers_all_types (Seed.seed_insert seed_id payroll_catalog)
  /\ Stored.resolve
       (map Stored.stored (Seed.seed_insert seed_id payroll_catalog))
       "Wages" "Expense"
     = Ok (Some 9%N)
  /\ Stored.resolve
       (map Stored.stored (Seed.seed_insert seed_id payroll_catalog))
       "Zzz" "Equity"
     = Ok (Some 6%N).
Proof.
  destruct (StoredBatch.seeded_catalog_resolves_everything seed_id
              payroll_catalog
              (map Stored.stored (Seed.seed_insert seed_id payroll_catalog)))
    as [Hcov Hres].
  - intros v Hv. simpl in Hv.
    repeat (destruct Hv as [<-|Hv]; [reflexivity|]). destruct Hv.
  - apply StoredCatalog.read_stored.
  - split; [reflexivity|]. split; [exact Hcov|].
    destruct (Hres "Wages"%string "Expense"%string) as (c1 & _ & E1).
    destruct (Hres "Zzz"%string "Equity"%string) as (c2 & _ & E2).
    split; vm_compute; reflexivity.
Defined.

(** X20 at concrete inputs.  In mid-July 2025, with averages 1000 and 600
    over six months: twelve rows, the one of offset 3 for October 2025
    with 1061.21 and 636.72.  With the average 9900000000000 the amount
    of offset 1 has fourteen digits before the point: the function
    raises. *)
Lemma project_twelve_months_witness :
  let ids := fun m => Z.to_N (100 + m) in
  (exists written,
     Stored.project mid_july 0 ids 1 (mkHistory (Some 1000%Q) (Some 600%Q) 6)
       history_example
     = (Ok 12, set_projections history_example written)
     /\ List.length written = 12%nat
     /\ exists r,
          In r written
          /\ p_company_id r = 1%N
          /\ snapshot_date r = mid_july
          /\ p_month r = mkDate 2025 10 1
          /\ revenue_projection r = 1061.21%Q
          /\ cost_projection r = 636.72%Q)
  /\ fst (Stored.project mid_july 0 ids 1
            (mkHistory (Some 9900000000000%Q) (Some 600%Q) 6) history_example)
     = Raise numeric_field_overflow.
Proof.
  intro ids.
  assert (H6 : 6 <> 0) by discriminate.
  split.
  - destruct (StoredProjection.project_twelve_months mid_july 0 ids 1%N
                (mkHistory (Some 1000%Q) (Some 600%Q) 6) history_example)
      as (_ & H12 & _).
    destruct (H12 H6 eq_refl eq_refl) as (Hrun & _ & Hrows & _).
    eexists. split; [exact Hrun|]. split; [reflexivity|].
    destruct (Hrows 3) as (r & Hin & Hc & Hs & Hm & Hrev & Hcost); [lia|].
    exists r. split; [exact Hin|]. split; [exact Hc|]. split; [exact Hs|].
    split; [exact Hm|]. split; [exact Hrev|exact Hcost].
  - destruct (StoredProjection.project_twelve_months mid_july 0 ids 1%N
                (mkHistory (Some 9900000000000%Q) (Some 600%Q) 6)
                history_example)
      as (_ & _ & Hover & _).
    exact (Hover H6 eq_refl eq_refl).
Defined.

End MoreInstances.
